(** * MusicPlayer: playback controller and frequency visualizer

    A shallow embedding of [frontend/src/components/MusicPlayer.jsx]:
    the React component state, the browser objects the component talks
    to (audio element, Web Audio graph, canvas, document, storage,
    console) and the handlers that run against them.

    JavaScript numbers are IEEE 754 binary64 values; they are modelled
    with the executable specification of [SpecFloat] at precision 53
    and maximal exponent 1024, so rounding, signed zeros, infinities
    and NaN behave as they do in the engine.

    Handlers are functions from the state cells of the render they
    were created in to a computation over the pending cells and the
    browser. Events are handled one at a time, with a re-render in
    between. What the browser does on a call (which attribute setters
    reject which values, what [play] or [removeChild] do) follows the
    HTML, DOM and Web Audio standards and is written out where the
    operation is defined. *)

From Stdlib Require Import ZArith List Bool Lia QArith Qpower Qabs Qfield Lqa.
From Stdlib Require Import Floats.SpecFloat.
From stdpp Require Import gmap strings list.

Local Open Scope Z_scope.

(* ================================================================== *)
(** ** JavaScript numbers *)
(* ================================================================== *)

Module Js.

Definition prec : Z := 53.
Definition emax : Z := 1024.

Definition number : Type := spec_float.

Definition NaN : number := S754_nan.

Definition fadd : number -> number -> number := SFadd prec emax.
Definition fsub : number -> number -> number := SFsub prec emax.
Definition fmul : number -> number -> number := SFmul prec emax.
Definition fdiv : number -> number -> number := SFdiv prec emax.

(** The number denoted by an integer literal or an integer-valued
    platform attribute. *)
Definition ofZ (z : Z) : number := binary_normalize prec emax z 0 false.

(** A decimal literal [n / 10^k]; dividing two exactly represented
    integers rounds once, to the double nearest to the decimal. *)
Definition ofDecimal (n : Z) (k : nat) : number :=
  fdiv (ofZ n) (ofZ (10 ^ Z.of_nat k)).

Definition valid (x : number) : bool := valid_binary prec emax x.

(** [Number.isFinite]. *)
Definition isFinite (x : number) : bool :=
  match x with
  | S754_zero _ | S754_finite _ _ _ => true
  | S754_infinity _ | S754_nan => false
  end.

Definition leb : number -> number -> bool := SFleb.

(** The rational a finite double stands for. *)
Definition toQ (x : number) : option Q :=
  match x with
  | S754_zero _ => Some 0%Q
  | S754_finite s m e =>
      let a := if s then Z.neg m else Z.pos m in
      Some (if 0 <=? e then inject_Z (a * 2 ^ e)
            else Qmake a (Z.to_pos (2 ^ (- e))))
  | _ => None
  end.

(** [x] is the double whose value is exactly the rational [q]. *)
Definition denotes (x : number) (q : Q) : bool :=
  match toQ x with
  | Some r => Qeq_bool r q
  | None => false
  end.



(** Integer part of a double, rounding towards zero. *)
Definition truncZ (x : number) : Z :=
  match x with
  | S754_finite s m e =>
      let t := if 0 <=? e then Z.pos m * 2 ^ e else Z.pos m / 2 ^ (- e) in
      if s then - t else t
  | _ => 0
  end.

(** WebIDL conversion of a number to [unsigned long]: non-finite
    values become 0, the others are truncated and wrapped. *)
Definition toUnsignedLong (x : number) : Z := truncZ x mod 2 ^ 32.

(** Storing into a [Uint8Array] element. *)
Definition toUint8 (z : Z) : Z := z mod 256.

End Js.

Import Js.

(* ================================================================== *)
(** ** Canvas *)
(* ================================================================== *)

(** A fill style written as [rgb(r, g, b)]. *)
Record css_color := Rgb { red : number; green : number; blue : number }.

(** What the 2D context was asked to paint, in call order. *)
Inductive canvas_op :=
| ClearRect (x y w h : number)
| FillRect (style : css_color) (x y w h : number).

Record Context2D := {
  fillStyle : css_color;
  ops : list canvas_op
}.

(** A fresh context paints black. *)
Definition defaultContext : Context2D :=
  {| fillStyle := Rgb (ofZ 0) (ofZ 0) (ofZ 0); ops := [] |}.

Record Canvas := {
  width : Z;
  height : Z;
  ctx2d : Context2D
}.

Definition set_fillStyle (c : css_color) (g : Context2D) : Context2D :=
  {| fillStyle := c; ops := ops g |}.

Definition clearRect (x y w h : number) (g : Context2D) : Context2D :=
  {| fillStyle := fillStyle g; ops := ops g ++ [ClearRect x y w h] |}.

Definition fillRect (x y w h : number) (g : Context2D) : Context2D :=
  {| fillStyle := fillStyle g;
     ops := ops g ++ [FillRect (fillStyle g) x y w h] |}.

(** An [unsigned long] attribute that reflects a content attribute
    keeps a value from 0 to 2147483647 and takes its default for a
    larger one. *)
Definition reflectUnsignedLong (default n : Z) : Z :=
  if n <=? 2147483647 then n else default.

(** Assigning [canvas.width] or [canvas.height] converts the value to
    [unsigned long], stores it as the reflecting attribute does (the
    defaults are 300 and 150) and resets the bitmap and the context
    state. *)
Definition set_width (v : number) (c : Canvas) : Canvas :=
  {| width := reflectUnsignedLong 300 (toUnsignedLong v); height := height c;
     ctx2d := defaultContext |}.

Definition set_height (v : number) (c : Canvas) : Canvas :=
  {| width := width c; height := reflectUnsignedLong 150 (toUnsignedLong v);
     ctx2d := defaultContext |}.

Definition with_ctx2d (g : Context2D) (c : Canvas) : Canvas :=
  {| width := width c; height := height c; ctx2d := g |}.

(* ================================================================== *)
(** ** Analyser node and frequency frames *)
(* ================================================================== *)

Record AnalyserNode := {
  fftSize : Z;
  (** the byte frequency data the node would hand out right now *)
  frequencyData : list Z
}.

(** [analyser.frequencyBinCount]: half the FFT size. *)
Definition frequencyBinCount (a : AnalyserNode) : Z := fftSize a / 2.

(** [new Uint8Array(n)]. *)
Definition newUint8Array (n : Z) : list Z := replicate (Z.to_nat n) 0.

(** [analyser.getByteFrequencyData(array)] overwrites [array] in place:
    data beyond the end of the array is dropped, array elements beyond
    the end of the data are left alone. *)
Fixpoint copyInto (data arr : list Z) : list Z :=
  match arr, data with
  | [], _ => []
  | a :: arr', [] => a :: arr'
  | _ :: arr', d :: data' => toUint8 d :: copyInto data' arr'
  end.

Definition getByteFrequencyData (a : AnalyserNode) (arr : list Z) : list Z :=
  copyInto (frequencyData a) arr.

(* ================================================================== *)
(** ** The render loop: [visualize] and [draw] *)
(* ================================================================== *)

(** [dataArray[i]]: a read past the end yields [undefined], which
    arithmetic turns into NaN. *)
Definition readByte (dataArray : list Z) (i : nat) : number :=
  match dataArray !! i with
  | Some b => ofZ b
  | None => NaN
  end.

(** [const barHeight = dataArray[i] / 2] *)
Definition barHeight (dataArray : list Z) (i : nat) : number :=
  fdiv (readByte dataArray i) (ofZ 2).

(** [`rgb(${barHeight + 100}, 50, 200)`] *)
Definition barColor (bh : number) : css_color :=
  Rgb (fadd bh (ofZ 100)) (ofZ 50) (ofZ 200).

(** [(canvas.width / bufferLength) * 2.5] *)
Definition barWidth (canvasWidth bufferLength : Z) : number :=
  fmul (fdiv (ofZ canvasWidth) (ofZ bufferLength)) (ofDecimal 25 1).

(** One iteration of the [for] loop of [draw]. *)
Definition drawBar (canvasHeight : Z) (bw : number) (dataArray : list Z)
    (st : number * Context2D) (i : nat) : number * Context2D :=
  let '(x, g) := st in
  let bh := barHeight dataArray i in
  let g := set_fillStyle (barColor bh) g in
  let g := fillRect x (fsub (ofZ canvasHeight) bh) bw bh g in
  (fadd x (fadd bw (ofZ 1)), g).

(** What a renderer keeps between frames: the buffer allocated by
    [visualize], its length, and the analyser it samples (by identity). *)
Record Renderer := {
  r_analyser : nat;
  bufferLength : Z;
  dataArray : list Z;
  (** calls to [requestAnimationFrame(draw)] so far *)
  framesRequested : nat
}.

(** The body of [draw], run with the analyser as it is at that tick,
    on the canvas [visualize] captured. *)
Definition draw (a : AnalyserNode) (st : Canvas * Renderer) : Canvas * Renderer :=
  let '(c, r) := st in
  let arr := getByteFrequencyData a (dataArray r) in
  let g := clearRect (ofZ 0) (ofZ 0) (ofZ (width c)) (ofZ (height c)) (ctx2d c) in
  let bw := barWidth (width c) (bufferLength r) in
  let g := snd (fold_left (drawBar (height c) bw arr)
                          (seq 0 (Z.to_nat (bufferLength r))) (ofZ 0, g)) in
  (with_ctx2d g c,
   {| r_analyser := r_analyser r;
      bufferLength := bufferLength r;
      dataArray := arr;
      framesRequested := S (framesRequested r) |}).

(** [visualize(analyser)]: without a canvas nothing is started;
    otherwise the canvas is sized, the buffer allocated and [draw] run
    once, which starts the loop. [aid] is the identity of the node. *)
Definition visualize (innerWidth : Z) (canvas : option Canvas)
    (aid : nat) (a : AnalyserNode) : option (Canvas * Renderer) :=
  match canvas with
  | None => None
  | Some c =>
      let c := set_width (fmul (ofZ innerWidth) (ofDecimal 9 1)) c in
      let c := set_height (ofZ 300) c in
      let n := frequencyBinCount a in
      Some (draw a (c, {| r_analyser := aid; bufferLength := n;
                          dataArray := newUint8Array n;
                          framesRequested := 0 |}))
  end.

(** The analyser with the byte data of a later moment. *)
Definition sample (a : AnalyserNode) (d : list Z) : AnalyserNode :=
  {| fftSize := fftSize a; frequencyData := d |}.

(** The frames that follow: at each animation frame the scheduled
    [draw] runs on the data the analyser holds then. *)
Definition renderLoop (a : AnalyserNode) (st : Canvas * Renderer)
    (frames : list (list Z)) : Canvas * Renderer :=
  fold_left (fun st d => draw (sample a d) st) frames st.

(** The rectangles among the painted operations. *)
Record rect := {
  rx : number; ry : number; rw : number; rh : number; rfill : css_color
}.

Definition rectOf (o : canvas_op) : option rect :=
  match o with
  | FillRect s x y w h => Some {| rx := x; ry := y; rw := w; rh := h; rfill := s |}
  | ClearRect _ _ _ _ => None
  end.

Definition rectangles (l : list canvas_op) : list rect := omap rectOf l.

(* ================================================================== *)
(** ** Browser objects the controller uses *)
(* ================================================================== *)

Inductive exn := TypeError | IndexSizeError | InvalidStateError | NotFoundError.

(** The two callbacks the mount effect registers on the audio element. *)
Inductive listener := OnTimeupdate | OnEnded.

Record AudioElement := {
  src : string;
  el_volume : number;
  controls : bool;
  paused : bool;
  currentTime : number;
  duration : number;
  listeners : list (string * listener)
}.

(** [new Audio()]: nothing loaded, so the duration is NaN. *)
Definition newAudio : AudioElement :=
  {| src := EmptyString; el_volume := ofZ 1; controls := false; paused := true;
     currentTime := ofZ 0; duration := NaN; listeners := [] |}.

Inductive node := NSource (id : nat) | NAnalyser (id : nat) | NDestination (ctx : nat).

Record AudioGraph := {
  (** [window.AudioContext || window.webkitAudioContext] is a constructor *)
  hasAudioContext : bool;
  contextsCreated : nat;
  analysers : list AnalyserNode;
  (** media element source nodes, each with the context that owns it *)
  mediaSources : list nat;
  connections : list (node * node)
}.

Record Element := {
  el_id : nat;
  tag : string;
  href : string;
  download : string
}.

Record Document := {
  children : list Element;      (* of [document.body] *)
  nextId : nat;
  downloads : list (string * string)   (* saved resource, file name *)
}.

Record World := {
  localStorage : gmap string string;
  audio : AudioElement;           (* audioRef.current *)
  canvas : option Canvas;         (* canvasRef.current *)
  innerWidth : Z;                 (* window.innerWidth *)
  graph : AudioGraph;
  renderers : list Renderer;
  console : list string;
  document : Document
}.

Definition with_audio (a : AudioElement) (w : World) : World :=
  {| localStorage := localStorage w; audio := a; canvas := canvas w;
     innerWidth := innerWidth w; graph := graph w; renderers := renderers w;
     console := console w; document := document w |}.

Definition with_canvas (c : option Canvas) (w : World) : World :=
  {| localStorage := localStorage w; audio := audio w; canvas := c;
     innerWidth := innerWidth w; graph := graph w; renderers := renderers w;
     console := console w; document := document w |}.

Definition with_graph (g : AudioGraph) (w : World) : World :=
  {| localStorage := localStorage w; audio := audio w; canvas := canvas w;
     innerWidth := innerWidth w; graph := g; renderers := renderers w;
     console := console w; document := document w |}.

Definition with_renderers (r : list Renderer) (w : World) : World :=
  {| localStorage := localStorage w; audio := audio w; canvas := canvas w;
     innerWidth := innerWidth w; graph := graph w; renderers := r;
     console := console w; document := document w |}.

Definition with_console (l : list string) (w : World) : World :=
  {| localStorage := localStorage w; audio := audio w; canvas := canvas w;
     innerWidth := innerWidth w; graph := graph w; renderers := renderers w;
     console := l; document := document w |}.

Definition with_document (d : Document) (w : World) : World :=
  {| localStorage := localStorage w; audio := audio w; canvas := canvas w;
     innerWidth := innerWidth w; graph := graph w; renderers := renderers w;
     console := console w; document := d |}.

(* ================================================================== *)
(** ** Component state and the handler monad *)
(* ================================================================== *)

(** The [useState] cells of the component. The audio graph objects are
    held by identity. *)
Record Component := {
  audioCtx : option nat;
  analyser : option nat;
  source : option nat;
  isPlaying : bool;
  volume : number;
  progress : number
}.

(** The first render: [useState(null)] three times, then [false], [1], [0]. *)
Definition initialComponent : Component :=
  {| audioCtx := None; analyser := None; source := None;
     isPlaying := false; volume := ofZ 1; progress := ofZ 0 |}.

(** A handler body runs against the state cells as they will be after
    the pending [set...] calls and against the browser; it may throw.
    What a handler reads from the cells comes from the render it was
    created in, which is the argument of the handler, not this state. *)
Definition M (A : Type) : Type :=
  Component * World -> (exn + A) * (Component * World).

Definition ret {A} (a : A) : M A := fun s => (inr a, s).

Definition bind {A B} (m : M A) (k : A -> M B) : M B :=
  fun s => match m s with
           | (inr a, s') => k a s'
           | (inl e, s') => (inl e, s')
           end.

Definition throw {A} (e : exn) : M A := fun s => (inl e, s).

Definition getWorld : M World := fun s => (inr (snd s), s).

Definition modifyWorld (f : World -> World) : M unit :=
  fun s => (inr tt, (fst s, f (snd s))).

Definition setState (f : Component -> Component) : M unit :=
  fun s => (inr tt, (f (fst s), snd s)).

Definition when (b : bool) (m : M unit) : M unit := if b then m else ret tt.

Notation "'let!' x ':=' m 'in' k" := (bind m (fun x => k))
  (at level 10, x name, m at level 100, k at level 200).
Notation "m ';;' k" := (bind m (fun _ => k))
  (at level 100, k at level 200, right associativity).

(** How a handler invocation ends: the component re-renders with the
    updated cells; an exception leaves the handler early, with the
    updates and effects made up to that point. *)
Inductive outcome :=
| Done (c : Component) (w : World)
| Threw (e : exn) (c : Component) (w : World).

Definition run (h : Component -> M unit) (c : Component) (w : World) : outcome :=
  match h c (c, w) with
  | (inr _, (c', w')) => Done c' w'
  | (inl e, (c', w')) => Threw e c' w'
  end.

Definition stateOf (o : outcome) : Component :=
  match o with Done c _ | Threw _ c _ => c end.

Definition worldOf (o : outcome) : World :=
  match o with Done _ w | Threw _ _ w => w end.

Definition threw (o : outcome) : bool :=
  match o with Done _ _ => false | Threw _ _ _ => true end.

(** The state cells with one of them replaced. *)
Definition withAudioCtx (v : option nat) (c : Component) : Component :=
  {| audioCtx := v; analyser := analyser c; source := source c;
     isPlaying := isPlaying c; volume := volume c; progress := progress c |}.

Definition withAnalyser (v : option nat) (c : Component) : Component :=
  {| audioCtx := audioCtx c; analyser := v; source := source c;
     isPlaying := isPlaying c; volume := volume c; progress := progress c |}.

Definition withSource (v : option nat) (c : Component) : Component :=
  {| audioCtx := audioCtx c; analyser := analyser c; source := v;
     isPlaying := isPlaying c; volume := volume c; progress := progress c |}.

Definition withIsPlaying (v : bool) (c : Component) : Component :=
  {| audioCtx := audioCtx c; analyser := analyser c; source := source c;
     isPlaying := v; volume := volume c; progress := progress c |}.

Definition withVolume (v : number) (c : Component) : Component :=
  {| audioCtx := audioCtx c; analyser := analyser c; source := source c;
     isPlaying := isPlaying c; volume := v; progress := progress c |}.

Definition withProgress (v : number) (c : Component) : Component :=
  {| audioCtx := audioCtx c; analyser := analyser c; source := source c;
     isPlaying := isPlaying c; volume := volume c; progress := v |}.

(** The [set...] functions returned by [useState]. *)
Definition setAudioCtx (v : option nat) : M unit := setState (withAudioCtx v).
Definition setAnalyser (v : option nat) : M unit := setState (withAnalyser v).
Definition setSource (v : option nat) : M unit := setState (withSource v).
Definition setIsPlaying (v : bool) : M unit := setState (withIsPlaying v).
Definition setVolume (v : number) : M unit := setState (withVolume v).
Definition setProgress (v : number) : M unit := setState (withProgress v).

(* ================================================================== *)
(** ** Browser operations *)
(* ================================================================== *)

(** A string or [null] in a condition: [null] and the empty string are
    falsy. *)
Definition truthy (o : option string) : bool :=
  match o with
  | Some EmptyString | None => false
  | Some (String _ _) => true
  end.

Definition getItem (key : string) : M (option string) :=
  let! w := getWorld in ret (localStorage w !! key).

Definition consoleWarn (msg : string) : M unit :=
  modifyWorld (fun w => with_console (console w ++ [msg]) w).

Definition modifyAudio (f : AudioElement -> AudioElement) : M unit :=
  modifyWorld (fun w => with_audio (f (audio w)) w).

Definition getAudio : M AudioElement :=
  let! w := getWorld in ret (audio w).

(** The element with one attribute replaced. *)
Definition loadSrc (s : string) (a : AudioElement) : AudioElement :=
  {| src := s; el_volume := el_volume a; controls := controls a;
     paused := paused a; currentTime := ofZ 0; duration := NaN;
     listeners := listeners a |}.

Definition withElVolume (v : number) (a : AudioElement) : AudioElement :=
  {| src := src a; el_volume := v; controls := controls a;
     paused := paused a; currentTime := currentTime a;
     duration := duration a; listeners := listeners a |}.

Definition withControls (b : bool) (a : AudioElement) : AudioElement :=
  {| src := src a; el_volume := el_volume a; controls := b;
     paused := paused a; currentTime := currentTime a;
     duration := duration a; listeners := listeners a |}.

Definition withCurrentTime (t : number) (a : AudioElement) : AudioElement :=
  {| src := src a; el_volume := el_volume a; controls := controls a;
     paused := paused a; currentTime := t;
     duration := duration a; listeners := listeners a |}.

Definition withPaused (b : bool) (a : AudioElement) : AudioElement :=
  {| src := src a; el_volume := el_volume a; controls := controls a;
     paused := b; currentTime := currentTime a;
     duration := duration a; listeners := listeners a |}.

Definition withListener (ev : string) (l : listener) (a : AudioElement)
    : AudioElement :=
  {| src := src a; el_volume := el_volume a; controls := controls a;
     paused := paused a; currentTime := currentTime a;
     duration := duration a; listeners := listeners a ++ [(ev, l)] |}.

(** Assigning [src] starts a new load: the position goes back to 0 and
    the duration is unknown until the metadata has arrived. *)
Definition audio_set_src (s : string) : M unit := modifyAudio (loadSrc s).

(** [volume] is a [double] attribute that accepts 0.0 to 1.0 only. *)
Definition audio_set_volume (v : number) : M unit :=
  if negb (isFinite v) then throw TypeError
  else if leb (ofZ 0) v && leb v (ofZ 1) then modifyAudio (withElVolume v)
  else throw IndexSizeError.

Definition audio_set_controls (b : bool) : M unit := modifyAudio (withControls b).

(** Where a seek to [t] lands on a resource of duration [D]: a target
    later than the end is moved to the end, one before the start to
    the start. While nothing is loaded (the duration is NaN) the value
    is kept as the position to start from. *)
Definition seekPosition (t D : number) : number :=
  match D with
  | S754_nan => t
  | _ =>
      if negb (leb t D) then D
      else if negb (leb (ofZ 0) t) then ofZ 0
      else t
  end.

(** [currentTime] is a [double] attribute: the binding rejects NaN and
    the infinities with a TypeError before anything is stored. A
    finite value starts a seek, and the position is where the seek
    lands. Positions are kept as doubles; a browser that keeps media
    time in integer ticks reports the tick nearest to that position. *)
Definition audio_set_currentTime (t : number) : M unit :=
  if negb (isFinite t) then throw TypeError
  else modifyAudio (fun a => withCurrentTime (seekPosition t (duration a)) a).

(** [play()] reports failure through the promise it returns, never by
    throwing, and the handler drops that promise. The element leaves
    the paused state at once; an element whose source has already
    failed to load would stay paused, which is not modelled. [pause()]
    always leaves it paused. *)
Definition audio_play : M unit := modifyAudio (withPaused false).
Definition audio_pause : M unit := modifyAudio (withPaused true).

Definition audio_addEventListener (ev : string) (l : listener) : M unit :=
  modifyAudio (withListener ev l).

Definition modifyGraph (f : AudioGraph -> AudioGraph) : M unit :=
  modifyWorld (fun w => with_graph (f (graph w)) w).

(** [new (window.AudioContext || window.webkitAudioContext)()]: calling
    [new] on [undefined] is a TypeError. The result is the identity of
    the new context. *)
Definition newAudioContext : M nat :=
  let! w := getWorld in
  if hasAudioContext (graph w) then
    (modifyGraph (fun g =>
       {| hasAudioContext := hasAudioContext g;
          contextsCreated := S (contextsCreated g);
          analysers := analysers g; mediaSources := mediaSources g;
          connections := connections g |}) ;;
     ret (contextsCreated (graph w)))
  else throw TypeError.

(** The data of a silent analyser: one zero per bin. *)
Definition silentAnalyser (size : Z) : AnalyserNode :=
  {| fftSize := size; frequencyData := replicate (Z.to_nat (size / 2)) 0 |}.

(** [context.createAnalyser()]; the default FFT size is 2048. *)
Definition createAnalyser (ctx : nat) : M nat :=
  let! w := getWorld in
  modifyGraph (fun g =>
    {| hasAudioContext := hasAudioContext g;
       contextsCreated := contextsCreated g;
       analysers := analysers g ++ [silentAnalyser 2048];
       mediaSources := mediaSources g;
       connections := connections g |}) ;;
  ret (length (analysers (graph w))).

(** Valid FFT sizes are the powers of two from 32 to 32768. *)
Definition validFftSize (n : Z) : bool :=
  (32 <=? n) && (n <=? 32768) && (2 ^ Z.log2 n =? n).

Definition analyser_set_fftSize (id : nat) (n : Z) : M unit :=
  if validFftSize n then
    modifyGraph (fun g =>
      {| hasAudioContext := hasAudioContext g;
         contextsCreated := contextsCreated g;
         analysers := <[id := silentAnalyser n]> (analysers g);
         mediaSources := mediaSources g;
         connections := connections g |})
  else throw IndexSizeError.

(** [context.createMediaElementSource(audioRef.current)]: an element
    that already feeds a source node cannot be tapped again. *)
Definition createMediaElementSource (ctx : nat) : M nat :=
  let! w := getWorld in
  match mediaSources (graph w) with
  | [] =>
      modifyGraph (fun g =>
        {| hasAudioContext := hasAudioContext g;
           contextsCreated := contextsCreated g;
           analysers := analysers g;
           mediaSources := mediaSources g ++ [ctx];
           connections := connections g |}) ;;
      ret (length (mediaSources (graph w)))
  | _ :: _ => throw InvalidStateError
  end.

Definition connect (from to : node) : M unit :=
  modifyGraph (fun g =>
    {| hasAudioContext := hasAudioContext g;
       contextsCreated := contextsCreated g;
       analysers := analysers g; mediaSources := mediaSources g;
       connections := connections g ++ [(from, to)] |}).

(** [visualize(analyserNode)] against the browser: the canvas comes
    from [canvasRef.current], the started loop is remembered. *)
Definition visualizeM (aid : nat) : M unit :=
  let! w := getWorld in
  match analysers (graph w) !! aid with
  | None => throw TypeError
  | Some a =>
      match visualize (innerWidth w) (canvas w) aid a with
      | None => ret tt
      | Some (c, r) =>
          modifyWorld (fun w =>
            with_renderers (renderers w ++ [r]) (with_canvas (Some c) w))
      end
  end.

Definition modifyDocument (f : Document -> Document) : M unit :=
  modifyWorld (fun w => with_document (f (document w)) w).

(** [document.createElement(tag)]: a new, detached element. *)
Definition createElement (t : string) : M Element :=
  let! w := getWorld in
  modifyDocument (fun d =>
    {| children := children d; nextId := S (nextId d);
       downloads := downloads d |}) ;;
  ret {| el_id := nextId (document w); tag := t;
         href := EmptyString; download := EmptyString |}.

Definition sameElement (a b : Element) : bool := Nat.eqb (el_id a) (el_id b).

(** [document.body.appendChild(a)]: an element already in the body
    moves to the end. *)
Definition appendChild (a : Element) : M unit :=
  modifyDocument (fun d =>
    {| children := List.filter (fun b => negb (sameElement a b)) (children d) ++ [a];
       nextId := nextId d; downloads := downloads d |}).

(** [a.click()] on an anchor with a [download] attribute saves the
    resource under that name. *)
Definition click (a : Element) : M unit :=
  modifyDocument (fun d =>
    {| children := children d; nextId := nextId d;
       downloads := downloads d ++ [(href a, download a)] |}).

(** [document.body.removeChild(a)]: removing what is not a child is a
    NotFoundError. *)
Definition removeChild (a : Element) : M unit :=
  let! w := getWorld in
  if existsb (sameElement a) (children (document w)) then
    modifyDocument (fun d =>
      {| children := List.filter (fun b => negb (sameElement a b)) (children d);
         nextId := nextId d; downloads := downloads d |})
  else throw NotFoundError.

(* ================================================================== *)
(** ** The component: mount effect, listeners and handlers *)
(* ================================================================== *)

Definition audioSrcKey : string := "audioSrc".
Definition missingSourceWarning : string := "No audio URL found in localStorage".
Definition downloadName : string := "generated-music.wav".

(** The [useEffect(..., [])] body, run once after the first render. *)
Definition mountEffect (c : Component) : M unit :=
  let! audioUrl := getItem audioSrcKey in
  if negb (truthy audioUrl) then
    consoleWarn missingSourceWarning
  else
    audio_set_src (default EmptyString audioUrl) ;;
    audio_set_volume (volume c) ;;
    audio_set_controls false ;;
    audio_addEventListener "timeupdate" OnTimeupdate ;;
    audio_addEventListener "ended" OnEnded.

(** The bodies of the two registered callbacks. *)
Definition runListener (l : listener) : M unit :=
  match l with
  | OnTimeupdate =>
      let! a := getAudio in
      setProgress (fmul (fdiv (currentTime a) (duration a)) (ofZ 100))
  | OnEnded => setIsPlaying false
  end.

(** The element fires [ev]: every callback registered for it runs, in
    registration order. *)
Fixpoint runListeners (ev : string) (ls : list (string * listener)) : M unit :=
  match ls with
  | [] => ret tt
  | (ev', l) :: ls' =>
      when (String.eqb ev ev') (runListener l) ;; runListeners ev ls'
  end.

Definition dispatchEvent (ev : string) (_ : Component) : M unit :=
  let! a := getAudio in runListeners ev (listeners a).

Definition isNull {A} (o : option A) : bool :=
  match o with None => true | Some _ => false end.

Definition handlePlayPause (c : Component) : M unit :=
  when (isNull (audioCtx c))
    (let! context := newAudioContext in
     let! analyserNode := createAnalyser context in
     analyser_set_fftSize analyserNode 256 ;;
     let! sourceNode := createMediaElementSource context in
     connect (NSource sourceNode) (NAnalyser analyserNode) ;;
     connect (NAnalyser analyserNode) (NDestination context) ;;
     setAudioCtx (Some context) ;;
     setAnalyser (Some analyserNode) ;;
     setSource (Some sourceNode) ;;
     visualizeM analyserNode) ;;
  (if isPlaying c then audio_pause else audio_play) ;;
  setIsPlaying (negb (isPlaying c)).

(** [value] is [e.target.value]. The slider hands it over as the
    decimal string of a number; the element's setter and the
    arithmetic of the seek handler convert it, and the model takes it
    as that number from the start. *)
Definition handleVolumeChange (value : number) (c : Component) : M unit :=
  let newVolume := value in
  setVolume newVolume ;;
  audio_set_volume newVolume.

Definition handleDownload (c : Component) : M unit :=
  let! audioUrl := getItem audioSrcKey in
  when (truthy audioUrl)
    (let! a := createElement "a" in
     let a := {| el_id := el_id a; tag := tag a;
                 href := default EmptyString audioUrl; download := download a |} in
     let a := {| el_id := el_id a; tag := tag a;
                 href := href a; download := downloadName |} in
     appendChild a ;;
     click a ;;
     removeChild a).

Definition handleProgressChange (value : number) (c : Component) : M unit :=
  let! a := getAudio in
  let newTime := fmul (fdiv value (ofZ 100)) (duration a) in
  audio_set_currentTime newTime ;;
  setProgress value.

(** The document before the component has touched it, and the browser
    right after the first render: a fresh audio element, the canvas in
    place. *)
Definition emptyDocument : Document :=
  {| children := []; nextId := 0; downloads := [] |}.

Definition freshWorld (store : gmap string string) (viewport : Z)
    (audioApi : bool) : World :=
  {| localStorage := store;
     audio := newAudio;
     canvas := Some {| width := 300; height := 150; ctx2d := defaultContext |};
     innerWidth := viewport;
     graph := {| hasAudioContext := audioApi; contextsCreated := 0;
                 analysers := []; mediaSources := []; connections := [] |};
     renderers := [];
     console := [];
     document := emptyDocument |}.

(** The next event, handled after the re-render that follows the
    previous one; an exception does not stop later events from being
    handled. *)
Definition after (o : outcome) (h : Component -> M unit) : outcome :=
  run h (stateOf o) (worldOf o).

(* ================================================================== *)
(** ** Vocabulary for the statements *)
(* ================================================================== *)

(** The user actions the controller offers. *)
Inductive action :=
| TogglePlayPause
| SetVolume (v : number)
| Seek (percent : number)
| Download.

Definition handler (a : action) : Component -> M unit :=
  match a with
  | TogglePlayPause => handlePlayPause
  | SetVolume v => handleVolumeChange v
  | Seek p => handleProgressChange p
  | Download => handleDownload
  end.

(** An action that is inert in a given situation: it raises nothing and
    leaves the playback state and the audio element as they were. *)
Definition inertAt (c : Component) (w : World) (a : action) : Prop :=
  let o := run (handler a) c w in
  threw o = false /\ stateOf o = c /\ audio (worldOf o) = audio w.

(** The rest state of the controller: not playing, no tap built. *)
Definition atRest (c : Component) (w : World) : Prop :=
  isPlaying c = false /\ audioCtx c = None /\
  contextsCreated (graph w) = 0%nat /\ analysers (graph w) = [] /\
  mediaSources (graph w) = [].

(** Every child of the body was created before the next identity. *)
Definition wfDocument (d : Document) : Prop :=
  Forall (fun e => (el_id e < nextId d)%nat) (children d).

(** The height and the colour of a bar as functions of the sampled
    byte alone. *)
Definition heightOf (m : Z) : number := fdiv (ofZ m) (ofZ 2).
Definition colorOf (m : Z) : css_color := barColor (heightOf m).

(** The colour channel as the specification words it:
    [m + 100] clamped to the channel range. *)
Definition specChannel (m : Z) : Z := Z.min 255 (Z.max 0 (m + 100)).

(** The operations of one pass of the [for] loop, starting at
    abscissa [x]. *)
Fixpoint barOps (canvasHeight : Z) (bw : number) (arr : list Z)
    (x : number) (idx : list nat) : list canvas_op :=
  match idx with
  | [] => []
  | i :: idx' =>
      let bh := barHeight arr i in
      FillRect (barColor bh) x (fsub (ofZ canvasHeight) bh) bw bh
        :: barOps canvasHeight bw arr (fadd x (fadd bw (ofZ 1))) idx'
  end.

(** The operations of one run of [draw]. *)
Definition tickOps (c : Canvas) (n : Z) (arr : list Z) : list canvas_op :=
  ClearRect (ofZ 0) (ofZ 0) (ofZ (width c)) (ofZ (height c))
    :: barOps (height c) (barWidth (width c) n) arr (ofZ 0) (seq 0 (Z.to_nat n)).

(** The operations of a run of [draw] whose buffer is filled by the
    frame [d]. *)
Definition frameOps (c : Canvas) (n : Z) (d : list Z) : list canvas_op :=
  tickOps c n (map toUint8 d).

(** Height and fill of a rectangle are the pure functions [heightOf]
    and [colorOf] of some byte. *)
Definition pureBar (rc : rect) : Prop :=
  exists m, 0 <= m <= 255 /\ rh rc = heightOf m /\ rfill rc = colorOf m.

(** What was painted between two states of the same canvas. *)
Definition paintedSince (before after : Canvas) : list canvas_op :=
  drop (length (ops (ctx2d before))) (ops (ctx2d after)).

(** A double that is at most one and not negative: a zero, or a
    positive mantissa of at most 53 bits that does not exceed the
    reciprocal of its weight. *)
Definition atMostOne (x : number) : bool :=
  match x with
  | S754_zero _ => true
  | S754_finite false m e =>
      (e <=? 0) && (Z.pos m <=? 2 ^ (- e)) && (Z.pos (digits2_pos m) <=? 53)
  | _ => false
  end.

(** The slider positions of the seek control: [min=0], [max=100],
    step 1. *)
Definition percentOf (p : Z) : number := ofZ p.

(** The positions of the volume control: [min=0], [max=1], [step=0.1]. *)
Definition volumeStep (k : Z) : number := ofDecimal k 1.

(* ================================================================== *)
(** ** Concrete situations *)
(* ================================================================== *)

(** The element once the metadata of the resource has arrived: the
    duration is known. *)
Definition withDuration (d : number) (a : AudioElement) : AudioElement :=
  {| src := src a; el_volume := el_volume a; controls := controls a;
     paused := paused a; currentTime := currentTime a;
     duration := d; listeners := listeners a |}.

Definition metadataLoaded (d : number) (w : World) : World :=
  with_audio (withDuration d (audio w)) w.

(** Storage as the generation page leaves it, and storage without a
    track. *)
Definition sourceStore : gmap string string :=
  {[ audioSrcKey := "blob:generated-track" ]}.

Definition emptyStore : gmap string string := empty.

Definition restWorld : World := freshWorld sourceStore 1000 true.
Definition inertWorld : World := freshWorld emptyStore 1000 true.


(** A two-bin analyser with one saturated bin, a small canvas and a
    renderer over it. *)
Definition saturatedAnalyser : AnalyserNode :=
  {| fftSize := 4; frequencyData := [255; 0] |}.

Definition smallCanvas : Canvas :=
  {| width := 10; height := 300; ctx2d := defaultContext |}.

Definition smallRenderer : Renderer :=
  {| r_analyser := 0; bufferLength := 2; dataArray := [0; 0];
     framesRequested := 0 |}.

(** The same canvas and renderer later on: something is painted, the
    fill style is left over, the buffer holds an old frame. *)
Definition usedCanvas : Canvas :=
  {| width := 10; height := 300;
     ctx2d := {| fillStyle := Rgb (ofZ 120) (ofZ 50) (ofZ 200);
                 ops := [ClearRect (ofZ 0) (ofZ 0) (ofZ 10) (ofZ 300)] |} |}.

Definition usedRenderer : Renderer :=
  {| r_analyser := 0; bufferLength := 2; dataArray := [40; 7];
     framesRequested := 12 |}.

(* ================================================================== *)
(** ** Further vocabulary: bounds on doubles *)
(* ================================================================== *)

(** A double that is not negative and at most the integer [c], with an
    exponent of at most [top]: a positive zero, or a mantissa that does
    not exceed [c] at its weight. *)
Definition atMost (c top : Z) (x : number) : bool :=
  match x with
  | S754_zero false => true
  | S754_finite false m e =>
      (e <=? 0) && (e <=? top) && (Z.pos m <=? c * 2 ^ (- e))
  | _ => false
  end.

(* ================================================================== *)
(** ** Further vocabulary: what happens to a mounted player *)
(* ================================================================== *)

(** Things that happen to a mounted player: the user acts, or the
    audio element fires an event. *)
Inductive playerEvent :=
| Act (a : action)
| Fire (ev : string).

Definition handle (e : playerEvent) : Component -> M unit :=
  match e with
  | Act a => handler a
  | Fire ev => dispatchEvent ev
  end.

Definition runEvents (es : list playerEvent) (o : outcome) : outcome :=
  fold_left (fun o e => after o (handle e)) es o.

(** The listeners the mount effect registers, in order. *)
Definition mountedListeners : list (string * listener) :=
  [("timeupdate"%string, OnTimeupdate); ("ended"%string, OnEnded)].

Definition listener_eqb (a b : listener) : bool :=
  match a, b with
  | OnTimeupdate, OnTimeupdate | OnEnded, OnEnded => true
  | _, _ => false
  end.

(** Some callback [l] is registered for the event [ev]. *)
Definition hears (ev : string) (l : listener) (ls : list (string * listener)) : bool :=
  existsb (fun r => String.eqb ev (fst r) && listener_eqb l (snd r)) ls.

(** The time the seek handler computes from the slider value and
    passes to [currentTime], its [newTime]. *)
Definition seekTarget (value : number) (a : AudioElement) : number :=
  fmul (fdiv value (ofZ 100)) (duration a).

(** The exact product [(p / 100) * D] for a percent [p] and a finite
    duration [D], as a rational. *)
Definition exactSeek (p : Z) (D : number) : option Q :=
  match toQ D with
  | Some d => Some ((p # 100) * d)%Q
  | None => None
  end.

(** The progress the [timeupdate] callback computes. *)
Definition progressOf (a : AudioElement) : number :=
  fmul (fdiv (currentTime a) (duration a)) (ofZ 100).

(** The tap and the state cells agree: no tap in the cells and nothing
    built, or a tap in the cells and exactly one context, analyser and
    source, with at most one render loop. *)
Definition tapInvariant (c : Component) (w : World) : Prop :=
  wfDocument (document w) /\
  match audioCtx c with
  | None =>
      contextsCreated (graph w) = 0%nat /\ analysers (graph w) = [] /\
      mediaSources (graph w) = [] /\ renderers w = []
  | Some _ =>
      contextsCreated (graph w) = 1%nat /\
      length (analysers (graph w)) = 1%nat /\
      length (mediaSources (graph w)) = 1%nat /\
      (length (renderers w) <= 1)%nat
  end.

(** Exceptions that come from a value the caller passed or from a
    missing platform feature, as opposed to a broken audio graph or
    document. *)
Definition benign (o : outcome) : bool :=
  match o with
  | Threw InvalidStateError _ _ | Threw NotFoundError _ _ => false
  | _ => true
  end.

(* ================================================================== *)
(** ** Further vocabulary: the renderer *)
(* ================================================================== *)

(** Two doubles are the same double (unlike [===], which tells the
    zeros apart from nothing and NaN from itself). *)
Definition sameNumber (x y : number) : bool :=
  match x, y with
  | S754_zero a, S754_zero b => Bool.eqb a b
  | S754_infinity a, S754_infinity b => Bool.eqb a b
  | S754_nan, S754_nan => true
  | S754_finite a m e, S754_finite b n f =>
      Bool.eqb a b && Pos.eqb m n && Z.eqb e f
  | _, _ => false
  end.

(** What [visualize] establishes and every later frame keeps: the
    canvas is 300 high and as wide as the viewport allowed at the
    start, the buffer holds bytes, one per bin. *)
Definition rendererReady (iw : Z) (st : Canvas * Renderer) : Prop :=
  height (fst st) = 300 /\
  width (fst st)
    = reflectUnsignedLong 300 (toUnsignedLong (fmul (ofZ iw) (ofDecimal 9 1))) /\
  Forall (fun m => 0 <= m <= 255) (dataArray (snd st)) /\
  length (dataArray (snd st)) = Z.to_nat (bufferLength (snd st)).


(* ================================================================== *)
(** ** The page that generates a track and shows the player *)
(* ================================================================== *)

(** The [useState] cells of [GeneratePage]. *)
Record Page := {
  selectedOption : string;
  isShow : bool;
  isLoading : bool;
  error : string
}.

Definition moods : list string := ["Cheerful"; "Sorrow"; "Up Lifting"; "Dark"]%string.
Definition userId : string := "1235".

Definition setSelectedOption (v : string) (p : Page) : Page :=
  {| selectedOption := v; isShow := isShow p; isLoading := isLoading p;
     error := error p |}.

Definition setIsShow (v : bool) (p : Page) : Page :=
  {| selectedOption := selectedOption p; isShow := v; isLoading := isLoading p;
     error := error p |}.

Definition setIsLoading (v : bool) (p : Page) : Page :=
  {| selectedOption := selectedOption p; isShow := isShow p; isLoading := v;
     error := error p |}.

Definition setError (v : string) (p : Page) : Page :=
  {| selectedOption := selectedOption p; isShow := isShow p;
     isLoading := isLoading p; error := v |}.

(** A call of [api.post]: the path and the two fields of the body. *)
Record request := {
  path : string;
  mood : string;
  song_number : Z
}.

(** What the page touches outside its cells. [store] is the
    [localStorage] of the origin, the one the player reads. *)
Record Site := {
  store : gmap string string;
  alerts : list string;
  requests : list request;
  errorsLogged : nat               (* calls of [console.error] *)
}.

Definition alert (msg : string) (s : Site) : Site :=
  {| store := store s; alerts := alerts s ++ [msg]; requests := requests s;
     errorsLogged := errorsLogged s |}.

Definition removeItem (key : string) (s : Site) : Site :=
  {| store := delete key (store s); alerts := alerts s; requests := requests s;
     errorsLogged := errorsLogged s |}.

Definition setItem (key value : string) (s : Site) : Site :=
  {| store := <[key := value]> (store s); alerts := alerts s;
     requests := requests s; errorsLogged := errorsLogged s |}.

Definition post (r : request) (s : Site) : Site :=
  {| store := store s; alerts := alerts s; requests := requests s ++ [r];
     errorsLogged := errorsLogged s |}.

Definition consoleError (s : Site) : Site :=
  {| store := store s; alerts := alerts s; requests := requests s;
     errorsLogged := S (errorsLogged s) |}.

(** How the awaited request ends: the promise is rejected, or it is
    resolved with a blob, here the identifier the browser gives it. *)
Inductive reply :=
| Rejected
| Resolved (blob : string).

(** [URL.createObjectURL]: a URL of the [blob:] scheme. *)
Definition createObjectURL (blob : string) : string := "blob:" ++ blob.

Definition selectMoodFirst : string := "Please select a mood first".
Definition generationFailed : string :=
  "An error occurred while generating the song.".

(** The cells on the first render. *)
Definition initialPage (st : gmap string string) : Page :=
  {| selectedOption := EmptyString; isShow := truthy (st !! audioSrcKey);
     isLoading := false; error := EmptyString |}.

(** [handleGenerate] up to its [await]; the flag tells whether a
    request was sent and the handler now waits for the reply. *)
Definition handleGenerate_request (p : Page) (s : Site) : Page * Site * bool :=
  if negb (truthy (Some (selectedOption p))) then
    (p, alert selectMoodFirst s, false)
  else
    let p1 := setIsLoading true p in
    let p2 := setError EmptyString p1 in
    let s1 := removeItem audioSrcKey s in
    let s2 := post {| path := "/" ++ userId ++ "/generate-song";
                      mood := selectedOption p; song_number := 5 |} s1 in
    (p2, s2, true).

(** [handleGenerate] from the reply on: the rest of the [try] block,
    or the [catch] block. *)
Definition handleGenerate_resume (r : reply) (p : Page) (s : Site) : Page * Site :=
  match r with
  | Resolved data =>
      let p1 := setIsLoading false p in
      let audioUrl := createObjectURL data in
      let s1 := setItem audioSrcKey audioUrl s in
      (setIsShow true p1, s1)
  | Rejected =>
      let p1 := setIsLoading false p in
      let s1 := consoleError s in
      let p2 := setError generationFailed p1 in
      (p2, alert generationFailed s1)
  end.

Definition with_localStorage (st : gmap string string) (w : World) : World :=
  {| localStorage := st; audio := audio w; canvas := canvas w;
     innerWidth := innerWidth w; graph := graph w; renderers := renderers w;
     console := console w; document := document w |}.

(** The page on screen: its cells, what it has done to the site, the
    requests still waiting for their reply, and the player if one is
    mounted. *)
Record App := {
  page : Page;
  site : Site;
  awaiting : nat;
  player : option (Component * World)
}.

Definition with_player (pl : option (Component * World)) (a : App) : App :=
  {| page := page a; site := site a; awaiting := awaiting a; player := pl |}.

(** A player mounted now: a fresh element and canvas, then the mount
    effect, which reads the store as it is at this moment. *)
Definition mountPlayer (viewport : Z) (audioApi : bool) (s : Site)
    : Component * World :=
  let o := run mountEffect initialComponent
             (freshWorld (store s) viewport audioApi) in
  (stateOf o, worldOf o).

(** [{isShow && <MusicPlayer />}]: a player already on screen stays
    the same component, one that appears is mounted. *)
Definition render (viewport : Z) (audioApi : bool) (a : App) : App :=
  if isShow (page a) then
    match player a with
    | Some _ => a
    | None => with_player (Some (mountPlayer viewport audioApi (site a))) a
    end
  else with_player None a.

Inductive appEvent :=
| SelectMood (m : string)
| ClickGenerate
| Reply (r : reply)
| Player (e : playerEvent).

(** One event and the render that follows. The button is
    [disabled={isLoading}]; a reply arrives only for a request that
    waits; the player's handlers see the store as it is now. *)
Definition appStep (viewport : Z) (audioApi : bool) (a : App) (e : appEvent)
    : App :=
  render viewport audioApi
    match e with
    | SelectMood m =>
        {| page := setSelectedOption m (page a); site := site a;
           awaiting := awaiting a; player := player a |}
    | ClickGenerate =>
        if isLoading (page a) then a
        else
          let '(p, s, waits) := handleGenerate_request (page a) (site a) in
          {| page := p; site := s;
             awaiting := if waits then S (awaiting a) else awaiting a;
             player := player a |}
    | Reply r =>
        match awaiting a with
        | O => a
        | S n =>
            let '(p, s) := handleGenerate_resume r (page a) (site a) in
            {| page := p; site := s; awaiting := n; player := player a |}
        end
    | Player e =>
        match player a with
        | None => a
        | Some (c, w) =>
            let o := run (handle e) c (with_localStorage (store (site a)) w) in
            with_player (Some (stateOf o, worldOf o)) a
        end
    end.

Definition appRun (viewport : Z) (audioApi : bool) (es : list appEvent)
    (a : App) : App :=
  fold_left (appStep viewport audioApi) es a.

(** The page right after it is opened. *)
Definition openPage (viewport : Z) (audioApi : bool) (st : gmap string string)
    : App :=
  render viewport audioApi
    {| page := initialPage st;
       site := {| store := st; alerts := []; requests := []; errorsLogged := 0 |};
       awaiting := 0; player := None |}.

(** The cells, the waiting requests and the screen agree: a request
    waits exactly while the page is loading, the player is mounted
    exactly while [isShow] holds, a stored track is always shown, and
    a mounted player has a track loaded and has logged nothing. *)
Definition appInvariant (a : App) : Prop :=
  awaiting a = (if isLoading (page a) then 1 else 0)%nat /\
  isShow (page a) = negb (isNull (player a)) /\
  (isShow (page a) = false -> truthy (store (site a) !! audioSrcKey) = false) /\
  match player a with
  | Some (c, w) =>
      console w = [] /\ src (audio w) <> EmptyString /\
      wfDocument (document w)
  | None => True
  end.

(* ================================================================== *)
(** ** The composer: which instruments play in a section *)
(* ================================================================== *)

Module Composer.

Inductive pyval :=
| PyBool (b : bool)
| PyInt (z : Z)
| PyStr (s : string).

Inductive pyexn := KeyError (key : string).

(** [active_instruments] maps a name to a dict object; the objects
    live in the heap, so two names may hold the same one. [coin] gives
    the results of the successive [random.choice([True, False])]. *)
Record Py := {
  active_instruments : gmap string nat;
  heap : gmap nat (gmap string pyval);
  coin : nat -> bool;
  tossed : nat
}.

Definition P (A : Type) : Type := Py -> (pyexn + A) * Py.

Definition pure {A} (a : A) : P A := fun s => (inr a, s).

Definition andThen {A B} (m : P A) (k : A -> P B) : P B :=
  fun s =>
    match m s with
    | (inl e, s') => (inl e, s')
    | (inr a, s') => k a s'
    end.

Notation "'py!' x ':=' m 'in' k" := (andThen m (fun x => k))
  (at level 10, x name, m at level 100, k at level 200).
Notation "m ';;;' k" := (andThen m (fun _ => k))
  (at level 100, k at level 200, right associativity).

(** The state after one more toss of the coin. *)
Definition toss (s : Py) : Py :=
  {| active_instruments := active_instruments s; heap := heap s;
     coin := coin s; tossed := S (tossed s) |}.

Definition random_choice : P bool :=
  fun s => (inr (coin s (tossed s)), toss s).

(** The dict object [o] with its ['pattern'] entry set to [v]. *)
Definition assign (o : nat) (v : bool) (s : Py) : Py :=
  {| active_instruments := active_instruments s;
     heap := <[o := <["pattern"%string := PyBool v]> (default ∅ (heap s !! o))]>
               (heap s);
     coin := coin s; tossed := tossed s |}.

(** [active_instruments[name]['pattern'] = v] with [v] evaluated
    already. *)
Definition set_pattern (name : string) (v : bool) : P unit :=
  fun s =>
    match active_instruments s !! name with
    | None => (inl (KeyError name), s)
    | Some o => (inr tt, assign o v s)
    end.

Definition activate (section_name : string) : P unit :=
  if String.eqb section_name "intro" then
    py! choice := random_choice in
    set_pattern "chords" true ;;;
    set_pattern "secondary_melody" choice ;;;
    set_pattern "bass" (negb choice) ;;;
    set_pattern "funky_bass" false ;;;
    (py! drums := random_choice in set_pattern "simple_drums" drums) ;;;
    set_pattern "complex_drums" false ;;;
    set_pattern "melody" false ;;;
    set_pattern "catchy_melody" false ;;;
    set_pattern "bg_melody" (negb choice) ;;;
    set_pattern "bg_melody_low" choice
  else if String.eqb section_name "breakdown" then
    set_pattern "chords" true ;;;
    set_pattern "secondary_melody" true ;;;
    set_pattern "bass" true ;;;
    set_pattern "funky_bass" false ;;;
    set_pattern "simple_drums" false ;;;
    set_pattern "complex_drums" false ;;;
    set_pattern "melody" false ;;;
    set_pattern "catchy_melody" false ;;;
    set_pattern "bg_melody" false ;;;
    set_pattern "bg_melody_low" true
  else if String.eqb section_name "build_up" then
    set_pattern "chords" true ;;;
    set_pattern "secondary_melody" false ;;;
    set_pattern "bass" true ;;;
    set_pattern "funky_bass" false ;;;
    set_pattern "simple_drums" true ;;;
    set_pattern "complex_drums" false ;;;
    set_pattern "melody" true ;;;
    set_pattern "catchy_melody" false ;;;
    set_pattern "bg_melody" false ;;;
    set_pattern "bg_melody_low" true
  else if String.eqb section_name "drop" then
    set_pattern "chords" true ;;;
    set_pattern "secondary_melody" false ;;;
    set_pattern "bass" true ;;;
    set_pattern "funky_bass" false ;;;
    set_pattern "simple_drums" false ;;;
    set_pattern "complex_drums" true ;;;
    set_pattern "melody" true ;;;
    set_pattern "catchy_melody" false ;;;
    set_pattern "bg_melody" true ;;;
    set_pattern "bg_melody_low" false
  else pure tt.

(** *** Vocabulary *)

Definition sections : list string :=
  ["intro"; "breakdown"; "build_up"; "drop"]%string.

Definition instruments : list string :=
  ["chords"; "secondary_melody"; "bass"; "funky_bass"; "simple_drums";
   "complex_drums"; "melody"; "catchy_melody"; "bg_melody";
   "bg_melody_low"]%string.

(** The value under [key] of the dict that [name] holds. *)
Definition field (s : Py) (name key : string) : option pyval :=
  match active_instruments s !! name with
  | Some o => default ∅ (heap s !! o) !! key
  | None => None
  end.

Definition plays (s : Py) (name : string) : bool :=
  match field s name "pattern" with
  | Some (PyBool true) => true
  | _ => false
  end.

(** The objects held under the given names, in order. *)
Definition objectsOf (s : Py) (names : list string) : list nat :=
  omap (fun n => active_instruments s !! n) names.

(** Every instrument of the fragment is there and no two of them hold
    the same dict object. *)
Definition ready (s : Py) : Prop :=
  length (objectsOf s instruments) = 10%nat /\ NoDup (objectsOf s instruments).

(** A list of assignments, carried out in order. *)
Fixpoint setAll (l : list (string * bool)) : P unit :=
  match l with
  | [] => pure tt
  | (n, v) :: l => set_pattern n v ;;; setAll l
  end.

(** The last value a list of assignments gives to [name]. *)
Fixpoint lastAssigned (l : list (string * bool)) (name : string) : option bool :=
  match l with
  | [] => None
  | (n, v) :: l =>
      match lastAssigned l name with
      | Some b => Some b
      | None => if String.eqb n name then Some v else None
      end
  end.

(** The flags a section gives, in the order of its assignments;
    [choice] and [drums] are the two tosses of the intro. *)
Definition lineUp (section_name : string) (choice drums : bool)
    : list (string * bool) :=
  zip instruments
    (if String.eqb section_name "intro" then
       [true; choice; negb choice; false; drums; false; false; false;
        negb choice; choice]
     else if String.eqb section_name "breakdown" then
       [true; true; true; false; false; false; false; false; false; true]
     else if String.eqb section_name "build_up" then
       [true; false; true; false; true; false; true; false; false; true]
     else if String.eqb section_name "drop" then
       [true; false; true; false; false; true; true; false; true; false]
     else []).

(** How often a section tosses the coin. *)
Definition tosses (section_name : string) : nat :=
  if String.eqb section_name "intro" then 2 else 0.

(** From [s] to [s'] only flags were written and the coin tossed: the
    names hold the same objects, every entry other than ['pattern']
    is as before, and an object that no name holds is as before. *)
Definition onlyFlags (s s' : Py) : Prop :=
  active_instruments s' = active_instruments s /\
  coin s' = coin s /\
  (tossed s <= tossed s')%nat /\
  (forall o key, key <> "pattern"%string ->
     default ∅ (heap s' !! o) !! key = default ∅ (heap s !! o) !! key) /\
  (forall o, (forall n, active_instruments s !! n <> Some o) ->
     heap s' !! o = heap s !! o).

(** A rehearsal room: the ten instruments with a dict each, and a
    coin that alternates. *)
Definition rehearsal : Py :=
  {| active_instruments :=
       list_to_map (zip instruments (seq 0 10));
     heap := list_to_map (map (fun o => (o, {["volume"%string := PyInt 80]}))
                              (seq 0 10));
     coin := Nat.even;
     tossed := 0 |}.

End Composer.

(* ================================================================== *)
(** ** The earlier player, which plays a file chosen by the user *)
(* ================================================================== *)

Module FilePlayer.

(** The [useState] cells; the graph objects are held by identity. *)
Record Cells := {
  audioCtx : option nat;
  analyser : option nat;
  source : option nat
}.

Definition initialCells : Cells :=
  {| audioCtx := None; analyser := None; source := None |}.

(** The browser as this component sees it. Every [new Audio()] is kept
    in [audios] and is known by its position there. *)
Record Browser := {
  audios : list AudioElement;
  audioRef : option nat;          (* audioRef.current *)
  body : list nat;                (* audio elements appended to document.body *)
  canvas : option Canvas;         (* canvasRef.current *)
  innerWidth : Z;
  graph : AudioGraph;
  tapped : list nat;              (* elements that feed a source node *)
  renderers : list Renderer
}.

Inductive outcome :=
| Done (c : Cells) (b : Browser)
| Threw (e : exn) (c : Cells) (b : Browser).

Definition cellsOf (o : outcome) : Cells :=
  match o with Done c _ | Threw _ c _ => c end.

Definition browserOf (o : outcome) : Browser :=
  match o with Done _ b | Threw _ _ b => b end.

Definition with_graph (g : AudioGraph) (tp : list nat) (b : Browser) : Browser :=
  {| audios := audios b; audioRef := audioRef b; body := body b;
     canvas := canvas b; innerWidth := innerWidth b; graph := g; tapped := tp;
     renderers := renderers b |}.

(** [handleFileChange]; [file] is [event.target.files[0]], a file known
    by the identifier the browser gives its blob, or [undefined]. *)
Definition handleFileChange (file : option string) (c : Cells) (b : Browser)
    : outcome :=
  match file with
  | None => Done c b
  | Some f =>
      let audio := withControls true (loadSrc (createObjectURL f) newAudio) in
      let el := length (audios b) in
      let b := {| audios := audios b ++ [audio]; audioRef := Some el;
                  body := body b ++ [el]; canvas := canvas b;
                  innerWidth := innerWidth b; graph := graph b;
                  tapped := tapped b; renderers := renderers b |} in
      let g := graph b in
      if negb (hasAudioContext g) then Threw TypeError c b
      else
        let context := contextsCreated g in
        let analyserNode := length (analysers g) in
        let ans := analysers g ++ [silentAnalyser 2048] in
        if negb (validFftSize 256) then
          Threw IndexSizeError c
            (with_graph {| hasAudioContext := true;
                           contextsCreated := S context; analysers := ans;
                           mediaSources := mediaSources g;
                           connections := connections g |} (tapped b) b)
        else
          let ans := <[analyserNode := silentAnalyser 256]> ans in
          if existsb (Nat.eqb el) (tapped b) then
            Threw InvalidStateError c
              (with_graph {| hasAudioContext := true;
                             contextsCreated := S context; analysers := ans;
                             mediaSources := mediaSources g;
                             connections := connections g |} (tapped b) b)
          else
            let sourceNode := length (mediaSources g) in
            Done {| audioCtx := Some context; analyser := Some analyserNode;
                    source := Some sourceNode |}
              (with_graph
                 {| hasAudioContext := true;
                    contextsCreated := S context; analysers := ans;
                    mediaSources := mediaSources g ++ [context];
                    connections :=
                      connections g
                      ++ [(NSource sourceNode, NAnalyser analyserNode);
                          (NAnalyser analyserNode, NDestination context)] |}
                 (tapped b ++ [el]) b)
  end.

(** [visualize()]: the analyser comes from the cells; there is no
    check for a missing canvas. *)
Definition visualize (c : Cells) (b : Browser) : outcome :=
  match canvas b with
  | None => Threw TypeError c b
  | Some cv =>
      match analyser c with
      | None => Threw TypeError c b
      | Some aid =>
          match analysers (graph b) !! aid with
          | None => Threw TypeError c b
          | Some a =>
              match visualize (innerWidth b) (Some cv) aid a with
              | Some (cv', r) =>
                  Done c {| audios := audios b; audioRef := audioRef b;
                            body := body b; canvas := Some cv';
                            innerWidth := innerWidth b; graph := graph b;
                            tapped := tapped b;
                            renderers := renderers b ++ [r] |}
              | None => Done c b
              end
          end
      end
  end.

(** The effect with the dependencies [[audioCtx, analyser, source]],
    after a render in which the cells went from [before] to [c]. *)
Definition cells_eqb (x y : Cells) : bool :=
  bool_decide (audioCtx x = audioCtx y) && bool_decide (analyser x = analyser y)
  && bool_decide (source x = source y).

Definition effect (before c : Cells) (b : Browser) : outcome :=
  if cells_eqb before c then Done c b
  else if negb (isNull (audioCtx c)) && negb (isNull (analyser c))
          && negb (isNull (source c))
       then visualize c b
       else Done c b.

(** The user picks a file (or cancels the dialog): the handler, then
    the render and its effect. *)
Definition chooseFile (o : outcome) (file : option string) : outcome :=
  match handleFileChange file (cellsOf o) (browserOf o) with
  | Done c b => effect (cellsOf o) c b
  | Threw e c b => Threw e c b
  end.

Definition firstRender (viewport : Z) (audioApi : bool) : outcome :=
  Done initialCells
    {| audios := []; audioRef := None; body := [];
       canvas := Some {| width := 300; height := 150; ctx2d := defaultContext |};
       innerWidth := viewport;
       graph := {| hasAudioContext := audioApi; contextsCreated := 0;
                   analysers := []; mediaSources := []; connections := [] |};
       tapped := []; renderers := [] |}.

(** How many files a list of choices holds; a cancelled dialog gives
    none. *)
Definition chosen (files : list (option string)) : nat :=
  length (omap (fun f => f) files).

(** [n] pipelines have been built and none taken down: [n] audio
    elements, all in the page, [n] contexts with an analyser and a
    source each, and [n] render loops on the one canvas; the cells
    and [audioRef] point at the last of them. *)
Definition pipelines (n : nat) (o : outcome) : Prop :=
  (exists c b, o = Done c b) /\
  hasAudioContext (graph (browserOf o)) = true /\
  canvas (browserOf o) <> None /\
  length (audios (browserOf o)) = n /\
  body (browserOf o) = seq 0 n /\
  tapped (browserOf o) = seq 0 n /\
  contextsCreated (graph (browserOf o)) = n /\
  length (analysers (graph (browserOf o))) = n /\
  mediaSources (graph (browserOf o)) = seq 0 n /\
  length (connections (graph (browserOf o))) = (2 * n)%nat /\
  length (renderers (browserOf o)) = n /\
  match n with
  | O => cellsOf o = initialCells /\ audioRef (browserOf o) = None
  | S k =>
      cellsOf o = {| audioCtx := Some k; analyser := Some k; source := Some k |} /\
      audioRef (browserOf o) = Some k
  end.

End FilePlayer.

(* ================================================================== *)
(** ** The page that lists the user's tracks *)
(* ================================================================== *)

Module MyMusic.

(** The values this page can meet. An array is an object: it is known
    by its reference, and two arrays are the same only if they are
    the same object; its items, track objects, are known by their
    references too. *)
Inductive value :=
| Undefined
| Null
| Str (s : string)
| Num (n : Z)
| Arr (ref : nat) (items : list nat).

Definition truthyV (v : value) : bool :=
  match v with
  | Undefined | Null => false
  | Str s => negb (String.eqb s EmptyString)
  | Num n => negb (n =? 0)
  | Arr _ _ => true
  end.

(** [v.key] for a key that is not the name of a method: reading a
    member of [null] or [undefined] throws; a string and an array
    have their length, and no other data member of their own. *)
Definition getProperty (v : value) (key : string) : exn + value :=
  match v with
  | Undefined | Null => inl TypeError
  | Str s =>
      inr (if String.eqb key "length" then Num (Z.of_nat (String.length s))
           else Undefined)
  | Num _ => inr Undefined
  | Arr _ items =>
      inr (if String.eqb key "length" then Num (Z.of_nat (length items))
           else Undefined)
  end.

(** [v == []], the array literal being the new object [fresh]: an
    object equals only itself; a primitive is compared with the empty
    string the empty array converts to. *)
Definition equalsNewArray (v : value) (fresh : nat) : bool :=
  match v with
  | Undefined | Null => false
  | Str s => String.eqb s EmptyString
  | Num n => n =? 0
  | Arr r _ => Nat.eqb r fresh
  end.

(** [v.map(row)] with one row per item; only an array has [map]. *)
Definition mapRows (v : value) : exn + list nat :=
  match v with
  | Arr _ items => inr items
  | _ => inl TypeError
  end.

Record View := {
  caption : string;
  rows : list nat
}.

(** The component function; [next] is the reference the next new
    object gets. *)
Definition MyMusicPage (st : gmap string string) (next : nat) : exn + View :=
  let user := match st !! "user"%string with
              | Some s => Str s
              | None => Null
              end in
  match getProperty user "song_list" with
  | inl e => inl e
  | inr song_list =>
      let '(tracks, next) :=
        if truthyV song_list then (song_list, next)
        else (Arr next [], S next) in
      let caption :=
        if equalsNewArray tracks next then "Here are your saved tracks:"%string
        else "No Songs"%string in
      match mapRows tracks with
      | inl e => inl e
      | inr rows => inr {| caption := caption; rows := rows |}
      end
  end.

End MyMusic.

(* ================================================================== *)
(** ** The earlier page, which keeps the track in a cell *)
(* ================================================================== *)

Module EarlierPage.

(** The [useState] cells; [audioSrc] is a URL or [null]. *)
Record Page := {
  selectedOption : string;
  audioSrc : option string;
  isLoading : bool;
  error : string
}.

Definition setSelectedOption (v : string) (p : Page) : Page :=
  {| selectedOption := v; audioSrc := audioSrc p; isLoading := isLoading p;
     error := error p |}.

Definition setAudioSrc (v : option string) (p : Page) : Page :=
  {| selectedOption := selectedOption p; audioSrc := v; isLoading := isLoading p;
     error := error p |}.

Definition setIsLoading (v : bool) (p : Page) : Page :=
  {| selectedOption := selectedOption p; audioSrc := audioSrc p; isLoading := v;
     error := error p |}.

Definition setError (v : string) (p : Page) : Page :=
  {| selectedOption := selectedOption p; audioSrc := audioSrc p;
     isLoading := isLoading p; error := v |}.

(** [localStorage.getItem('audioSrc') || null] *)
Definition initialPage (st : gmap string string) : Page :=
  {| selectedOption := EmptyString;
     audioSrc := if truthy (st !! audioSrcKey) then st !! audioSrcKey else None;
     isLoading := false; error := EmptyString |}.

(** [handleGenerate] up to its [await]; the flag tells whether a
    request was sent. *)
Definition handleGenerate_request (p : Page) (s : Site) : Page * Site * bool :=
  if String.eqb (selectedOption p) EmptyString then
    (p, alert selectMoodFirst s, false)
  else
    let p1 := setIsLoading true p in
    let p2 := setError EmptyString p1 in
    let p3 := setAudioSrc None p2 in
    let s1 := post {| path := "/" ++ userId ++ "/generate-song";
                      mood := selectedOption p; song_number := 5 |} s in
    (p3, s1, true).

(** [handleGenerate] from the reply on. *)
Definition handleGenerate_resume (r : reply) (p : Page) (s : Site) : Page * Site :=
  match r with
  | Resolved data =>
      let p1 := setIsLoading false p in
      let audioUrl := createObjectURL data in
      let s1 := setItem audioSrcKey audioUrl s in
      (setAudioSrc (Some audioUrl) p1, s1)
  | Rejected =>
      let p1 := setIsLoading false p in
      let s1 := consoleError s in
      let p2 := setError generationFailed p1 in
      (p2, alert generationFailed s1)
  end.

(** The page on screen. The player is rendered without a condition,
    so it is mounted from the first render on. *)
Record App := {
  page : Page;
  site : Site;
  awaiting : nat;
  player : Component * World
}.

(** The source of the [<audio controls>] element, which is rendered
    only while the cell holds a URL. *)
Definition nativeAudio (a : App) : option string :=
  if truthy (audioSrc (page a)) then audioSrc (page a) else None.

Definition appStep (a : App) (e : appEvent) : App :=
  match e with
  | SelectMood m =>
      {| page := setSelectedOption m (page a); site := site a;
         awaiting := awaiting a; player := player a |}
  | ClickGenerate =>
      if isLoading (page a) then a
      else
        let '(p, s, waits) := handleGenerate_request (page a) (site a) in
        {| page := p; site := s;
           awaiting := if waits then S (awaiting a) else awaiting a;
           player := player a |}
  | Reply r =>
      match awaiting a with
      | O => a
      | S n =>
          let '(p, s) := handleGenerate_resume r (page a) (site a) in
          {| page := p; site := s; awaiting := n; player := player a |}
      end
  | Player e =>
      let '(c, w) := player a in
      let o := run (handle e) c (with_localStorage (store (site a)) w) in
      {| page := page a; site := site a; awaiting := awaiting a;
         player := (stateOf o, worldOf o) |}
  end.

Definition appRun (es : list appEvent) (a : App) : App :=
  fold_left appStep es a.

Definition openPage (viewport : Z) (audioApi : bool) (st : gmap string string)
    : App :=
  let s := {| store := st; alerts := []; requests := []; errorsLogged := 0 |} in
  {| page := initialPage st; site := s; awaiting := 0;
     player := mountPlayer viewport audioApi s |}.

End EarlierPage.

(* ================================================================== *)
(** * Theorems *)
(* ================================================================== *)

(* ------------------------------------------------------------------ *)
(** ** Rounding facts about binary64 *)
(* ------------------------------------------------------------------ *)

Lemma iter_pos_nat {A} (f : A -> A) (n : positive) (x : A) :
  SpecFloat.iter_pos f n x = Nat.iter (Pos.to_nat n) f x.
Proof.
  revert x. induction n as [n IH|n IH|]; intros x; cbn [SpecFloat.iter_pos].
  - rewrite !IH, Pos2Nat.inj_xI.
    replace (S (2 * Pos.to_nat n))%nat with (Pos.to_nat n + (Pos.to_nat n + 1))%nat by lia.
    rewrite !Nat.iter_add. reflexivity.
  - rewrite !IH, Pos2Nat.inj_xO.
    replace (2 * Pos.to_nat n)%nat with (Pos.to_nat n + Pos.to_nat n)%nat by lia.
    rewrite Nat.iter_add. reflexivity.
  - reflexivity.
Qed.

Lemma shr_1_m (r : shr_record) :
  0 <= shr_m r -> shr_m (shr_1 r) = shr_m r / 2.
Proof.
  destruct r as [m r s]; cbn [shr_m]. intros Hm.
  destruct m as [|p|p]; [reflexivity| |lia].
  destruct p as [p|p|]; cbn [shr_1 shr_m].
  - rewrite Pos2Z.inj_xI. apply Z.div_unique with (r := 1); lia.
  - rewrite Pos2Z.inj_xO. apply Z.div_unique with (r := 0); lia.
  - reflexivity.
Qed.

Lemma shr_iter_m (n : nat) (r : shr_record) :
  0 <= shr_m r -> shr_m (Nat.iter n shr_1 r) = shr_m r / 2 ^ Z.of_nat n.
Proof.
  intros Hm. induction n as [|n IH].
  - cbn. now rewrite Z.div_1_r.
  - rewrite Nat.iter_succ, shr_1_m.
    + rewrite IH, Nat2Z.inj_succ, Z.pow_succ_r by lia.
      rewrite Z.div_div by lia. f_equal. lia.
    + rewrite IH. apply Z.div_pos; lia.
Qed.

Lemma shr_1_exact (m : Z) :
  0 <= m ->
  shr_1 {| shr_m := 2 * m; shr_r := false; shr_s := false |}
  = {| shr_m := m; shr_r := false; shr_s := false |}.
Proof. intros Hm. destruct m as [|p|p]; [reflexivity|reflexivity|lia]. Qed.

Lemma shr_iter_exact (n : nat) (m : Z) :
  0 <= m ->
  Nat.iter n shr_1 {| shr_m := 2 ^ Z.of_nat n * m; shr_r := false; shr_s := false |}
  = {| shr_m := m; shr_r := false; shr_s := false |}.
Proof.
  revert m. induction n as [|n IH]; intros m Hm.
  - cbn. f_equal. destruct m; reflexivity.
  - rewrite Nat.iter_succ_r.
    rewrite Nat2Z.inj_succ, Z.pow_succ_r by lia.
    replace (2 * 2 ^ Z.of_nat n * m) with (2 * (2 ^ Z.of_nat n * m)) by lia.
    rewrite shr_1_exact by (apply Z.mul_nonneg_nonneg; lia).
    now apply IH.
Qed.

Lemma digits2_log2 (p : positive) : Z.pos (digits2_pos p) = Z.log2 (Z.pos p) + 1.
Proof.
  induction p as [p IH|p IH|]; cbn [digits2_pos]; try reflexivity.
  - rewrite Pos2Z.inj_succ, IH. 
    change (Z.pos p~1) with (2 * Z.pos p + 1). rewrite Z.log2_succ_double by lia. lia.
  - rewrite Pos2Z.inj_succ, IH.
    change (Z.pos p~0) with (2 * Z.pos p). rewrite Z.log2_double by lia. lia.
Qed.

Lemma digits2_mul_pow2 (p : positive) (k : Z) :
  0 <= k -> Zdigits2 (2 ^ k * Z.pos p) = k + Z.pos (digits2_pos p).
Proof.
  intros Hk. assert (0 < 2 ^ k * Z.pos p) by (apply Z.mul_pos_pos; lia).
  destruct (2 ^ k * Z.pos p) as [|q|q] eqn:E; try lia.
  cbn [Zdigits2]. rewrite !digits2_log2, <- E.
  rewrite Z.mul_comm, Z.log2_mul_pow2 by lia. lia.
Qed.

Lemma shr_record_of_loc_m (m : Z) (l : location) : shr_m (shr_record_of_loc m l) = m.
Proof. destruct l as [|[]]; reflexivity. Qed.

Lemma shr_fexp_spec (m e : Z) (l : location) :
  0 <= m ->
  snd (shr_fexp prec emax m e l) = Z.max e (fexp prec emax (Zdigits2 m + e)) /\
  shr_m (fst (shr_fexp prec emax m e l))
  = m / 2 ^ (Z.max e (fexp prec emax (Zdigits2 m + e)) - e).
Proof.
  intros Hm. unfold shr_fexp, shr.
  destruct (fexp prec emax (Zdigits2 m + e) - e) as [|p|p] eqn:E; cbn [fst snd].
  - rewrite shr_record_of_loc_m. replace (Z.max _ _ - e) with 0 by lia.
    rewrite Z.div_1_r. split; lia.
  - rewrite iter_pos_nat, shr_iter_m by (rewrite shr_record_of_loc_m; exact Hm).
    rewrite shr_record_of_loc_m, positive_nat_Z.
    replace (Z.max _ _ - e) with (Z.pos p) by lia. split; lia.
  - rewrite shr_record_of_loc_m. replace (Z.max _ _ - e) with 0 by lia.
    rewrite Z.div_1_r. split; lia.
Qed.

Lemma round_nearest_even_bounds (m : Z) (l : location) :
  m <= round_nearest_even m l <= m + 1.
Proof.
  destruct l as [|[]]; cbn [round_nearest_even]; try lia.
  destruct (Z.even m); lia.
Qed.


Lemma digits2_lt (p : positive) : Z.pos p < 2 ^ Z.pos (digits2_pos p).
Proof.
  rewrite digits2_log2. pose proof (Z.log2_spec (Z.pos p)) as H.
  replace (Z.log2 (Z.pos p) + 1) with (Z.succ (Z.log2 (Z.pos p))) by lia. lia.
Qed.

Lemma Zdigits2_le (z k : Z) : 0 <= z -> 0 <= k -> z < 2 ^ k -> Zdigits2 z <= k.
Proof.
  intros Hz Hk Hlt. destruct z as [|p|p]; [cbn; lia| |lia].
  cbn [Zdigits2]. rewrite digits2_log2.
  assert (Z.log2 (Z.pos p) < k) by (apply Z.log2_lt_pow2; lia). lia.
Qed.


(** Multiplying the mantissa by a power of two and lowering the
    exponent as much is undone by rounding. *)
Lemma round_scaled_exact (s : bool) (m : positive) (e k : Z) :
  0 <= k ->
  bounded prec emax m e = true ->
  binary_round_aux prec emax s (2 ^ k * Z.pos m) (e - k) loc_Exact
  = S754_finite s m e.
Proof.
  intros Hk Hb. pose proof Hb as Hb'. unfold bounded, canonical_mantissa in Hb.
  apply andb_true_iff in Hb as [Hc Hle].
  apply Z.eqb_eq in Hc. apply Z.leb_le in Hle.
  unfold binary_round_aux.
  assert (H1 : shr_fexp prec emax (2 ^ k * Z.pos m) (e - k) loc_Exact
               = ({| shr_m := Z.pos m; shr_r := false; shr_s := false |}, e)).
  { unfold shr_fexp. rewrite digits2_mul_pow2 by lia.
    replace (k + Z.pos (digits2_pos m) + (e - k)) with (Z.pos (digits2_pos m) + e) by lia.
    rewrite Hc. replace (e - (e - k)) with k by lia.
    destruct k as [|p|p]; [|  |lia].
    - cbn [shr shr_record_of_loc]. rewrite Z.pow_0_r, Z.mul_1_l, Z.sub_0_r.
      reflexivity.
    - cbn [shr shr_record_of_loc]. rewrite iter_pos_nat.
      rewrite <- (positive_nat_Z p) at 1.
      rewrite shr_iter_exact by lia. f_equal. lia. }
  rewrite H1. cbn [shr_m loc_of_shr_record round_nearest_even].
  assert (H2 : shr_fexp prec emax (Z.pos m) e loc_Exact
               = ({| shr_m := Z.pos m; shr_r := false; shr_s := false |}, e)).
  { unfold shr_fexp. cbn [Zdigits2]. rewrite Hc, Z.sub_diag. reflexivity. }
  rewrite H2. cbn [shr_m].
  replace (e <=? emax - prec) with true by (symmetry; apply Z.leb_le; exact Hle).
  reflexivity.
Qed.

Lemma Zdigits2_log2 (z : Z) : 0 < z -> Zdigits2 z = Z.log2 z + 1.
Proof. destruct z as [|p|p]; try lia. intros _. apply digits2_log2. Qed.

Lemma Zdigits2_nonneg (z : Z) : 0 <= Zdigits2 z.
Proof. destruct z; cbn; lia. Qed.

Lemma Zdigits2_div_pow2 (z k : Z) :
  0 <= k -> 0 < z / 2 ^ k -> Zdigits2 (z / 2 ^ k) = Zdigits2 z - k.
Proof.
  intros Hk Hq.
  assert (Hz : 0 < z).
  { destruct (Z.lt_ge_cases 0 z) as [|Hle]; [assumption|].
    assert (z / 2 ^ k <= 0); [|lia].
    apply Z.div_le_upper_bound; [apply Z.pow_pos_nonneg; lia | lia]. }
  rewrite !Zdigits2_log2 by assumption.
  rewrite <- Z.shiftr_div_pow2 in * by lia.
  rewrite Z.log2_shiftr by assumption.
  assert (0 <= Z.log2 z - k); [|lia].
  destruct (Z.lt_ge_cases (Z.log2 z) k) as [Hlt|]; [|lia].
  exfalso. rewrite Z.shiftr_div_pow2 in Hq by lia.
  assert (z / 2 ^ k = 0); [|lia].
  apply Z.div_small. split; [lia|].
  apply Z.log2_lt_pow2; lia.
Qed.

Lemma Zdigits2_le_pow2 (z k : Z) : 0 <= z -> 0 <= k -> z <= 2 ^ k -> Zdigits2 z <= k + 1.
Proof.
  intros Hz Hk Hle. apply Zdigits2_le; [lia|lia|].
  rewrite Z.pow_add_r by lia. assert (0 < 2 ^ k) by (apply Z.pow_pos_nonneg; lia). lia.
Qed.

Lemma div_pow2_le (q a k : Z) :
  0 <= q -> 0 <= k -> k <= a -> q <= 2 ^ a -> q / 2 ^ k <= 2 ^ (a - k).
Proof.
  intros Hq Hk Hka Hle.
  assert (Hp : 0 < 2 ^ k) by (apply Z.pow_pos_nonneg; lia).
  apply Z.div_le_upper_bound; [exact Hp|].
  rewrite <- Z.pow_add_r by lia. now replace (k + (a - k)) with a by lia.
Qed.

Lemma shr_fexp_exact (m e : Z) :
  0 <= m ->
  (2 ^ (Z.max e (fexp prec emax (Zdigits2 m + e)) - e) | m) ->
  fst (shr_fexp prec emax m e loc_Exact)
  = {| shr_m := m / 2 ^ (Z.max e (fexp prec emax (Zdigits2 m + e)) - e);
       shr_r := false; shr_s := false |}.
Proof.
  intros Hm [m' Hdiv]. unfold shr_fexp, shr.
  destruct (fexp prec emax (Zdigits2 m + e) - e) as [|p|p] eqn:E;
    cbn [fst shr_record_of_loc].
  - replace (Z.max _ _ - e) with 0 by lia. now rewrite Z.div_1_r.
  - replace (Z.max e (fexp prec emax (Zdigits2 m + e)) - e) with (Z.pos p) in * by lia.
    assert (Hp : 0 < 2 ^ Z.pos p) by (apply Z.pow_pos_nonneg; lia).
    assert (Hm' : 0 <= m') by nia.
    rewrite iter_pos_nat, Hdiv, Z.div_mul by lia.
    rewrite (Z.mul_comm m'). rewrite <- (positive_nat_Z p).
    now apply shr_iter_exact.
  - replace (Z.max _ _ - e) with 0 by lia. now rewrite Z.div_1_r.
Qed.

Lemma fexp_small (z : Z) : z <= 1 -> fexp prec emax z <= 0.
Proof. unfold fexp, emin, emax, prec. lia. Qed.

Lemma fexp_lower (z : Z) : z - 53 <= fexp prec emax z.
Proof. unfold fexp, emin, emax, prec. lia. Qed.

(** Rounding a value that is at most one gives a double that is at
    most one. *)
Lemma round_at_most_one (q e : Z) (l : location) :
  0 <= q -> e <= 0 -> q <= 2 ^ (- e) ->
  (q = 2 ^ (- e) -> l = loc_Exact) ->
  atMostOne (binary_round_aux prec emax false q e l) = true.
Proof.
  intros Hq He Hle Hex. unfold binary_round_aux.
  destruct (shr_fexp_spec q e l Hq) as [He1 Hm1].
  pose proof (Zdigits2_le_pow2 q (- e) Hq ltac:(lia) Hle) as Hdq.
  pose proof (fexp_small (Zdigits2 q + e) ltac:(lia)) as Hfq.
  set (e1 := Z.max e (fexp prec emax (Zdigits2 q + e))) in *.
  assert (He1' : e1 <= 0) by lia.
  assert (Hm1le : q / 2 ^ (e1 - e) <= 2 ^ (- e1)).
  { replace (- e1) with (- e - (e1 - e)) by lia. apply div_pow2_le; lia. }
  assert (Hm1pos : 0 <= q / 2 ^ (e1 - e)).
  { apply Z.div_pos; [lia|]. apply Z.pow_pos_nonneg; lia. }
  assert (Hm2 : 0 <= round_nearest_even (shr_m (fst (shr_fexp prec emax q e l)))
                      (loc_of_shr_record (fst (shr_fexp prec emax q e l)))
                 <= 2 ^ (- e1)).
  { destruct (Z.eq_dec (q / 2 ^ (e1 - e)) (2 ^ (- e1))) as [Heq|Hne].
    - assert (Hqeq : q = 2 ^ (- e)).
      { assert (2 ^ (e1 - e) * (q / 2 ^ (e1 - e)) <= q).
        { apply Z.mul_div_le. apply Z.pow_pos_nonneg; lia. }
        rewrite Heq, <- Z.pow_add_r in H by lia.
        replace (e1 - e + - e1) with (- e) in H by lia. lia. }
      rewrite (Hex Hqeq), shr_fexp_exact; [| lia |].
      + cbn [shr_m loc_of_shr_record round_nearest_even]. fold e1. lia.
      + fold e1. exists (2 ^ (- e1)). rewrite Hqeq, <- Z.pow_add_r by lia.
        f_equal. lia.
    - pose proof (round_nearest_even_bounds
                    (shr_m (fst (shr_fexp prec emax q e l)))
                    (loc_of_shr_record (fst (shr_fexp prec emax q e l)))) as Hr.
      set (R := round_nearest_even _ _) in *. rewrite Hm1 in Hr. lia. }
  destruct (shr_fexp prec emax q e l) as [r1 e1'] eqn:E1.
  cbn [fst snd] in *. subst e1'.
  set (m2 := round_nearest_even (shr_m r1) (loc_of_shr_record r1)) in *.
  destruct Hm2 as [Hm2pos Hm2le].
  destruct (shr_fexp_spec m2 e1 loc_Exact Hm2pos) as [He2 Hm3].
  pose proof (Zdigits2_le_pow2 m2 (- e1) Hm2pos ltac:(lia) Hm2le) as Hd2.
  pose proof (fexp_small (Zdigits2 m2 + e1) ltac:(lia)) as Hf2.
  pose proof (fexp_lower (Zdigits2 m2 + e1)) as Hl2.
  set (e2 := Z.max e1 (fexp prec emax (Zdigits2 m2 + e1))) in *.
  assert (He2' : e2 <= 0) by lia.
  assert (Hm3le : m2 / 2 ^ (e2 - e1) <= 2 ^ (- e2)).
  { replace (- e2) with (- e1 - (e2 - e1)) by lia. apply div_pow2_le; lia. }
  assert (Hm3pos : 0 <= m2 / 2 ^ (e2 - e1)).
  { apply Z.div_pos; [lia|]. apply Z.pow_pos_nonneg; lia. }
  assert (Hd3 : 0 < m2 / 2 ^ (e2 - e1) -> Zdigits2 (m2 / 2 ^ (e2 - e1)) <= 53).
  { intros Hpos. rewrite Zdigits2_div_pow2 by lia. lia. }
  destruct (shr_fexp prec emax m2 e1 loc_Exact) as [r2 e2'] eqn:E2.
  cbn [fst snd] in *. subst e2'. rewrite <- Hm3 in *.
  destruct (shr_m r2) as [|p|p]; [reflexivity| |lia].
  replace (e2 <=? emax - prec) with true
    by (symmetry; apply Z.leb_le; unfold emax, prec; lia).
  cbn [atMostOne]. specialize (Hd3 ltac:(lia)). cbn [Zdigits2] in Hd3.
  rewrite !andb_true_iff. repeat split; apply Z.leb_le; lia.
Qed.

Lemma new_location_zero (n : Z) : new_location n 0 = loc_Exact.
Proof.
  unfold new_location, new_location_even, new_location_odd.
  destruct (Z.even n); reflexivity.
Qed.

(** The quotient of a positive double by a double that is not smaller
    rounds to at most one. The hypothesis states [x <= y] on the
    mantissas aligned by the division. *)
Lemma div_core_at_most_one (mx my : positive) (ex ey : Z) :
  let e' := Z.min (fexp prec emax (Zdigits2 (Z.pos mx) + ex - (Zdigits2 (Z.pos my) + ey)))
                  (ex - ey) in
  e' <= 0 ->
  Z.pos mx * 2 ^ (ex - ey - e') <= Z.pos my * 2 ^ (- e') ->
  atMostOne (SFdiv prec emax (S754_finite false mx ex) (S754_finite false my ey)) = true.
Proof.
  intros e' He' Hle. cbn [SFdiv xorb]. unfold SFdiv_core_binary. fold e'.
  set (s := ex - ey - e') in *.
  assert (Hs : 0 <= s) by (unfold s, e'; lia).
  set (m' := match s with
             | 0 => Z.pos mx
             | Z.pos _ => Z.shiftl (Z.pos mx) s
             | Z.neg _ => 0
             end).
  assert (Hm' : m' = Z.pos mx * 2 ^ s).
  { unfold m'. destruct s as [|p|p]; [rewrite Z.pow_0_r; lia| |lia].
    apply Z.shiftl_mul_pow2. lia. }
  pose proof (Z_div_mod m' (Z.pos my) ltac:(lia)) as Hdiv.
  destruct (Z.div_eucl m' (Z.pos my)) as [q r]. destruct Hdiv as [Heq Hr].
  assert (HT : 0 < 2 ^ (- e')) by (apply Z.pow_pos_nonneg; lia).
  assert (Hm'pos : 0 <= m').
  { rewrite Hm'. apply Z.mul_nonneg_nonneg; [lia|]. apply Z.pow_nonneg. lia. }
  assert (Hq : 0 <= q) by nia.
  assert (Hqle : q <= 2 ^ (- e')) by nia.
  apply round_at_most_one; try assumption.
  intros Hqeq. assert (r = 0) by nia. subst r. apply new_location_zero.
Qed.

Lemma valid_digits (s : bool) (m : positive) (e : Z) :
  valid_binary prec emax (S754_finite s m e) = true ->
  Z.pos (digits2_pos m) <= 53 /\ Z.pos m < 2 ^ 53.
Proof.
  cbn [valid_binary]. unfold bounded, canonical_mantissa, fexp, emin, emax, prec.
  intros Hb. apply andb_true_iff in Hb as [Hc _]. apply Z.eqb_eq in Hc.
  assert (Hd : Z.pos (digits2_pos m) <= 53) by lia. split; [exact Hd|].
  eapply Z.lt_le_trans; [apply digits2_lt|]. apply Z.pow_le_mono_r; lia.
Qed.

(* ------------------------------------------------------------------ *)
(** ** Rounding below a double *)
(* ------------------------------------------------------------------ *)

Lemma fexp_le (z b : Z) :
  z <= b -> fexp prec emax z <= Z.max (b - 53) (-1074).
Proof. unfold fexp, emin, emax, prec. lia. Qed.

Lemma div_pow2_le_mul (q c a k : Z) :
  0 <= q -> 0 <= c -> 0 <= k -> k <= a -> q <= c * 2 ^ a ->
  q / 2 ^ k <= c * 2 ^ (a - k).
Proof.
  intros Hq Hc Hk Hka Hle.
  assert (Hp : 0 < 2 ^ k) by (apply Z.pow_pos_nonneg; lia).
  apply Z.div_le_upper_bound; [exact Hp|].
  replace (2 ^ k * (c * 2 ^ (a - k))) with (c * (2 ^ k * 2 ^ (a - k))) by ring.
  rewrite <- Z.pow_add_r by lia. now replace (k + (a - k)) with a by lia.
Qed.

Lemma Zdigits2_lt_mul (z c b a : Z) :
  0 <= z -> 0 < c -> 0 <= b -> 0 <= a -> c < 2 ^ b -> z <= c * 2 ^ a ->
  Zdigits2 z <= b + a.
Proof.
  intros Hz Hc Hb Ha Hcb Hle. apply Zdigits2_le; [lia|lia|].
  rewrite Z.pow_add_r by lia.
  assert (0 < 2 ^ a) by (apply Z.pow_pos_nonneg; lia). nia.
Qed.

Lemma digits2_ge (p : positive) : 2 ^ (Z.pos (digits2_pos p) - 1) <= Z.pos p.
Proof.
  rewrite digits2_log2. replace (Z.log2 (Z.pos p) + 1 - 1) with (Z.log2 (Z.pos p)) by lia.
  apply Z.log2_spec. lia.
Qed.

Lemma valid_exponent (s : bool) (m : positive) (e : Z) :
  valid (S754_finite s m e) = true ->
  -1074 <= e /\ (-1074 < e -> 2 ^ 52 <= Z.pos m).
Proof.
  unfold valid. cbn [valid_binary].
  unfold bounded, canonical_mantissa, fexp, emin, emax, prec.
  intros Hb. apply andb_true_iff in Hb as [Hc _]. apply Z.eqb_eq in Hc.
  split; [lia|]. intros He.
  assert (Hd : Z.pos (digits2_pos m) = 53) by lia.
  pose proof (digits2_ge m) as Hge. rewrite Hd in Hge. exact Hge.
Qed.

(** Doubles compare like the pairs of exponent and mantissa. *)
Lemma leb_finite (m1 m2 : positive) (e1 e2 : Z) :
  leb (S754_finite false m1 e1) (S754_finite false m2 e2) = true <->
  e1 < e2 \/ (e1 = e2 /\ Z.pos m1 <= Z.pos m2).
Proof.
  unfold leb, SFleb. cbn [SFcompare].
  change (Pos.compare_cont Eq m1 m2) with (Pos.compare m1 m2).
  destruct (Z.compare_spec e1 e2) as [Heq|Hlt|Hgt].
  - destruct (Pos.compare_spec m1 m2) as [Hm|Hm|Hm]; split; intros H;
      try discriminate; try reflexivity.
    + right. split; [exact Heq|]. rewrite Hm. apply Z.le_refl.
    + right. split; [exact Heq|]. apply Z.lt_le_incl. exact Hm.
    + destruct H as [H|[_ H]]; [lia|]. exfalso.
      apply Pos2Z.pos_lt_pos in Hm. apply (Z.lt_irrefl (Z.pos m1)).
      eapply Z.le_lt_trans; eassumption.
  - split; [intros _; left; exact Hlt | reflexivity].
  - split; [discriminate|]. intros [H|[H _]]; lia.
Qed.



(* ------------------------------------------------------------------ *)
(** ** Quotients and products of the seek computation *)
(* ------------------------------------------------------------------ *)

Lemma fmul_one_l (d : number) : valid d = true -> fmul (ofZ 1) d = d.
Proof.
  intros Hv. destruct d as [s|s| |s m e]; try reflexivity.
  change (ofZ 1) with (S754_finite false (2 ^ 52) (-52)).
  unfold fmul. cbn [SFmul xorb].
  rewrite Pos2Z.inj_mul. change (Z.pos (2 ^ 52)) with (2 ^ 52).
  replace (-52 + e) with (e - 52) by lia.
  apply round_scaled_exact; [lia | exact Hv].
Qed.



Lemma fmul_zero_r (x : number) (s : bool) :
  atMostOne x = true -> exists s', fmul x (S754_zero s) = S754_zero s'.
Proof.
  destruct x as [sx| | |[] m e]; intros H; try discriminate H; eexists; reflexivity.
Qed.

Lemma fmul_nan_r (x : number) : fmul x NaN = NaN.
Proof. destruct x; reflexivity. Qed.

(** A number between 0 and 100 divided by 100 is at most one. *)
Lemma fdiv_100_at_most_one (v : number) :
  valid v = true -> leb (ofZ 0) v = true -> leb v (ofZ 100) = true ->
  atMostOne (fdiv v (ofZ 100)) = true.
Proof.
  intros Hv H0 H100.
  destruct v as [s|[]| |[] m e]; try discriminate H0; try discriminate H100;
    [reflexivity|].
  destruct (valid_digits false m e Hv) as [_ Hm53].
  change (ofZ 100) with (S754_finite false 7036874417766400 (-46)) in *.
  assert (Hcmp : e < -46 \/ (e = -46 /\ Z.pos m <= 7036874417766400)).
  { unfold leb, SFleb in H100. cbn [SFcompare] in H100.
    revert H100. destruct (e ?= -46) eqn:Ecmp; intros H100.
    - right. apply Z.compare_eq_iff in Ecmp. split; [exact Ecmp|].
      destruct (Pos.compare_cont Eq m 7036874417766400) eqn:Em;
        try discriminate H100.
      + apply Pos.compare_eq_iff in Em. rewrite Em. apply Z.le_refl.
      + apply Pos.compare_lt_iff in Em. apply Z.lt_le_incl. exact Em.
    - left. now apply Z.compare_lt_iff in Ecmp.
    - discriminate H100. }
  unfold fdiv. apply div_core_at_most_one; cbv zeta.
  - lia.
  - set (e' := Z.min _ _). assert (He' : e' <= e - -46) by (unfold e'; lia).
    destruct Hcmp as [Hlt|[-> Hle]].
    + replace (- e') with (e - -46 - e' + (-46 - e)) by lia.
      rewrite Z.pow_add_r by lia.
      assert (0 < 2 ^ (e - -46 - e')) by (apply Z.pow_pos_nonneg; lia).
      assert (2 ^ 1 <= 2 ^ (-46 - e)) by (apply Z.pow_le_mono_r; lia).
      change (2 ^ 1) with 2 in *. change (2 ^ 53) with 9007199254740992 in Hm53.
      nia.
    + replace (-46 - -46 - e') with (- e') by lia.
      apply Z.mul_le_mono_nonneg_r; [apply Z.pow_nonneg; lia | exact Hle].
Qed.


Lemma Z_range_forallb (P : Z -> bool) (n : nat) :
  forallb (fun k => P (Z.of_nat k)) (seq 0 n) = true ->
  forall z, 0 <= z < Z.of_nat n -> P z = true.
Proof.
  intros H z Hz. rewrite forallb_forall in H.
  specialize (H (Z.to_nat z)). rewrite Z2Nat.id in H by lia.
  apply H. apply in_seq. lia.
Qed.

Lemma byte_table (m : Z) :
  0 <= m <= 255 ->
  denotes (heightOf m) (m # 2) = true /\
  denotes (fadd (heightOf m) (ofZ 100)) ((m + 200) # 2) = true /\
  leb (ofZ 100) (fadd (heightOf m) (ofZ 100)) = true /\
  leb (fadd (heightOf m) (ofZ 100)) (ofZ 255) = true.
Proof.
  intros Hm.
  pose (P := fun z => denotes (heightOf z) (z # 2)
                      && denotes (fadd (heightOf z) (ofZ 100)) ((z + 200) # 2)
                      && leb (ofZ 100) (fadd (heightOf z) (ofZ 100))
                      && leb (fadd (heightOf z) (ofZ 100)) (ofZ 255)).
  assert (H : P m = true).
  { apply (Z_range_forallb P 256); [vm_compute; reflexivity | lia]. }
  unfold P in H. rewrite !andb_true_iff in H. tauto.
Qed.

Arguments visualize : simpl never.
Arguments draw : simpl never.
Arguments validFftSize : simpl never.

Ltac step_monad :=
  unfold run, after, handler, handlePlayPause, handleVolumeChange,
    handleDownload, handleProgressChange, mountEffect, dispatchEvent,
    visualizeM, newAudioContext, createAnalyser, analyser_set_fftSize,
    createMediaElementSource, connect, createElement, appendChild, click,
    removeChild, audio_play, audio_pause, audio_set_src,
    audio_set_volume, audio_set_controls, audio_set_currentTime,
    audio_addEventListener, getItem, consoleWarn, getAudio,
    modifyAudio, modifyGraph, modifyDocument, modifyWorld, getWorld,
    setAudioCtx, setAnalyser, setSource, setIsPlaying, setVolume, setProgress,
    setState, when, bind, ret, throw;
  try change (validFftSize 256) with true.


(* ------------------------------------------------------------------ *)
(** ** The frequency frame buffer *)
(* ------------------------------------------------------------------ *)

Lemma copyInto_length (data arr : list Z) :
  length (copyInto data arr) = length arr.
Proof.
  revert data. induction arr as [|x arr IH]; intros [|d data]; cbn; auto.
Qed.

Lemma copyInto_full (data arr : list Z) :
  length data = length arr -> copyInto data arr = map toUint8 data.
Proof.
  revert data. induction arr as [|x arr IH]; intros [|d data] H;
    cbn in *; try discriminate; auto.
  f_equal. apply IH. congruence.
Qed.

Lemma newUint8Array_length (n : Z) : length (newUint8Array n) = Z.to_nat n.
Proof. unfold newUint8Array. apply length_replicate. Qed.

(* ------------------------------------------------------------------ *)
(** ** What one run of [draw] paints *)
(* ------------------------------------------------------------------ *)

Lemma fold_drawBar_ops (h : Z) (bw : number) (arr : list Z) (idx : list nat) :
  forall x g,
    ops (snd (fold_left (drawBar h bw arr) idx (x, g)))
    = ops g ++ barOps h bw arr x idx.
Proof.
  induction idx as [|i idx IH]; intros x g; cbn [fold_left barOps].
  - cbn. now rewrite app_nil_r.
  - unfold drawBar at 2. rewrite IH. cbn [fillRect set_fillStyle ops fillStyle].
    now rewrite <- app_assoc.
Qed.

Lemma draw_ops (a : AnalyserNode) (c : Canvas) (r : Renderer) :
  ops (ctx2d (fst (draw a (c, r))))
  = ops (ctx2d c)
    ++ tickOps c (bufferLength r) (getByteFrequencyData a (dataArray r)).
Proof.
  unfold draw, tickOps. cbn [fst with_ctx2d ctx2d].
  rewrite fold_drawBar_ops. cbn [clearRect ops].
  now rewrite <- app_assoc.
Qed.

Lemma draw_size (a : AnalyserNode) (c : Canvas) (r : Renderer) :
  width (fst (draw a (c, r))) = width c /\
  height (fst (draw a (c, r))) = height c.
Proof. split; reflexivity. Qed.

Lemma draw_buffer (a : AnalyserNode) (c : Canvas) (r : Renderer) :
  dataArray (snd (draw a (c, r))) = getByteFrequencyData a (dataArray r) /\
  bufferLength (snd (draw a (c, r))) = bufferLength r.
Proof. split; reflexivity. Qed.

Lemma paintedSince_draw (a : AnalyserNode) (c : Canvas) (r : Renderer) :
  paintedSince c (fst (draw a (c, r)))
  = tickOps c (bufferLength r) (getByteFrequencyData a (dataArray r)).
Proof. unfold paintedSince. rewrite draw_ops. apply drop_app_length. Qed.

Lemma rectangles_barOps (h : Z) (bw : number) (arr : list Z) (idx : list nat) :
  forall x k i,
    idx !! k = Some i ->
    exists x',
      rectangles (barOps h bw arr x idx) !! k
      = Some {| rx := x'; ry := fsub (ofZ h) (barHeight arr i); rw := bw;
                rh := barHeight arr i; rfill := barColor (barHeight arr i) |}.
Proof.
  induction idx as [|j idx IH]; intros x k i Hk; [discriminate|].
  destruct k as [|k]; cbn in Hk.
  - injection Hk as ->. exists x. reflexivity.
  - destruct (IH (fadd x (fadd bw (ofZ 1))) k i Hk) as [x' Hx'].
    exists x'. exact Hx'.
Qed.

Lemma barHeight_lookup (arr : list Z) (i : nat) (m : Z) :
  arr !! i = Some m -> barHeight arr i = heightOf m.
Proof. intros H. unfold barHeight, readByte, heightOf. now rewrite H. Qed.

(* ------------------------------------------------------------------ *)
(** ** C1: the height and colour of a bar *)
(* ------------------------------------------------------------------ *)

(** C1, with the colour channel as [draw] computes it. In a run of [draw], the bar of bin [i], whose
    sampled magnitude byte is [m] in [0,255], is a rectangle of height
    exactly [m/2], of the common bar width, standing on the bottom of
    the canvas, filled with [rgb(m/2 + 100, 50, 200)]: the varying
    channel is the bar height plus 100 (not [m + 100]), it lies between
    100 and 255 so no clamping takes place, and the other two channels
    are fixed. *)
Theorem draw_bar_mapping (a : AnalyserNode) (c : Canvas) (r : Renderer)
    (i : nat) (m : Z) :
  (i < Z.to_nat (bufferLength r))%nat ->
  dataArray (snd (draw a (c, r))) !! i = Some m ->
  0 <= m <= 255 ->
  (exists x,
     rectangles (paintedSince c (fst (draw a (c, r)))) !! i
     = Some {| rx := x;
               ry := fsub (ofZ (height c)) (heightOf m);
               rw := barWidth (width c) (bufferLength r);
               rh := heightOf m;
               rfill := Rgb (fadd (heightOf m) (ofZ 100)) (ofZ 50) (ofZ 200) |})
  /\ denotes (heightOf m) (m # 2) = true
  /\ denotes (fadd (heightOf m) (ofZ 100)) ((m + 200) # 2) = true
  /\ leb (ofZ 100) (fadd (heightOf m) (ofZ 100)) = true
  /\ leb (fadd (heightOf m) (ofZ 100)) (ofZ 255) = true.
Proof.
  intros Hi Hm Hbyte. split; [|now apply byte_table].
  rewrite paintedSince_draw. destruct (draw_buffer a c r) as [Harr _].
  rewrite Harr in Hm. unfold tickOps.
  change (rectangles (?o :: ?l)) with (rectangles l).
  assert (Hidx : seq 0 (Z.to_nat (bufferLength r)) !! i = Some i).
  { rewrite lookup_seq. split; [reflexivity | exact Hi]. }
  destruct (rectangles_barOps (height c) (barWidth (width c) (bufferLength r))
              (getByteFrequencyData a (dataArray r)) _ (ofZ 0) i i Hidx)
    as [x Hx].
  exists x. rewrite Hx, (barHeight_lookup _ _ _ Hm). reflexivity.
Qed.

(** The boundary values of the mapping: a silent bin gives height 0
    and channel 100, a saturated bin height 127.5 and channel 227.5. *)
Lemma bar_mapping_boundaries :
  heightOf 0 = ofZ 0 /\ red (colorOf 0) = ofZ 100 /\
  heightOf 255 = ofDecimal 1275 1 /\ red (colorOf 255) = ofDecimal 2275 1.
Proof. vm_compute. repeat split; reflexivity. Qed.

Lemma draw_bar_mapping_witness :
  (exists x,
     rectangles (paintedSince smallCanvas
                   (fst (draw saturatedAnalyser (smallCanvas, smallRenderer)))) !! 0%nat
     = Some {| rx := x;
               ry := fsub (ofZ 300) (heightOf 255);
               rw := barWidth 10 2;
               rh := heightOf 255;
               rfill := Rgb (fadd (heightOf 255) (ofZ 100)) (ofZ 50) (ofZ 200) |})
  /\ denotes (heightOf 255) (255 # 2) = true
  /\ denotes (fadd (heightOf 255) (ofZ 100)) (455 # 2) = true
  /\ leb (ofZ 100) (fadd (heightOf 255) (ofZ 100)) = true
  /\ leb (fadd (heightOf 255) (ofZ 100)) (ofZ 255) = true.
Proof.
  apply (draw_bar_mapping saturatedAnalyser smallCanvas smallRenderer 0 255).
  - vm_compute. lia.
  - vm_compute. reflexivity.
  - lia.
Defined.

(** C1 does not hold with the channel [m + 100]: for the saturated byte 255
    the claimed channel is [clamp(255 + 100) = 255], while the fill that
    [draw] sets has the channel 227.5. *)
Lemma bar_color_not_m_plus_100 :
  exists r,
    rectangles (paintedSince smallCanvas
                  (fst (draw saturatedAnalyser (smallCanvas, smallRenderer)))) !! 0%nat
    = Some r /\
    denotes (rh r) (255 # 2) = true /\
    denotes (red (rfill r)) (455 # 2) = true /\
    denotes (red (rfill r)) (inject_Z (specChannel 255)) = false.
Proof. eexists. vm_compute. repeat split; reflexivity. Qed.

(* ------------------------------------------------------------------ *)
(** ** The render loop over a sequence of frames *)
(* ------------------------------------------------------------------ *)

Lemma tickOps_ext (c c' : Canvas) (n : Z) (arr : list Z) :
  width c = width c' -> height c = height c' -> tickOps c n arr = tickOps c' n arr.
Proof. intros Hw Hh. unfold tickOps. now rewrite Hw, Hh. Qed.

Lemma renderLoop_cons (a : AnalyserNode) (st : Canvas * Renderer)
    (d : list Z) (frames : list (list Z)) :
  renderLoop a st (d :: frames) = renderLoop a (draw (sample a d) st) frames.
Proof. reflexivity. Qed.

Lemma renderLoop_buffer (a : AnalyserNode) (frames : list (list Z)) :
  forall st,
    length (dataArray (snd (renderLoop a st frames))) = length (dataArray (snd st)) /\
    bufferLength (snd (renderLoop a st frames)) = bufferLength (snd st).
Proof.
  induction frames as [|d frames IH]; intros [c r]; [split; reflexivity|].
  rewrite renderLoop_cons. destruct (IH (draw (sample a d) (c, r))) as [Hl Hb].
  rewrite Hl, Hb. destruct (draw_buffer (sample a d) c r) as [Harr Hlen].
  rewrite Harr, Hlen. cbn [snd]. split; [apply copyInto_length | reflexivity].
Qed.

Lemma renderLoop_ops (a : AnalyserNode) (frames : list (list Z)) :
  forall c r,
    Forall (fun d => length d = length (dataArray r)) frames ->
    ops (ctx2d (fst (renderLoop a (c, r) frames)))
    = ops (ctx2d c) ++ concat (map (frameOps c (bufferLength r)) frames).
Proof.
  induction frames as [|d frames IH]; intros c r Hf.
  - cbn. now rewrite app_nil_r.
  - rewrite renderLoop_cons. inversion Hf as [|? ? Hd Hf']; subst.
    destruct (draw (sample a d) (c, r)) as [c1 r1] eqn:E.
    assert (Hops := draw_ops (sample a d) c r).
    assert (Hbuf := draw_buffer (sample a d) c r).
    assert (Hsz := draw_size (sample a d) c r).
    rewrite E in Hops, Hbuf, Hsz. cbn [fst snd] in Hops, Hbuf, Hsz.
    destruct Hbuf as [Harr Hlen]. destruct Hsz as [Hw Hh].
    rewrite IH.
    + rewrite Hops, Hlen. cbn [map concat]. rewrite <- app_assoc.
      f_equal. f_equal.
      * unfold frameOps, getByteFrequencyData, sample. cbn [frequencyData].
        now rewrite (copyInto_full _ _ Hd).
      * f_equal. apply map_ext. intros d'. unfold frameOps.
        apply tickOps_ext; assumption.
    + rewrite Harr. unfold getByteFrequencyData. rewrite copyInto_length. exact Hf'.
Qed.

Lemma Forall_rectangles_barOps (P : rect -> Prop) (h : Z) (bw : number)
    (arr : list Z) (idx : list nat) :
  (forall i x, In i idx ->
     P {| rx := x; ry := fsub (ofZ h) (barHeight arr i); rw := bw;
          rh := barHeight arr i; rfill := barColor (barHeight arr i) |}) ->
  forall x, Forall P (rectangles (barOps h bw arr x idx)).
Proof.
  induction idx as [|i idx IH]; intros HP x; [constructor|].
  cbn [barOps]. unfold rectangles. cbn [omap rectOf]. constructor.
  - apply HP. now left.
  - apply IH. intros j y Hj. apply HP. now right.
Qed.

Lemma toUint8_byte (z : Z) : 0 <= toUint8 z <= 255.
Proof. unfold toUint8. pose proof (Z.mod_pos_bound z 256). lia. Qed.

Lemma frameOps_pure (c : Canvas) (n : Z) (d : list Z) :
  length d = Z.to_nat n -> Forall pureBar (rectangles (frameOps c n d)).
Proof.
  intros Hd. unfold frameOps, tickOps.
  change (rectangles (?o :: ?l)) with (rectangles l).
  apply Forall_rectangles_barOps. intros i x Hi.
  apply in_seq in Hi.
  assert (Hlt : (i < length (map toUint8 d))%nat) by (rewrite length_map; lia).
  destruct (lookup_lt_is_Some_2 _ _ Hlt) as [m Hm].
  exists m. cbn [rh rfill]. rewrite (barHeight_lookup _ _ _ Hm).
  split; [|split; reflexivity].
  apply list_lookup_fmap_Some in Hm as (z & -> & _). apply toUint8_byte.
Qed.

Lemma rectangles_app (l1 l2 : list canvas_op) :
  rectangles (l1 ++ l2) = rectangles l1 ++ rectangles l2.
Proof. unfold rectangles. apply omap_app. Qed.

Lemma frames_pure (c : Canvas) (n : Z) (frames : list (list Z)) :
  Forall (fun d => length d = Z.to_nat n) frames ->
  Forall pureBar (rectangles (concat (map (frameOps c n) frames))).
Proof.
  induction 1 as [|d frames Hd _ IH]; [constructor|].
  cbn [map concat]. rewrite rectangles_app. apply Forall_app. split.
  - now apply frameOps_pure.
  - exact IH.
Qed.

Lemma renderLoop_painted (a : AnalyserNode) (c : Canvas) (r : Renderer)
    (frames : list (list Z)) :
  length (dataArray r) = Z.to_nat (bufferLength r) ->
  Forall (fun d => length d = Z.to_nat (bufferLength r)) frames ->
  paintedSince c (fst (renderLoop a (c, r) frames))
  = concat (map (frameOps c (bufferLength r)) frames).
Proof.
  intros Hlen Hf. unfold paintedSince. rewrite renderLoop_ops.
  - apply drop_app_length.
  - rewrite Hlen. exact Hf.
Qed.

(* ------------------------------------------------------------------ *)
(** ** C9: the rendering is a function of the frames *)
(* ------------------------------------------------------------------ *)

(** C9. Two runs of the render loop on canvases of the same size, with
    buffers of the same length, fed the same sequence of full frequency
    frames, paint the same sequence of rectangles (position, size and
    fill), whatever was painted before, whatever fill style was set and
    whatever the buffers held; and every rectangle has the height and
    the fill that the pure functions [heightOf] and [colorOf] give for
    some byte in [0,255]. *)
Theorem render_deterministic (a1 a2 : AnalyserNode) (c1 c2 : Canvas)
    (r1 r2 : Renderer) (frames : list (list Z)) :
  width c1 = width c2 -> height c1 = height c2 ->
  bufferLength r1 = bufferLength r2 ->
  length (dataArray r1) = Z.to_nat (bufferLength r1) ->
  length (dataArray r2) = Z.to_nat (bufferLength r2) ->
  Forall (fun d => length d = Z.to_nat (bufferLength r1)) frames ->
  rectangles (paintedSince c1 (fst (renderLoop a1 (c1, r1) frames)))
  = rectangles (paintedSince c2 (fst (renderLoop a2 (c2, r2) frames)))
  /\ Forall pureBar
       (rectangles (paintedSince c1 (fst (renderLoop a1 (c1, r1) frames)))).
Proof.
  intros Hw Hh Hn Hl1 Hl2 Hf.
  rewrite (renderLoop_painted a1 c1 r1 frames Hl1 Hf).
  rewrite (renderLoop_painted a2 c2 r2 frames Hl2)
    by (rewrite <- Hn; exact Hf).
  split.
  - f_equal. f_equal. rewrite <- Hn. apply map_ext. intros d.
    unfold frameOps. now apply tickOps_ext.
  - now apply frames_pure.
Qed.

Lemma render_deterministic_witness :
  rectangles (paintedSince smallCanvas
                (fst (renderLoop saturatedAnalyser (smallCanvas, smallRenderer)
                        [[255; 0]; [3; 4]])))
  = rectangles (paintedSince usedCanvas
                  (fst (renderLoop saturatedAnalyser (usedCanvas, usedRenderer)
                          [[255; 0]; [3; 4]])))
  /\ Forall pureBar
       (rectangles (paintedSince smallCanvas
                      (fst (renderLoop saturatedAnalyser (smallCanvas, smallRenderer)
                              [[255; 0]; [3; 4]])))).
Proof.
  apply (render_deterministic saturatedAnalyser saturatedAnalyser
           smallCanvas usedCanvas smallRenderer usedRenderer [[255; 0]; [3; 4]]);
    try reflexivity.
  repeat constructor.
Defined.

(* ------------------------------------------------------------------ *)
(** ** C8: the length of the frequency frame buffer *)
(* ------------------------------------------------------------------ *)

Lemma visualize_buffer (iw : Z) (c : Canvas) (aid : nat) (a : AnalyserNode)
    (st : Canvas * Renderer) :
  visualize iw (Some c) aid a = Some st ->
  bufferLength (snd st) = frequencyBinCount a /\
  length (dataArray (snd st)) = Z.to_nat (frequencyBinCount a).
Proof.
  unfold visualize. intros [= <-].
  match goal with |- context [draw a (?c0, ?r0)] =>
    destruct (draw_buffer a c0 r0) as [Harr Hlen]; rewrite Harr, Hlen end.
  cbn [bufferLength dataArray]. split; [reflexivity|].
  unfold getByteFrequencyData. now rewrite copyInto_length, newUint8Array_length.
Qed.

(* ------------------------------------------------------------------ *)
(** ** The play/pause handler *)
(* ------------------------------------------------------------------ *)

(** With a tap in the state cells the handler only toggles. *)
Lemma handlePlayPause_tapped (c : Component) (w : World) (k : nat) :
  audioCtx c = Some k ->
  run handlePlayPause c w
  = Done (withIsPlaying (negb (isPlaying c)) c)
         (with_audio (withPaused (isPlaying c) (audio w)) w).
Proof.
  intros Hk. step_monad. rewrite Hk. cbn.
  destruct (isPlaying c); reflexivity.
Qed.

(** The first call from rest builds the tap. *)
Lemma handlePlayPause_first (c : Component) (w : World) :
  atRest c w -> hasAudioContext (graph w) = true ->
  let o := run handlePlayPause c w in
  threw o = false /\
  isPlaying (stateOf o) = true /\
  audioCtx (stateOf o) = Some 0%nat /\
  contextsCreated (graph (worldOf o)) = 1%nat /\
  analysers (graph (worldOf o)) = [silentAnalyser 256] /\
  mediaSources (graph (worldOf o)) = [0%nat] /\
  canvas (worldOf o)
    = match visualize (innerWidth w) (canvas w) 0 (silentAnalyser 256) with
      | Some (cv, _) => Some cv
      | None => canvas w
      end /\
  renderers (worldOf o)
    = match visualize (innerWidth w) (canvas w) 0 (silentAnalyser 256) with
      | Some (_, r) => renderers w ++ [r]
      | None => renderers w
      end.
Proof.
  intros (Hp & Hc & Hn & Ha & Hs) Hapi.
  destruct w as [st au cv iw g rs co doc]. destruct g as [api n an ms cn].
  destruct c as [ac an' so pl vo pr].
  cbn in Hp, Hc, Hn, Ha, Hs, Hapi. subst.
  step_monad. cbn.
  destruct (visualize iw cv 0 (silentAnalyser 256)) as [[cv' r]|];
    cbn; repeat split; reflexivity.
Qed.

Lemma toggles_keep_tap (n : nat) :
  forall c w k,
    audioCtx c = Some k ->
    let o := fold_left after (repeat handlePlayPause n) (Done c w) in
    threw o = false /\
    audioCtx (stateOf o) = Some k /\
    graph (worldOf o) = graph w /\
    renderers (worldOf o) = renderers w /\
    isPlaying (stateOf o) = (if Nat.even n then isPlaying c else negb (isPlaying c)).
Proof.
  induction n as [|n IH]; intros c w k Hk.
  - cbn. repeat split; auto.
  - change (fold_left after (repeat handlePlayPause (S n)) (Done c w))
      with (fold_left after (repeat handlePlayPause n) (run handlePlayPause c w)).
    rewrite (handlePlayPause_tapped c w k Hk).
    destruct (IH (withIsPlaying (negb (isPlaying c)) c)
                 (with_audio (withPaused (isPlaying c) (audio w)) w) k Hk)
      as (H1 & H2 & H3 & H4 & H5).
    cbv zeta. repeat split; try assumption.
    rewrite H5. cbn [withIsPlaying isPlaying].
    rewrite Nat.even_succ, <- Nat.negb_even.
    destruct (Nat.even n), (isPlaying c); reflexivity.
Qed.

(* ------------------------------------------------------------------ *)
(** ** C2: two toggles, one tap *)
(* ------------------------------------------------------------------ *)

(** C2. From rest, on a platform that has an audio context, the first
    [handlePlayPause] ends with [isPlaying = true] and the second with
    [isPlaying = false], neither throws, and after both exactly one
    audio context, one analyser and one media element source exist;
    every later call leaves the audio graph and the tap held in the
    state cells as the first call made them. *)
Theorem toggle_twice_one_tap (c : Component) (w : World) :
  atRest c w -> hasAudioContext (graph w) = true ->
  let o1 := run handlePlayPause c w in
  let o2 := after o1 handlePlayPause in
  threw o1 = false /\ isPlaying (stateOf o1) = true /\
  threw o2 = false /\ isPlaying (stateOf o2) = false /\
  contextsCreated (graph (worldOf o2)) = 1%nat /\
  length (analysers (graph (worldOf o2))) = 1%nat /\
  length (mediaSources (graph (worldOf o2))) = 1%nat /\
  forall n,
    let o := fold_left after (repeat handlePlayPause n) o1 in
    threw o = false /\
    audioCtx (stateOf o) = audioCtx (stateOf o1) /\
    graph (worldOf o) = graph (worldOf o1) /\
    renderers (worldOf o) = renderers (worldOf o1).
Proof.
  intros Hrest Hapi.
  destruct (handlePlayPause_first c w Hrest Hapi)
    as (Ht & Hp & Hc & Hn & Ha & Hs & _ & _).
  cbv zeta in *.
  destruct (run handlePlayPause c w) as [c1 w1|e c1 w1]; [|discriminate Ht].
  cbn [stateOf worldOf threw] in *.
  assert (Hiter := fun n => toggles_keep_tap n c1 w1 0%nat Hc).
  cbv zeta in Hiter.
  destruct (Hiter 1%nat) as (H1 & H2 & H3 & H4 & H5).
  cbn [repeat fold_left] in H1, H2, H3, H4, H5.
  rewrite Hp in H5. cbn in H5.
  repeat split; try assumption; try reflexivity.
  - now rewrite H3.
  - now rewrite H3, Ha.
  - now rewrite H3, Hs.
  - apply (Hiter n).
  - rewrite Hc. apply (Hiter n).
  - apply (Hiter n).
  - apply (Hiter n).
Qed.

Lemma toggle_twice_one_tap_witness :
  let o1 := run handlePlayPause initialComponent restWorld in
  let o2 := after o1 handlePlayPause in
  threw o1 = false /\ isPlaying (stateOf o1) = true /\
  threw o2 = false /\ isPlaying (stateOf o2) = false /\
  contextsCreated (graph (worldOf o2)) = 1%nat /\
  length (analysers (graph (worldOf o2))) = 1%nat /\
  length (mediaSources (graph (worldOf o2))) = 1%nat /\
  forall n,
    let o := fold_left after (repeat handlePlayPause n) o1 in
    threw o = false /\
    audioCtx (stateOf o) = audioCtx (stateOf o1) /\
    graph (worldOf o) = graph (worldOf o1) /\
    renderers (worldOf o) = renderers (worldOf o1).
Proof.
  apply (toggle_twice_one_tap initialComponent restWorld).
  - repeat split.
  - reflexivity.
Defined.

(** C8. The first [handlePlayPause] from rest, with the canvas in
    place, creates one analyser with FFT size 256, whose bin count is
    half of that, and starts one renderer whose buffer has as many
    elements as the analyser has bins, 128; over any sequence of later
    animation frames, whatever the frames hold, the buffer keeps that
    length and the loop bound stays 128. *)
Theorem frame_buffer_fixed (c : Component) (w : World) (cv : Canvas) :
  atRest c w -> hasAudioContext (graph w) = true -> canvas w = Some cv ->
  exists a cv' r,
    analysers (graph (worldOf (run handlePlayPause c w))) = [a] /\
    fftSize a = 256 /\ frequencyBinCount a = fftSize a / 2 /\
    canvas (worldOf (run handlePlayPause c w)) = Some cv' /\
    renderers (worldOf (run handlePlayPause c w)) = renderers w ++ [r] /\
    length (dataArray r) = Z.to_nat (frequencyBinCount a) /\
    length (dataArray r) = 128%nat /\
    forall frames,
      length (dataArray (snd (renderLoop a (cv', r) frames))) = 128%nat /\
      bufferLength (snd (renderLoop a (cv', r) frames)) = 128.
Proof.
  intros Hrest Hapi Hcv.
  destruct (handlePlayPause_first c w Hrest Hapi)
    as (_ & _ & _ & _ & Ha & _ & Hc & Hr).
  cbv zeta in *. rewrite Hcv in Hc, Hr.
  destruct (visualize (innerWidth w) (Some cv) 0 (silentAnalyser 256))
    as [[cv' r]|] eqn:E; [|discriminate E].
  destruct (visualize_buffer _ _ _ _ _ E) as [Hb Hl]. cbn [snd] in Hb, Hl.
  exists (silentAnalyser 256), cv', r.
  repeat split; try assumption; try reflexivity.
  - destruct (renderLoop_buffer (silentAnalyser 256) frames (cv', r)) as [H1 _].
    rewrite H1. exact Hl.
  - destruct (renderLoop_buffer (silentAnalyser 256) frames (cv', r)) as [_ H2].
    rewrite H2. exact Hb.
Qed.

Lemma frame_buffer_fixed_witness :
  exists a cv' r,
    analysers (graph (worldOf (run handlePlayPause initialComponent restWorld))) = [a] /\
    fftSize a = 256 /\ frequencyBinCount a = fftSize a / 2 /\
    canvas (worldOf (run handlePlayPause initialComponent restWorld)) = Some cv' /\
    renderers (worldOf (run handlePlayPause initialComponent restWorld))
      = renderers restWorld ++ [r] /\
    length (dataArray r) = Z.to_nat (frequencyBinCount a) /\
    length (dataArray r) = 128%nat /\
    forall frames,
      length (dataArray (snd (renderLoop a (cv', r) frames))) = 128%nat /\
      bufferLength (snd (renderLoop a (cv', r) frames)) = 128.
Proof.
  apply (frame_buffer_fixed initialComponent restWorld
           {| width := 300; height := 150; ctx2d := defaultContext |}).
  - repeat split.
  - reflexivity.
  - reflexivity.
Defined.

(* ------------------------------------------------------------------ *)
(** ** C6: the volume handler *)
(* ------------------------------------------------------------------ *)

Lemma unit_interval_finite (v : number) :
  leb (ofZ 0) v = true -> leb v (ofZ 1) = true -> isFinite v = true.
Proof. destruct v as [s|[]| |s m e]; intros H0 H1; try reflexivity; discriminate. Qed.

Lemma handleVolumeChange_run (v : number) (c : Component) (w : World) :
  leb (ofZ 0) v = true -> leb v (ofZ 1) = true ->
  run (handleVolumeChange v) c w
  = Done (withVolume v c) (with_audio (withElVolume v (audio w)) w).
Proof.
  intros H0 H1. step_monad.
  rewrite (unit_interval_finite v H0 H1), H0, H1. reflexivity.
Qed.

(** C6. For every number [v] with [0 <= v <= 1] the volume handler does
    not throw, stores [v] in the volume cell and assigns [v] to the
    element; setting 0 and then 1 leaves the element's volume exactly 0
    after the first call and exactly 1 after the second. *)
Theorem volume_applied (v : number) (c : Component) (w : World) :
  leb (ofZ 0) v = true -> leb v (ofZ 1) = true ->
  let o := run (handleVolumeChange v) c w in
  let o0 := run (handleVolumeChange (ofZ 0)) c w in
  let o1 := after o0 (handleVolumeChange (ofZ 1)) in
  threw o = false /\
  volume (stateOf o) = v /\ el_volume (audio (worldOf o)) = v /\
  threw o0 = false /\
  el_volume (audio (worldOf o0)) = ofZ 0 /\ volume (stateOf o0) = ofZ 0 /\
  threw o1 = false /\
  el_volume (audio (worldOf o1)) = ofZ 1 /\ volume (stateOf o1) = ofZ 1.
Proof.
  intros H0 H1. cbv zeta. unfold after.
  rewrite (handleVolumeChange_run v c w H0 H1).
  rewrite (handleVolumeChange_run (ofZ 0) c w) by reflexivity.
  cbn [stateOf worldOf].
  rewrite handleVolumeChange_run by reflexivity.
  repeat split.
Qed.

Lemma volume_applied_witness :
  let v := volumeStep 3 in
  let o := run (handleVolumeChange v) initialComponent restWorld in
  let o0 := run (handleVolumeChange (ofZ 0)) initialComponent restWorld in
  let o1 := after o0 (handleVolumeChange (ofZ 1)) in
  threw o = false /\
  volume (stateOf o) = v /\ el_volume (audio (worldOf o)) = v /\
  threw o0 = false /\
  el_volume (audio (worldOf o0)) = ofZ 0 /\ volume (stateOf o0) = ofZ 0 /\
  threw o1 = false /\
  el_volume (audio (worldOf o1)) = ofZ 1 /\ volume (stateOf o1) = ofZ 1.
Proof.
  apply (volume_applied (volumeStep 3) initialComponent restWorld);
    vm_compute; reflexivity.
Defined.

(* ------------------------------------------------------------------ *)
(** ** C7: the [ended] listener *)
(* ------------------------------------------------------------------ *)

Lemma runListeners_isPlaying (ev : string) (ls : list (string * listener)) :
  forall c w,
    exists c',
      runListeners ev ls (c, w) = (inr tt, (c', w)) /\
      (isPlaying c = false -> isPlaying c' = false) /\
      (In (ev, OnEnded) ls -> isPlaying c' = false).
Proof.
  induction ls as [|[ev' l] ls IH]; intros c w.
  - exists c. cbn. repeat split; auto. intros [].
  - cbn [runListeners]. unfold bind, when.
    destruct (String.eqb_spec ev ev') as [<-|Hne].
    + destruct l; cbn.
      * destruct (IH (withProgress
                        (fmul (fdiv (currentTime (audio w)) (duration (audio w)))
                              (ofZ 100)) c) w) as (c' & Hrun & Hkeep & Hin).
        exists c'. repeat split; auto.
        intros [Heq|Hl]; [discriminate Heq | auto].
      * destruct (IH (withIsPlaying false c) w) as (c' & Hrun & Hkeep & Hin).
        exists c'. repeat split; auto.
    + cbn. destruct (IH c w) as (c' & Hrun & Hkeep & Hin).
      exists c'. repeat split; auto.
      intros [Heq|Hl]; [congruence | auto].
Qed.

(** C7. On an element that carries the [ended] listener of the mount
    effect, delivering [ended] does not throw and leaves
    [isPlaying = false], whatever it was; delivering it again, with
    [isPlaying] already false, does not throw either and leaves it
    false. The browser objects are not touched. *)
Theorem ended_sets_not_playing (c : Component) (w : World) :
  In ("ended"%string, OnEnded) (listeners (audio w)) ->
  let o1 := run (dispatchEvent "ended") c w in
  let o2 := after o1 (dispatchEvent "ended") in
  threw o1 = false /\ isPlaying (stateOf o1) = false /\ worldOf o1 = w /\
  threw o2 = false /\ isPlaying (stateOf o2) = false /\ worldOf o2 = w.
Proof.
  intros Hin. cbv zeta. step_monad. cbn [snd fst].
  destruct (runListeners_isPlaying "ended" (listeners (audio w)) c w)
    as (c1 & Hrun1 & _ & Hin1).
  rewrite Hrun1. cbn.
  destruct (runListeners_isPlaying "ended" (listeners (audio w)) c1 w)
    as (c2 & Hrun2 & _ & Hin2).
  unfold run. cbn [snd fst]. rewrite Hrun2. cbn.
  repeat split; auto.
Qed.

Lemma ended_sets_not_playing_witness :
  let c := withIsPlaying true initialComponent in
  let w := worldOf (run mountEffect initialComponent restWorld) in
  let o1 := run (dispatchEvent "ended") c w in
  let o2 := after o1 (dispatchEvent "ended") in
  isPlaying c = true /\
  threw o1 = false /\ isPlaying (stateOf o1) = false /\ worldOf o1 = w /\
  threw o2 = false /\ isPlaying (stateOf o2) = false /\ worldOf o2 = w.
Proof.
  split; [reflexivity|].
  apply (ended_sets_not_playing (withIsPlaying true initialComponent)
           (worldOf (run mountEffect initialComponent restWorld))).
  vm_compute. right. left. reflexivity.
Defined.

(* ------------------------------------------------------------------ *)
(** ** C10: the download handler *)
(* ------------------------------------------------------------------ *)

Lemma filter_fresh (a : Element) (l : list Element) :
  Forall (fun e => (el_id e < el_id a)%nat) l ->
  List.filter (fun b => negb (sameElement a b)) l = l.
Proof.
  induction 1 as [|e l He _ IH]; [reflexivity|].
  cbn [List.filter]. unfold sameElement at 1.
  destruct (Nat.eqb_spec (el_id a) (el_id e)) as [Heq|_]; [lia|].
  cbn [negb]. now rewrite IH.
Qed.

Lemma filter_app_self (a : Element) (l : list Element) :
  Forall (fun e => (el_id e < el_id a)%nat) l ->
  List.filter (fun b => negb (sameElement a b)) (l ++ [a]) = l.
Proof.
  intros Hl. rewrite List.filter_app, (filter_fresh a l Hl).
  cbn. unfold sameElement. rewrite Nat.eqb_refl. cbn. apply app_nil_r.
Qed.

Lemma existsb_app_self (a : Element) (l : list Element) :
  existsb (sameElement a) (l ++ [a]) = true.
Proof.
  rewrite existsb_app. cbn. unfold sameElement at 2.
  rewrite Nat.eqb_refl. now rewrite orb_true_r.
Qed.

(** C10. Without a track in storage (no entry, or an empty one)
    [handleDownload] ends normally and changes nothing at all: not the
    state cells, not the document, no download. With a track [url] in
    storage it ends normally, one download of [url] under the fixed
    file name is triggered, and the children of the body are the same
    as before: the anchor created for the purpose is no longer among
    them. *)
Theorem download_noop_or_clean (c : Component) (w : World) :
  (truthy (localStorage w !! audioSrcKey) = false ->
   run handleDownload c w = Done c w) /\
  (forall url,
     localStorage w !! audioSrcKey = Some url -> truthy (Some url) = true ->
     wfDocument (document w) ->
     let o := run handleDownload c w in
     threw o = false /\ stateOf o = c /\
     children (document (worldOf o)) = children (document w) /\
     Forall (fun e => el_id e <> nextId (document w))
            (children (document (worldOf o))) /\
     downloads (document (worldOf o))
       = downloads (document w) ++ [(url, downloadName)] /\
     audio (worldOf o) = audio w).
Proof.
  split.
  - intros Hno. step_monad. cbn [snd fst]. rewrite Hno. reflexivity.
  - intros url Hurl Htruthy Hwf. cbv zeta.
    assert (Hfresh : Forall (fun e => (el_id e < nextId (document w))%nat)
                            (children (document w))) by exact Hwf.
    step_monad. cbn [snd fst]. rewrite Hurl, Htruthy.
    cbn [snd fst with_document document children nextId downloads el_id tag
         href download default from_option].
    unfold id.
    set (a := {| el_id := nextId (document w); tag := "a"; href := url;
                 download := downloadName |}).
    rewrite (filter_fresh a _ Hfresh), existsb_app_self.
    cbn [snd fst with_document document children nextId downloads].
    rewrite (filter_app_self a _ Hfresh).
    cbn [stateOf worldOf threw document with_document children downloads audio
         href download a].
    repeat split; try reflexivity.
    eapply Forall_impl; [exact Hfresh|]. cbn. intros e He. lia.
Qed.

Lemma download_noop_or_clean_witness :
  run handleDownload initialComponent inertWorld = Done initialComponent inertWorld /\
  (let o := run handleDownload initialComponent restWorld in
   threw o = false /\ stateOf o = initialComponent /\
   children (document (worldOf o)) = children (document restWorld) /\
   Forall (fun e => el_id e <> nextId (document restWorld))
          (children (document (worldOf o))) /\
   downloads (document (worldOf o))
     = downloads (document restWorld)
       ++ [("blob:generated-track"%string, downloadName)] /\
   audio (worldOf o) = audio restWorld).
Proof.
  split.
  - apply (proj1 (download_noop_or_clean initialComponent inertWorld)).
    vm_compute. reflexivity.
  - apply (proj2 (download_noop_or_clean initialComponent restWorld)
             "blob:generated-track"%string).
    + vm_compute. reflexivity.
    + reflexivity.
    + constructor.
Defined.

(* ------------------------------------------------------------------ *)
(** ** Rounding error of the seek computation *)
(* ------------------------------------------------------------------ *)




























(* ------------------------------------------------------------------ *)
(** ** The seek handler *)
(* ------------------------------------------------------------------ *)

Lemma handleProgressChange_run (v : number) (c : Component) (w : World) :
  run (handleProgressChange v) c w
  = if isFinite (fmul (fdiv v (ofZ 100)) (duration (audio w)))
    then Done (withProgress v c)
              (with_audio
                 (withCurrentTime
                    (seekPosition (fmul (fdiv v (ofZ 100)) (duration (audio w)))
                                  (duration (audio w)))
                    (audio w)) w)
    else Threw TypeError c w.
Proof.
  step_monad. cbn [snd fst].
  destruct (isFinite (fmul (fdiv v (ofZ 100)) (duration (audio w)))); reflexivity.
Qed.

(** A target inside the track is where the seek lands. *)
Lemma seekPosition_within (t D : number) :
  leb (ofZ 0) t = true -> leb t D = true -> seekPosition t D = t.
Proof.
  intros H0 H1. unfold seekPosition. rewrite H0, H1.
  destruct D; reflexivity.
Qed.

Lemma leb_refl_finite (m : positive) (e : Z) :
  leb (S754_finite false m e) (S754_finite false m e) = true.
Proof. apply leb_finite. right. split; [reflexivity | apply Z.le_refl]. Qed.







(** In the lowest binade the half can be lost as well: three times
    the smallest positive double has no double for its half, and a
    seek to 50 computes twice the smallest double. *)
Lemma seek_half_lowest_binade :
  let D := S754_finite false 3 (-1074) in
  let w := metadataLoaded D restWorld in
  let o := run (handleProgressChange (percentOf 50)) initialComponent w in
  valid D = true /\ duration (audio w) = D /\
  threw o = false /\
  seekTarget (percentOf 50) (audio w) = S754_finite false 2 (-1074) /\
  currentTime (audio (worldOf o)) = S754_finite false 2 (-1074) /\
  (forall q, exactSeek 50 D = Some q ->
     denotes (seekTarget (percentOf 50) (audio w)) q = false /\
     denotes (currentTime (audio (worldOf o))) q = false).
Proof.
  cbv zeta.
  split; [vm_compute; reflexivity|].
  split; [vm_compute; reflexivity|].
  split; [vm_compute; reflexivity|].
  split; [vm_compute; reflexivity|].
  split; [vm_compute; reflexivity|].
  intros q Hq.
  assert (Hqq : ((50 # 100) * (3 # Z.to_pos (2 ^ 1074)))%Q = q)
    by exact (f_equal (fun o => match o with Some y => y | None => 0%Q end) Hq).
  rewrite <- Hqq. split; vm_compute; reflexivity.
Qed.



(** C4 does not hold for an unknown duration: with the source set and
    the metadata not yet loaded the duration is NaN, and a seek to 50
    throws a TypeError. *)
Lemma seek_unknown_duration_throws :
  let w := worldOf (run mountEffect initialComponent restWorld) in
  duration (audio w) = NaN /\
  run (handleProgressChange (percentOf 50)) initialComponent w
  = Threw TypeError initialComponent w.
Proof. split; vm_compute; reflexivity. Qed.

(** C4, with what an unknown duration leads to. For a percent between 0 and 100 and a duration of
    zero the seek handler does not throw: it sets [currentTime] to zero
    and the progress to the percent. For an unknown duration (NaN) the
    target is NaN whatever the percent; it is neither clamped nor
    dropped but assigned to [currentTime], which rejects it with a
    TypeError, and neither the element nor the progress changes. *)
Theorem seek_degenerate_duration (c : Component) (w : World) (v : number) :
  valid v = true -> leb (ofZ 0) v = true -> leb v (ofZ 100) = true ->
  (forall s,
     duration (audio w) = S754_zero s ->
     exists s',
       run (handleProgressChange v) c w
       = Done (withProgress v c)
              (with_audio (withCurrentTime (S754_zero s') (audio w)) w)) /\
  (duration (audio w) = NaN ->
   fmul (fdiv v (ofZ 100)) (duration (audio w)) = NaN /\
   run (handleProgressChange v) c w = Threw TypeError c w).
Proof.
  intros Hvv H0 H100. split.
  - intros s Hs. rewrite handleProgressChange_run, Hs.
    destruct (fmul_zero_r _ s (fdiv_100_at_most_one v Hvv H0 H100)) as [s' Hs'].
    exists s'. rewrite Hs'. reflexivity.
  - intros Hnan. rewrite handleProgressChange_run, Hnan, fmul_nan_r.
    split; reflexivity.
Qed.

Lemma seek_degenerate_duration_witness :
  (exists s',
     run (handleProgressChange (percentOf 30)) initialComponent
         (metadataLoaded (ofZ 0) restWorld)
     = Done (withProgress (percentOf 30) initialComponent)
            (with_audio (withCurrentTime (S754_zero s')
                           (audio (metadataLoaded (ofZ 0) restWorld)))
                        (metadataLoaded (ofZ 0) restWorld)))
  /\ run (handleProgressChange (percentOf 30)) initialComponent restWorld
     = Threw TypeError initialComponent restWorld.
Proof.
  split.
  - apply (proj1 (seek_degenerate_duration initialComponent
                    (metadataLoaded (ofZ 0) restWorld) (percentOf 30)
                    eq_refl eq_refl eq_refl) false).
    reflexivity.
  - apply (proj2 (seek_degenerate_duration initialComponent restWorld
                    (percentOf 30) eq_refl eq_refl eq_refl)).
    reflexivity.
Defined.

(* ------------------------------------------------------------------ *)
(** ** C3: no track at mount time *)
(* ------------------------------------------------------------------ *)

(** C3 does not hold for the handlers: after mounting without a
    track the warning is logged, but the controller is not inert. A
    play/pause sets [isPlaying], a volume change sets the volume, and a
    seek throws. *)
Lemma missing_source_not_inert :
  let o := run mountEffect initialComponent inertWorld in
  console (worldOf o) = [missingSourceWarning] /\
  isPlaying (stateOf o) = false /\
  isPlaying (stateOf (after o handlePlayPause)) = true /\
  ~ inertAt (stateOf o) (worldOf o) TogglePlayPause /\
  ~ inertAt (stateOf o) (worldOf o) (SetVolume (volumeStep 5)) /\
  ~ inertAt (stateOf o) (worldOf o) (Seek (percentOf 50)).
Proof.
  cbv zeta. repeat split; try (vm_compute; reflexivity).
  - intros (_ & H & _). apply (f_equal isPlaying) in H.
    vm_compute in H. discriminate H.
  - intros (_ & H & _). apply (f_equal volume) in H.
    vm_compute in H. discriminate H.
  - intros (H & _). vm_compute in H. discriminate H.
Qed.

(** C3, with the handlers as they are. When storage holds no track at mount time, the
    mount effect logs the warning and does nothing else: it does not
    throw, and the state cells, the audio element (source, volume,
    listeners) and everything else in the browser stay as they were.
    The handlers are not gated on the track: from rest a play/pause
    still ends with [isPlaying = true] and the element not paused, and
    a volume change to [v] in [0,1] still sets the volume cell and the
    element's volume to [v]. *)
Theorem missing_source_soft_failure (c : Component) (w : World) :
  truthy (localStorage w !! audioSrcKey) = false ->
  let o := run mountEffect c w in
  o = Done c (with_console (console w ++ [missingSourceWarning]) w) /\
  audio (worldOf o) = audio w /\
  (atRest c w -> hasAudioContext (graph w) = true ->
   threw (after o handlePlayPause) = false /\
   isPlaying (stateOf (after o handlePlayPause)) = true /\
   paused (audio (worldOf (after o handlePlayPause))) = false) /\
  (forall v,
     leb (ofZ 0) v = true -> leb v (ofZ 1) = true ->
     volume (stateOf (after o (handleVolumeChange v))) = v /\
     el_volume (audio (worldOf (after o (handleVolumeChange v)))) = v).
Proof.
  intros Hno. cbv zeta.
  assert (Hrun : run mountEffect c w
                 = Done c (with_console (console w ++ [missingSourceWarning]) w)).
  { step_monad. cbn [snd fst]. rewrite Hno. reflexivity. }
  rewrite Hrun. unfold after. cbn [stateOf worldOf].
  refine (conj eq_refl (conj eq_refl (conj _ _))).
  - intros Hrest Hapi.
    assert (Hrest' : atRest c (with_console (console w ++ [missingSourceWarning]) w))
      by exact Hrest.
    destruct (handlePlayPause_first c _ Hrest' Hapi) as (Ht & Hp & _).
    cbv zeta in Ht, Hp. refine (conj Ht (conj Hp _)).
    destruct c as [ac an so pl vo pr]. destruct Hrest as (Hpl & Hc & Hn & Ha & Hs).
    destruct w as [st au cv iw g rs co doc]. destruct g as [api n an' ms cn].
    cbn in Hpl, Hc, Hn, Ha, Hs, Hapi. subst.
    step_monad. cbn.
    destruct (visualize iw cv 0 (silentAnalyser 256)) as [[cv' r]|]; reflexivity.
  - intros v H0 H1. rewrite (handleVolumeChange_run v c _ H0 H1).
    split; reflexivity.
Qed.

Lemma missing_source_soft_failure_witness :
  let o := run mountEffect initialComponent inertWorld in
  o = Done initialComponent
        (with_console (console inertWorld ++ [missingSourceWarning]) inertWorld) /\
  audio (worldOf o) = audio inertWorld /\
  (atRest initialComponent inertWorld -> hasAudioContext (graph inertWorld) = true ->
   threw (after o handlePlayPause) = false /\
   isPlaying (stateOf (after o handlePlayPause)) = true /\
   paused (audio (worldOf (after o handlePlayPause))) = false) /\
  (forall v,
     leb (ofZ 0) v = true -> leb v (ofZ 1) = true ->
     volume (stateOf (after o (handleVolumeChange v))) = v /\
     el_volume (audio (worldOf (after o (handleVolumeChange v)))) = v).
Proof.
  apply (missing_source_soft_failure initialComponent inertWorld).
  vm_compute. reflexivity.
Defined.

(* ------------------------------------------------------------------ *)
(** ** More rounding facts: results bounded by an integer *)
(* ------------------------------------------------------------------ *)

(** Rounding a value that is at most the integer [c], itself below
    [2^b], gives a double that is at most [c]. *)
Lemma round_at_most (c b q e : Z) (l : location) :
  0 < c -> 0 <= b <= 53 -> c < 2 ^ b ->
  0 <= q -> e <= 0 -> q <= c * 2 ^ (- e) ->
  (q = c * 2 ^ (- e) -> l = loc_Exact) ->
  atMost c (Z.max e (Z.max (b - 53) (-1074)))
         (binary_round_aux prec emax false q e l) = true.
Proof.
  intros Hc Hb Hcb Hq He Hle Hex. unfold binary_round_aux.
  destruct (shr_fexp_spec q e l Hq) as [He1 Hm1].
  pose proof (Zdigits2_lt_mul q c b (- e) Hq Hc ltac:(lia) ltac:(lia) Hcb Hle) as Hdq.
  pose proof (fexp_le (Zdigits2 q + e) b ltac:(lia)) as Hfq.
  set (top := Z.max e (Z.max (b - 53) (-1074))).
  set (e1 := Z.max e (fexp prec emax (Zdigits2 q + e))) in *.
  assert (He1' : e1 <= top /\ e1 <= 0) by (unfold top; lia).
  assert (Hm1le : q / 2 ^ (e1 - e) <= c * 2 ^ (- e1)).
  { replace (- e1) with (- e - (e1 - e)) by lia. apply div_pow2_le_mul; lia. }
  assert (Hm1pos : 0 <= q / 2 ^ (e1 - e)).
  { apply Z.div_pos; [lia|]. apply Z.pow_pos_nonneg; lia. }
  assert (Hm2 : 0 <= round_nearest_even (shr_m (fst (shr_fexp prec emax q e l)))
                      (loc_of_shr_record (fst (shr_fexp prec emax q e l)))
                 <= c * 2 ^ (- e1)).
  { destruct (Z.eq_dec (q / 2 ^ (e1 - e)) (c * 2 ^ (- e1))) as [Heq|Hne].
    - assert (Hqeq : q = c * 2 ^ (- e)).
      { assert (H : 2 ^ (e1 - e) * (q / 2 ^ (e1 - e)) <= q).
        { apply Z.mul_div_le. apply Z.pow_pos_nonneg; lia. }
        rewrite Heq in H.
        replace (2 ^ (e1 - e) * (c * 2 ^ (- e1)))
          with (c * (2 ^ (e1 - e) * 2 ^ (- e1))) in H by ring.
        rewrite <- Z.pow_add_r in H by lia.
        replace (e1 - e + - e1) with (- e) in H by lia. lia. }
      rewrite (Hex Hqeq), shr_fexp_exact; [| lia |].
      + cbn [shr_m loc_of_shr_record round_nearest_even]. fold e1. lia.
      + fold e1. exists (c * 2 ^ (- e1)). rewrite Hqeq.
        rewrite <- Z.mul_assoc, <- Z.pow_add_r by lia.
        do 2 f_equal. lia.
    - pose proof (round_nearest_even_bounds
                    (shr_m (fst (shr_fexp prec emax q e l)))
                    (loc_of_shr_record (fst (shr_fexp prec emax q e l)))) as Hr.
      set (R := round_nearest_even _ _) in *. rewrite Hm1 in Hr. lia. }
  destruct (shr_fexp prec emax q e l) as [r1 e1'] eqn:E1.
  cbn [fst snd] in *. subst e1'.
  set (m2 := round_nearest_even (shr_m r1) (loc_of_shr_record r1)) in *.
  destruct Hm2 as [Hm2pos Hm2le].
  destruct (shr_fexp_spec m2 e1 loc_Exact Hm2pos) as [He2 Hm3].
  pose proof (Zdigits2_lt_mul m2 c b (- e1) Hm2pos Hc ltac:(lia) ltac:(lia) Hcb Hm2le)
    as Hd2.
  pose proof (fexp_le (Zdigits2 m2 + e1) b ltac:(lia)) as Hf2.
  set (e2 := Z.max e1 (fexp prec emax (Zdigits2 m2 + e1))) in *.
  assert (He2' : e2 <= top /\ e2 <= 0) by (unfold top in *; lia).
  assert (Hm3le : m2 / 2 ^ (e2 - e1) <= c * 2 ^ (- e2)).
  { replace (- e2) with (- e1 - (e2 - e1)) by lia. apply div_pow2_le_mul; lia. }
  assert (Hm3pos : 0 <= m2 / 2 ^ (e2 - e1)).
  { apply Z.div_pos; [lia|]. apply Z.pow_pos_nonneg; lia. }
  destruct (shr_fexp prec emax m2 e1 loc_Exact) as [r2 e2'] eqn:E2.
  cbn [fst snd] in *. subst e2'. rewrite <- Hm3 in *.
  destruct (shr_m r2) as [|p|p]; [reflexivity| |lia].
  replace (e2 <=? emax - prec) with true
    by (symmetry; apply Z.leb_le; unfold emax, prec; lia).
  cbn [atMost]. rewrite !andb_true_iff. repeat split; apply Z.leb_le; lia.
Qed.

(** A position that is not beyond the duration, divided by the
    duration, is at most one. *)
Lemma fdiv_le_at_most_one (t d : number) :
  valid t = true -> valid d = true ->
  leb (ofZ 0) t = true -> leb t d = true -> isFinite d = true ->
  leb d (ofZ 0) = false ->
  atMostOne (fdiv t d) = true.
Proof.
  intros Ht Hd H0 Hle Hfin Hpos.
  destruct d as [sd|sd| |[] md ed]; try discriminate Hfin; try discriminate Hpos.
  destruct t as [st|[]| |[] mt et]; try discriminate H0; try discriminate Hle;
    [reflexivity|].
  apply leb_finite in Hle.
  destruct (valid_exponent _ _ _ Ht) as [Hte _].
  destruct (valid_exponent _ _ _ Hd) as [_ Hdn].
  destruct (valid_digits false mt et Ht) as [_ Hmt].
  unfold fdiv. apply div_core_at_most_one; cbv zeta.
  - lia.
  - set (e' := Z.min _ _). assert (He' : e' <= et - ed) by (unfold e'; lia).
    destruct Hle as [Hlt|[-> Hm]].
    + specialize (Hdn ltac:(lia)).
      replace (- e') with (et - ed - e' + (ed - et)) by lia.
      rewrite Z.pow_add_r by lia.
      assert (0 < 2 ^ (et - ed - e')) by (apply Z.pow_pos_nonneg; lia).
      assert (2 ^ 1 <= 2 ^ (ed - et)) by (apply Z.pow_le_mono_r; lia).
      change (2 ^ 1) with 2 in *.
      change (2 ^ 53) with (2 * 2 ^ 52) in Hmt.
      set (P := 2 ^ 52) in *. set (A := 2 ^ (et - ed - e')) in *.
      set (B := 2 ^ (ed - et)) in *.
      assert (Hstep : Z.pos mt <= Z.pos md * B).
      { assert (0 <= Z.pos md * (B - 2)) by (apply Z.mul_nonneg_nonneg; lia). lia. }
      replace (Z.pos md * (A * B)) with (Z.pos md * B * A) by ring.
      apply Z.mul_le_mono_nonneg_r; lia.
    + replace (ed - ed - e') with (- e') by lia.
      apply Z.mul_le_mono_nonneg_r; [apply Z.pow_nonneg; lia | exact Hm].
Qed.

(** A factor that is at most one, times 100, lies between 0 and 100. *)
Lemma fmul_100_range (x : number) :
  atMostOne x = true ->
  isFinite (fmul x (ofZ 100)) = true /\
  leb (ofZ 0) (fmul x (ofZ 100)) = true /\
  leb (fmul x (ofZ 100)) (ofZ 100) = true.
Proof.
  intros Hx.
  destruct x as [[]| | |[] mx ex]; try discriminate Hx;
    try (repeat split; auto; reflexivity).
  cbn [atMostOne] in Hx. rewrite !andb_true_iff in Hx.
  destruct Hx as [[He Hm] _]. apply Z.leb_le in He. apply Z.leb_le in Hm.
  change (ofZ 100) with (S754_finite false 7036874417766400 (-46)).
  unfold fmul. cbn [SFmul xorb].
  assert (Hr : atMost 100 (Z.max (ex + -46) (Z.max (7 - 53) (-1074)))
                 (binary_round_aux prec emax false
                    (Z.pos (mx * 7036874417766400)) (ex + -46) loc_Exact) = true).
  { apply (round_at_most 100 7);
      [lia | lia | reflexivity | lia | lia | | intros _; reflexivity].
    rewrite Pos2Z.inj_mul.
    replace (- (ex + -46)) with (46 + - ex) by lia.
    rewrite Z.pow_add_r by lia.
    change (Z.pos 7036874417766400) with (100 * 2 ^ 46).
    assert (0 < 2 ^ 46) by reflexivity. set (Q := 2 ^ 46) in *. nia. }
  destruct (binary_round_aux prec emax false (Z.pos (mx * 7036874417766400))
              (ex + -46) loc_Exact) as [[]| | |[] m e]; try discriminate Hr;
    try (repeat split; auto; reflexivity).
  cbn [atMost] in Hr. rewrite !andb_true_iff in Hr.
  destruct Hr as [[He0 Htop] Hle].
  apply Z.leb_le in He0. apply Z.leb_le in Htop. apply Z.leb_le in Hle.
  assert (Hleb : leb (S754_finite false m e) (S754_finite false 7036874417766400 (-46)) = true).
  { apply leb_finite. destruct (Z.eq_dec e (-46)) as [->|Hne]; [right|left; lia].
    split; [reflexivity|]. exact Hle. }
  repeat split; auto.
Qed.

(** A positive finite double divided by itself is one. *)
Lemma fdiv_self (m : positive) (e : Z) :
  fdiv (S754_finite false m e) (S754_finite false m e) = ofZ 1.
Proof.
  unfold fdiv. cbn [SFdiv xorb]. unfold SFdiv_core_binary.
  replace (Zdigits2 (Z.pos m) + e - (Zdigits2 (Z.pos m) + e)) with 0 by lia.
  rewrite Z.sub_diag.
  change (Z.min (fexp prec emax 0) 0) with (-53).
  change (0 - -53) with 53.
  cbv iota.
  pose proof (Z_div_mod (Z.shiftl (Z.pos m) 53) (Z.pos m) ltac:(lia)) as H.
  destruct (Z.div_eucl (Z.shiftl (Z.pos m) 53) (Z.pos m)) as [q r].
  rewrite Z.shiftl_mul_pow2 in H by lia. destruct H as [Heq Hr].
  assert (Hq : q = 2 ^ 53) by nia. assert (Hr0 : r = 0) by nia. subst q r.
  rewrite new_location_zero. reflexivity.
Qed.

(* ------------------------------------------------------------------ *)
(** ** Events delivered to the registered listeners *)
(* ------------------------------------------------------------------ *)

Lemma runListeners_closed (ev : string) (ls : list (string * listener)) :
  forall c w,
    runListeners ev ls (c, w)
    = (inr tt,
       ((if hears ev OnEnded ls then withIsPlaying false else id)
          ((if hears ev OnTimeupdate ls
            then withProgress (progressOf (audio w)) else id) c),
        w)).
Proof.
  induction ls as [|[ev' l] ls IH]; intros c w; [reflexivity|].
  cbn [runListeners]. unfold bind, when. unfold hears. cbn [existsb fst snd].
  fold (hears ev OnEnded ls). fold (hears ev OnTimeupdate ls).
  destruct (String.eqb ev ev'); cbn [andb orb].
  - destruct l; cbn [listener_eqb orb runListener].
    + unfold getAudio, getWorld, setProgress, setState. unfold bind, ret.
      cbn [fst snd]. rewrite IH. fold (progressOf (audio w)).
      destruct (hears ev OnEnded ls), (hears ev OnTimeupdate ls);
        destruct c; reflexivity.
    + unfold setIsPlaying, setState. cbn [fst snd]. rewrite IH.
      destruct (hears ev OnEnded ls), (hears ev OnTimeupdate ls);
        destruct c; reflexivity.
  - unfold ret. rewrite IH. reflexivity.
Qed.

Lemma dispatchEvent_run (ev : string) (c : Component) (w : World) :
  run (dispatchEvent ev) c w
  = Done ((if hears ev OnEnded (listeners (audio w)) then withIsPlaying false else id)
            ((if hears ev OnTimeupdate (listeners (audio w))
              then withProgress (progressOf (audio w)) else id) c))
         w.
Proof.
  unfold run, dispatchEvent, getAudio, getWorld. unfold bind, ret. cbn [fst snd].
  now rewrite runListeners_closed.
Qed.

Lemma hears_app (ev : string) (l : listener) (ls1 ls2 : list (string * listener)) :
  hears ev l (ls1 ++ ls2) = hears ev l ls1 || hears ev l ls2.
Proof. unfold hears. apply existsb_app. Qed.

(* ------------------------------------------------------------------ *)
(** ** The mount effect with a track in storage *)
(* ------------------------------------------------------------------ *)

Lemma truthy_Some (o : option string) :
  truthy o = true -> exists url, o = Some url /\ url <> EmptyString.
Proof.
  destruct o as [[|a s]|]; intros H; try discriminate H.
  exists (String a s). split; [reflexivity | discriminate].
Qed.

Lemma mountEffect_run (c : Component) (w : World) (url : string) :
  localStorage w !! audioSrcKey = Some url -> truthy (Some url) = true ->
  leb (ofZ 0) (volume c) = true -> leb (volume c) (ofZ 1) = true ->
  run mountEffect c w
  = Done c (with_audio
              (withListener "ended" OnEnded
                 (withListener "timeupdate" OnTimeupdate
                    (withControls false
                       (withElVolume (volume c) (loadSrc url (audio w))))))
              w).
Proof.
  intros Hurl Ht H0 H1. step_monad. cbn [fst snd]. rewrite Hurl, Ht.
  cbn [negb fst snd]. rewrite (unit_interval_finite _ H0 H1), H0, H1.
  cbn [negb andb fst snd with_audio audio default from_option]. unfold id.
  destruct w; reflexivity.
Qed.

(** X1. Mounting twice on the same element, as a development build does,
    registers both listeners a second time and changes nothing else;
    the state after any event is the same as after one mount. *)
Theorem double_mount_harmless (c : Component) (w : World) (url : string) :
  localStorage w !! audioSrcKey = Some url -> truthy (Some url) = true ->
  leb (ofZ 0) (volume c) = true -> leb (volume c) (ofZ 1) = true ->
  let o1 := run mountEffect c w in
  let o2 := after o1 mountEffect in
  threw o1 = false /\ threw o2 = false /\
  stateOf o1 = c /\ stateOf o2 = c /\
  console (worldOf o2) = console w /\
  src (audio (worldOf o1)) = url /\ src (audio (worldOf o2)) = url /\
  el_volume (audio (worldOf o2)) = volume c /\
  listeners (audio (worldOf o1)) = listeners (audio w) ++ mountedListeners /\
  listeners (audio (worldOf o2))
    = (listeners (audio w) ++ mountedListeners) ++ mountedListeners /\
  forall ev c',
    run (dispatchEvent ev) c' (worldOf o2)
    = Done (stateOf (run (dispatchEvent ev) c' (worldOf o1))) (worldOf o2).
Proof.
  intros Hurl Ht H0 H1. cbv zeta. unfold after.
  rewrite (mountEffect_run c w url Hurl Ht H0 H1). cbn [stateOf worldOf].
  match goal with |- context [run mountEffect c (with_audio ?a w)] =>
    rewrite (mountEffect_run c (with_audio a w) url Hurl Ht H0 H1) end.
  cbn [threw stateOf worldOf with_audio audio console withListener withControls
       withElVolume loadSrc src el_volume listeners volume].
  rewrite <- !app_assoc.
  repeat (split; [reflexivity|]).
  intros ev c'. rewrite !dispatchEvent_run.
  cbn [stateOf with_audio audio withListener withControls withElVolume loadSrc
       listeners].
  rewrite <- !app_assoc. rewrite !hears_app.
  unfold progressOf. cbn [currentTime duration].
  destruct (hears ev OnEnded (listeners (audio w))),
           (hears ev OnTimeupdate (listeners (audio w))),
           (hears ev OnEnded [("timeupdate"%string, OnTimeupdate)]),
           (hears ev OnEnded [("ended"%string, OnEnded)]),
           (hears ev OnTimeupdate [("timeupdate"%string, OnTimeupdate)]),
           (hears ev OnTimeupdate [("ended"%string, OnEnded)]);
    reflexivity.
Qed.

Lemma double_mount_harmless_witness :
  let o1 := run mountEffect initialComponent restWorld in
  let o2 := after o1 mountEffect in
  threw o1 = false /\ threw o2 = false /\
  stateOf o1 = initialComponent /\ stateOf o2 = initialComponent /\
  console (worldOf o2) = console restWorld /\
  src (audio (worldOf o1)) = "blob:generated-track"%string /\
  src (audio (worldOf o2)) = "blob:generated-track"%string /\
  el_volume (audio (worldOf o2)) = volume initialComponent /\
  listeners (audio (worldOf o1)) = listeners (audio restWorld) ++ mountedListeners /\
  listeners (audio (worldOf o2))
    = (listeners (audio restWorld) ++ mountedListeners) ++ mountedListeners /\
  forall ev c',
    run (dispatchEvent ev) c' (worldOf o2)
    = Done (stateOf (run (dispatchEvent ev) c' (worldOf o1))) (worldOf o2).
Proof.
  apply (double_mount_harmless initialComponent restWorld "blob:generated-track");
    vm_compute; reflexivity.
Defined.

(* ------------------------------------------------------------------ *)
(** ** The [timeupdate] listener *)
(* ------------------------------------------------------------------ *)

(** X2. With the [timeupdate] listener registered, a position between 0
    and a positive finite duration gives a progress that is a finite
    number between 0 and 100; the event does not throw and leaves the
    browser alone. *)
Theorem timeupdate_progress_range (c : Component) (w : World) :
  hears "timeupdate" OnTimeupdate (listeners (audio w)) = true ->
  valid (currentTime (audio w)) = true -> valid (duration (audio w)) = true ->
  leb (ofZ 0) (currentTime (audio w)) = true ->
  leb (currentTime (audio w)) (duration (audio w)) = true ->
  isFinite (duration (audio w)) = true ->
  leb (duration (audio w)) (ofZ 0) = false ->
  let o := run (dispatchEvent "timeupdate") c w in
  threw o = false /\ worldOf o = w /\
  progress (stateOf o) = progressOf (audio w) /\
  isFinite (progress (stateOf o)) = true /\
  leb (ofZ 0) (progress (stateOf o)) = true /\
  leb (progress (stateOf o)) (ofZ 100) = true.
Proof.
  intros Hh Hvt Hvd H0 Hle Hfin Hpos. cbv zeta.
  rewrite dispatchEvent_run, Hh. cbn [threw worldOf stateOf].
  assert (Hp : progress
                 ((if hears "timeupdate" OnEnded (listeners (audio w))
                   then withIsPlaying false else id)
                    (withProgress (progressOf (audio w)) c))
               = progressOf (audio w)).
  { destruct (hears "timeupdate" OnEnded (listeners (audio w))); reflexivity. }
  rewrite Hp. unfold progressOf.
  pose proof (fmul_100_range _ (fdiv_le_at_most_one _ _ Hvt Hvd H0 Hle Hfin Hpos))
    as (Hf & Hlo & Hhi).
  repeat split; assumption.
Qed.

Lemma timeupdate_progress_range_witness :
  let w := with_audio (withCurrentTime (ofZ 45)
                         (audio (metadataLoaded (ofZ 180)
                                   (worldOf (run mountEffect initialComponent restWorld)))))
                      (metadataLoaded (ofZ 180)
                         (worldOf (run mountEffect initialComponent restWorld))) in
  let o := run (dispatchEvent "timeupdate") initialComponent w in
  threw o = false /\ worldOf o = w /\
  progress (stateOf o) = progressOf (audio w) /\
  isFinite (progress (stateOf o)) = true /\
  leb (ofZ 0) (progress (stateOf o)) = true /\
  leb (progress (stateOf o)) (ofZ 100) = true.
Proof.
  apply (timeupdate_progress_range initialComponent
           (with_audio (withCurrentTime (ofZ 45)
                          (audio (metadataLoaded (ofZ 180)
                                    (worldOf (run mountEffect initialComponent restWorld)))))
                       (metadataLoaded (ofZ 180)
                          (worldOf (run mountEffect initialComponent restWorld)))));
    vm_compute; reflexivity.
Defined.

(** X3. While the duration is unknown (NaN) or zero, a [timeupdate] sets
    the progress to a value that is not a finite number. *)
Theorem timeupdate_without_duration (c : Component) (w : World) :
  hears "timeupdate" OnTimeupdate (listeners (audio w)) = true ->
  isFinite (currentTime (audio w)) = true ->
  (duration (audio w) = NaN \/ exists s, duration (audio w) = S754_zero s) ->
  let o := run (dispatchEvent "timeupdate") c w in
  threw o = false /\
  isFinite (progress (stateOf o)) = false /\
  (duration (audio w) = NaN -> progress (stateOf o) = NaN).
Proof.
  intros Hh Hct Hd. cbv zeta. rewrite dispatchEvent_run, Hh.
  cbn [threw stateOf].
  assert (Hp : progress
                 ((if hears "timeupdate" OnEnded (listeners (audio w))
                   then withIsPlaying false else id)
                    (withProgress (progressOf (audio w)) c))
               = progressOf (audio w)).
  { destruct (hears "timeupdate" OnEnded (listeners (audio w))); reflexivity. }
  rewrite Hp. unfold progressOf. split; [reflexivity|]. split.
  - destruct Hd as [->|[s ->]];
      destruct (currentTime (audio w)) as [[]|[]| |[] m e];
      try discriminate Hct; try destruct s; reflexivity.
  - intros ->. destruct (currentTime (audio w)); reflexivity.
Qed.

Lemma timeupdate_without_duration_witness :
  let w := worldOf (run mountEffect initialComponent restWorld) in
  let o := run (dispatchEvent "timeupdate") initialComponent w in
  threw o = false /\
  isFinite (progress (stateOf o)) = false /\
  (duration (audio w) = NaN -> progress (stateOf o) = NaN).
Proof.
  apply (timeupdate_without_duration initialComponent
           (worldOf (run mountEffect initialComponent restWorld))).
  - vm_compute. reflexivity.
  - vm_compute. reflexivity.
  - left. vm_compute. reflexivity.
Defined.

(** X4. Seeking to the end and then receiving a [timeupdate] gives a
    progress of exactly 100, and seeking to the start gives exactly 0,
    for every positive finite duration. *)
Theorem seek_boundary_round_trip (c : Component) (w : World)
    (m : positive) (e : Z) :
  hears "timeupdate" OnTimeupdate (listeners (audio w)) = true ->
  duration (audio w) = S754_finite false m e ->
  valid (S754_finite false m e) = true ->
  let atEnd := after (run (handleProgressChange (ofZ 100)) c w)
                     (dispatchEvent "timeupdate") in
  let atStart := after (run (handleProgressChange (ofZ 0)) c w)
                       (dispatchEvent "timeupdate") in
  threw atEnd = false /\ progress (stateOf atEnd) = ofZ 100 /\
  currentTime (audio (worldOf atEnd)) = S754_finite false m e /\
  threw atStart = false /\ progress (stateOf atStart) = ofZ 0 /\
  currentTime (audio (worldOf atStart)) = ofZ 0.
Proof.
  intros Hh HD Hv. cbv zeta. unfold after.
  rewrite !handleProgressChange_run, HD.
  change (fdiv (ofZ 100) (ofZ 100)) with (ofZ 1).
  rewrite (fmul_one_l _ Hv).
  change (fdiv (ofZ 0) (ofZ 100)) with (ofZ 0).
  change (fmul (ofZ 0) (S754_finite false m e)) with (ofZ 0).
  change (isFinite (ofZ 0)) with true.
  rewrite (seekPosition_within (S754_finite false m e) _ eq_refl
             (leb_refl_finite m e)).
  rewrite (seekPosition_within (ofZ 0) (S754_finite false m e) eq_refl eq_refl).
  cbn [isFinite stateOf worldOf].
  rewrite !dispatchEvent_run.
  cbn [with_audio audio withCurrentTime listeners]. rewrite Hh.
  unfold progressOf. cbn [currentTime duration withCurrentTime]. rewrite HD.
  rewrite fdiv_self.
  change (fmul (ofZ 1) (ofZ 100)) with (ofZ 100).
  change (fmul (fdiv (ofZ 0) (S754_finite false m e)) (ofZ 100)) with (ofZ 0).
  cbn [threw stateOf worldOf with_audio audio currentTime].
  destruct (hears "timeupdate" OnEnded (listeners (audio w)));
    repeat split; reflexivity.
Qed.

Lemma seek_boundary_round_trip_witness :
  let w := metadataLoaded (ofZ 180)
             (worldOf (run mountEffect initialComponent restWorld)) in
  let atEnd := after (run (handleProgressChange (ofZ 100)) initialComponent w)
                     (dispatchEvent "timeupdate") in
  let atStart := after (run (handleProgressChange (ofZ 0)) initialComponent w)
                       (dispatchEvent "timeupdate") in
  threw atEnd = false /\ progress (stateOf atEnd) = ofZ 100 /\
  currentTime (audio (worldOf atEnd)) = ofZ 180 /\
  threw atStart = false /\ progress (stateOf atStart) = ofZ 0 /\
  currentTime (audio (worldOf atStart)) = ofZ 0.
Proof.
  apply (seek_boundary_round_trip initialComponent
           (metadataLoaded (ofZ 180)
              (worldOf (run mountEffect initialComponent restWorld)))
           6333186975989760 (-45));
    vm_compute; reflexivity.
Defined.

(* ------------------------------------------------------------------ *)
(** ** The volume handler outside its range *)
(* ------------------------------------------------------------------ *)

(** X5. For a value outside [0,1] the volume handler throws (a TypeError
    for NaN and the infinities, an IndexSizeError otherwise) and the
    element keeps its volume, but the volume cell already holds the
    rejected value. *)
Theorem volume_out_of_range (v : number) (c : Component) (w : World) :
  leb (ofZ 0) v && leb v (ofZ 1) = false ->
  let o := run (handleVolumeChange v) c w in
  o = Threw (if isFinite v then IndexSizeError else TypeError) (withVolume v c) w /\
  el_volume (audio (worldOf o)) = el_volume (audio w) /\
  volume (stateOf o) = v.
Proof.
  intros Hr. cbv zeta. step_monad. cbn [fst snd].
  destruct (isFinite v) eqn:Hf; cbn [negb].
  - rewrite Hr. repeat split; reflexivity.
  - repeat split; reflexivity.
Qed.

Lemma volume_out_of_range_witness :
  let o := run (handleVolumeChange (ofDecimal 15 1)) initialComponent restWorld in
  o = Threw IndexSizeError (withVolume (ofDecimal 15 1) initialComponent) restWorld /\
  el_volume (audio (worldOf o)) = el_volume (audio restWorld) /\
  volume (stateOf o) = ofDecimal 15 1.
Proof.
  apply (volume_out_of_range (ofDecimal 15 1) initialComponent restWorld).
  vm_compute. reflexivity.
Defined.

(* ------------------------------------------------------------------ *)
(** ** The tap over arbitrary sequences of events *)
(* ------------------------------------------------------------------ *)

(** The first successful call, whatever [isPlaying] was. *)
Lemma handlePlayPause_untapped (c : Component) (w : World) :
  audioCtx c = None -> hasAudioContext (graph w) = true ->
  contextsCreated (graph w) = 0%nat -> analysers (graph w) = [] ->
  mediaSources (graph w) = [] ->
  let o := run handlePlayPause c w in
  threw o = false /\
  isPlaying (stateOf o) = negb (isPlaying c) /\
  paused (audio (worldOf o)) = isPlaying c /\
  audioCtx (stateOf o) = Some 0%nat /\
  contextsCreated (graph (worldOf o)) = 1%nat /\
  analysers (graph (worldOf o)) = [silentAnalyser 256] /\
  mediaSources (graph (worldOf o)) = [0%nat] /\
  document (worldOf o) = document w /\
  renderers (worldOf o)
    = match visualize (innerWidth w) (canvas w) 0 (silentAnalyser 256) with
      | Some (_, r) => renderers w ++ [r]
      | None => renderers w
      end.
Proof.
  intros Hc Hapi Hn Ha Hs.
  destruct w as [st au cv iw g rs co doc]. destruct g as [api n an ms cn].
  destruct c as [ac an' so pl vo pr].
  cbn in Hc, Hn, Ha, Hs, Hapi. subst.
  step_monad. cbn.
  destruct (visualize iw cv 0 (silentAnalyser 256)) as [[cv' r]|];
    destruct pl; cbn; repeat split; reflexivity.
Qed.

(** Without the platform constructor the handler stops at once. *)
Lemma handlePlayPause_no_api (c : Component) (w : World) :
  audioCtx c = None -> hasAudioContext (graph w) = false ->
  run handlePlayPause c w = Threw TypeError c w.
Proof.
  intros Hc Hapi. step_monad. rewrite Hc. cbn [isNull fst snd].
  rewrite Hapi. destruct c, w; reflexivity.
Qed.

Lemma handleVolumeChange_frame (v : number) (c : Component) (w : World) :
  let o := run (handleVolumeChange v) c w in
  benign o = true /\ audioCtx (stateOf o) = audioCtx c /\
  graph (worldOf o) = graph w /\ renderers (worldOf o) = renderers w /\
  document (worldOf o) = document w /\ canvas (worldOf o) = canvas w.
Proof.
  cbv zeta. step_monad. cbn [fst snd].
  destruct (isFinite v); cbn [negb]; [|repeat split; reflexivity].
  destruct (leb (ofZ 0) v && leb v (ofZ 1)); repeat split; reflexivity.
Qed.

Lemma handleProgressChange_frame (v : number) (c : Component) (w : World) :
  let o := run (handleProgressChange v) c w in
  benign o = true /\ audioCtx (stateOf o) = audioCtx c /\
  graph (worldOf o) = graph w /\ renderers (worldOf o) = renderers w /\
  document (worldOf o) = document w /\ canvas (worldOf o) = canvas w.
Proof.
  cbv zeta. rewrite handleProgressChange_run.
  destruct (isFinite _); repeat split; reflexivity.
Qed.

Lemma dispatchEvent_frame (ev : string) (c : Component) (w : World) :
  let o := run (dispatchEvent ev) c w in
  threw o = false /\ audioCtx (stateOf o) = audioCtx c /\ worldOf o = w.
Proof.
  cbv zeta. rewrite dispatchEvent_run. cbn [threw stateOf worldOf].
  destruct (hears ev OnEnded _), (hears ev OnTimeupdate _); repeat split; reflexivity.
Qed.

Lemma handleDownload_frame (c : Component) (w : World) :
  wfDocument (document w) ->
  let o := run handleDownload c w in
  threw o = false /\ stateOf o = c /\
  graph (worldOf o) = graph w /\ renderers (worldOf o) = renderers w /\
  canvas (worldOf o) = canvas w /\ audio (worldOf o) = audio w /\
  localStorage (worldOf o) = localStorage w /\
  children (document (worldOf o)) = children (document w) /\
  wfDocument (document (worldOf o)) /\
  nextId (document (worldOf o))
    = (nextId (document w)
       + (if truthy (localStorage w !! audioSrcKey) then 1 else 0))%nat /\
  downloads (document (worldOf o))
    = downloads (document w)
      ++ (if truthy (localStorage w !! audioSrcKey)
          then [(default EmptyString (localStorage w !! audioSrcKey), downloadName)]
          else []).
Proof.
  intros Hwf. cbv zeta.
  destruct (truthy (localStorage w !! audioSrcKey)) eqn:Ht.
  - assert (Hfresh : Forall (fun e => (el_id e < nextId (document w))%nat)
                            (children (document w))) by exact Hwf.
    step_monad. cbn [snd fst]. rewrite Ht.
    cbn [snd fst with_document document children nextId downloads el_id tag
         href download].
    set (a := {| el_id := nextId (document w); tag := "a";
                 href := default EmptyString (localStorage w !! audioSrcKey);
                 download := downloadName |}).
    rewrite (filter_fresh a _ Hfresh), existsb_app_self.
    cbn [snd fst with_document document children nextId downloads].
    rewrite (filter_app_self a _ Hfresh).
    cbn [stateOf worldOf threw document with_document children downloads audio
         graph renderers canvas localStorage href download a nextId].
    repeat split; try reflexivity; try lia.
    unfold wfDocument. cbn [children nextId].
    eapply Forall_impl; [exact Hfresh|]. cbn. intros e He. lia.
  - step_monad. cbn [snd fst]. rewrite Ht. cbn [threw stateOf worldOf].
    rewrite app_nil_r. repeat split; try reflexivity; try lia. exact Hwf.
Qed.

Lemma step_keeps_tap (e : playerEvent) (c : Component) (w : World) :
  tapInvariant c w ->
  let o := run (handle e) c w in
  benign o = true /\ tapInvariant (stateOf o) (worldOf o).
Proof.
  intros [Hwf Htap]. cbv zeta. destruct e as [[|v|p|]|ev]; cbn [handle handler].
  - (* play/pause *)
    destruct (audioCtx c) as [k|] eqn:Hc.
    + rewrite (handlePlayPause_tapped c w k Hc). split; [reflexivity|].
      split; [exact Hwf|]. cbn [stateOf worldOf withIsPlaying audioCtx].
      rewrite Hc. exact Htap.
    + destruct Htap as (Hn & Ha & Hs & Hr).
      destruct (hasAudioContext (graph w)) eqn:Hapi.
      * destruct (handlePlayPause_untapped c w Hc Hapi Hn Ha Hs)
          as (Ht & _ & _ & Hc' & Hn' & Ha' & Hs' & Hd' & Hr').
        cbv zeta in *.
        destruct (run handlePlayPause c w) as [c1 w1|x c1 w1]; [|discriminate Ht].
        cbn [stateOf worldOf] in *. split; [reflexivity|].
        split; [rewrite Hd'; exact Hwf|]. rewrite Hc'.
        rewrite Hn', Ha', Hs', Hr', Hr.
        repeat split; try reflexivity.
        destruct (visualize _ _ _ _) as [[cv r]|]; cbn; lia.
      * rewrite (handlePlayPause_no_api c w Hc Hapi). split; [reflexivity|].
        split; [exact Hwf|]. cbn [stateOf worldOf]. rewrite Hc. auto.
  - destruct (handleVolumeChange_frame v c w) as (Hb & Hc & Hg & Hr & Hd & _).
    cbv zeta in *. split; [exact Hb|]. split; [rewrite Hd; exact Hwf|].
    rewrite Hc, Hg, Hr. exact Htap.
  - destruct (handleProgressChange_frame p c w) as (Hb & Hc & Hg & Hr & Hd & _).
    cbv zeta in *. split; [exact Hb|]. split; [rewrite Hd; exact Hwf|].
    rewrite Hc, Hg, Hr. exact Htap.
  - destruct (handleDownload_frame c w Hwf)
      as (Ht & Hc & Hg & Hr & _ & _ & _ & _ & Hwf' & _ & _).
    cbv zeta in *. split.
    + destruct (run handleDownload c w); [reflexivity | discriminate Ht].
    + split; [exact Hwf'|]. rewrite Hc, Hg, Hr. exact Htap.
  - destruct (dispatchEvent_frame ev c w) as (Ht & Hc & Hw).
    cbv zeta in *. split.
    + destruct (run (dispatchEvent ev) c w); [reflexivity | discriminate Ht].
    + unfold tapInvariant. rewrite Hc, Hw. split; assumption.
Qed.

Lemma runEvents_snoc (es : list playerEvent) (e : playerEvent) (o : outcome) :
  runEvents (es ++ [e]) o = after (runEvents es o) (handle e).
Proof. unfold runEvents. now rewrite fold_left_app. Qed.

(** X6. Whatever the user does and whatever the element fires, in any
    order and however often, a player that starts with nothing built
    never has more than one audio context, analyser, media element
    source and render loop, and no handler ever fails on the audio
    graph or the document (no InvalidStateError, no NotFoundError). *)
Theorem tap_built_at_most_once (es : list playerEvent) (c : Component) (w : World) :
  tapInvariant c w ->
  let o := runEvents es (Done c w) in
  benign o = true /\
  tapInvariant (stateOf o) (worldOf o) /\
  (contextsCreated (graph (worldOf o)) <= 1)%nat /\
  (length (analysers (graph (worldOf o))) <= 1)%nat /\
  (length (mediaSources (graph (worldOf o))) <= 1)%nat /\
  (length (renderers (worldOf o)) <= 1)%nat.
Proof.
  intros Hinv. cbv zeta.
  assert (H : benign (runEvents es (Done c w)) = true /\
              tapInvariant (stateOf (runEvents es (Done c w)))
                           (worldOf (runEvents es (Done c w)))).
  { induction es as [|e es IH] using rev_ind.
    - split; [reflexivity | exact Hinv].
    - rewrite runEvents_snoc. destruct IH as [_ IH].
      apply (step_keeps_tap e _ _ IH). }
  destruct H as [Hb Hi]. split; [exact Hb|]. split; [exact Hi|].
  destruct Hi as [_ Hi].
  destruct (audioCtx (stateOf (runEvents es (Done c w)))).
  - destruct Hi as (-> & -> & -> & Hr). repeat split; lia.
  - destruct Hi as (-> & -> & -> & ->). cbn. repeat split; lia.
Qed.

Lemma tap_built_at_most_once_witness :
  let es := [Act TogglePlayPause; Fire "ended"; Act (Seek (percentOf 50));
             Act TogglePlayPause; Act Download; Act (SetVolume (volumeStep 15));
             Fire "timeupdate"; Act TogglePlayPause] in
  let o := runEvents es (Done initialComponent restWorld) in
  benign o = true /\
  tapInvariant (stateOf o) (worldOf o) /\
  (contextsCreated (graph (worldOf o)) <= 1)%nat /\
  (length (analysers (graph (worldOf o))) <= 1)%nat /\
  (length (mediaSources (graph (worldOf o))) <= 1)%nat /\
  (length (renderers (worldOf o)) <= 1)%nat.
Proof.
  apply (tap_built_at_most_once
           [Act TogglePlayPause; Fire "ended"; Act (Seek (percentOf 50));
            Act TogglePlayPause; Act Download; Act (SetVolume (volumeStep 15));
            Fire "timeupdate"; Act TogglePlayPause]
           initialComponent restWorld).
  split; [constructor | repeat split].
Defined.

(** Every event leaves a tapped player tapped, with the same audio
    graph, the same render loops and the same canvas reference. *)
Lemma handleDownload_frame_any (c : Component) (w : World) :
  let o := run handleDownload c w in
  threw o = false /\ stateOf o = c /\
  graph (worldOf o) = graph w /\ renderers (worldOf o) = renderers w /\
  canvas (worldOf o) = canvas w /\ audio (worldOf o) = audio w.
Proof.
  cbv zeta. step_monad. cbn [snd fst].
  destruct (truthy (localStorage w !! audioSrcKey)).
  - cbn [snd fst with_document document children nextId downloads].
    rewrite existsb_app_self. repeat split; reflexivity.
  - repeat split; reflexivity.
Qed.

Lemma tapped_step_frame (e : playerEvent) (c : Component) (w : World) (k : nat) :
  audioCtx c = Some k ->
  let o := run (handle e) c w in
  audioCtx (stateOf o) = Some k /\ graph (worldOf o) = graph w /\
  renderers (worldOf o) = renderers w /\ canvas (worldOf o) = canvas w.
Proof.
  intros Hc. cbv zeta. destruct e as [[|v|p|]|ev]; cbn [handle handler].
  - rewrite (handlePlayPause_tapped c w k Hc). repeat split; try reflexivity.
    exact Hc.
  - destruct (handleVolumeChange_frame v c w) as (_ & H1 & H2 & H3 & _ & H4).
    cbv zeta in *. rewrite H1, H2, H3, H4. auto.
  - destruct (handleProgressChange_frame p c w) as (_ & H1 & H2 & H3 & _ & H4).
    cbv zeta in *. rewrite H1, H2, H3, H4. auto.
  - destruct (handleDownload_frame_any c w) as (_ & H1 & H2 & H3 & H4 & _).
    cbv zeta in *. rewrite H1, H2, H3, H4. auto.
  - destruct (dispatchEvent_frame ev c w) as (_ & H1 & H2).
    cbv zeta in *. rewrite H1, H2. auto.
Qed.

(** X7. If the canvas is not there at the first play/pause, the tap is
    built and playback starts, but no render loop is started then or
    by any later event: the visualizer stays off for good. *)
Theorem no_canvas_no_render_loop (es : list playerEvent) (c : Component) (w : World) :
  audioCtx c = None -> hasAudioContext (graph w) = true ->
  contextsCreated (graph w) = 0%nat -> analysers (graph w) = [] ->
  mediaSources (graph w) = [] -> renderers w = [] -> canvas w = None ->
  let o1 := run handlePlayPause c w in
  let o := runEvents es o1 in
  threw o1 = false /\ isPlaying (stateOf o1) = negb (isPlaying c) /\
  contextsCreated (graph (worldOf o1)) = 1%nat /\
  renderers (worldOf o1) = [] /\
  renderers (worldOf o) = [] /\ graph (worldOf o) = graph (worldOf o1).
Proof.
  intros Hc Hapi Hn Ha Hs Hr Hcv. cbv zeta.
  destruct (handlePlayPause_untapped c w Hc Hapi Hn Ha Hs)
    as (Ht & Hp & _ & Hc' & Hn' & _ & _ & _ & Hr').
  cbv zeta in *. rewrite Hcv in Hr'. cbn [visualize] in Hr'. rewrite Hr in Hr'.
  refine (conj Ht (conj Hp (conj Hn' (conj Hr' _)))).
  destruct (run handlePlayPause c w) as [c1 w1|x c1 w1]; [|discriminate Ht].
  cbn [stateOf worldOf] in *.
  assert (H : audioCtx (stateOf (runEvents es (Done c1 w1))) = Some 0%nat /\
              graph (worldOf (runEvents es (Done c1 w1))) = graph w1 /\
              renderers (worldOf (runEvents es (Done c1 w1))) = renderers w1).
  { induction es as [|e es IH] using rev_ind.
    - repeat split; auto.
    - rewrite runEvents_snoc. destruct IH as (I1 & I2 & I3).
      destruct (tapped_step_frame e _ (worldOf (runEvents es (Done c1 w1))) _ I1)
        as (J1 & J2 & J3 & _).
      cbv zeta in *. unfold after. rewrite J1, J2, J3, I2, I3. auto. }
  destruct H as (_ & Hg & Hrs). rewrite Hrs, Hr', Hg. auto.
Qed.

Lemma no_canvas_no_render_loop_witness :
  let w := with_canvas None restWorld in
  let es := [Act TogglePlayPause; Fire "ended"; Act TogglePlayPause] in
  let o1 := run handlePlayPause initialComponent w in
  let o := runEvents es o1 in
  threw o1 = false /\ isPlaying (stateOf o1) = negb (isPlaying initialComponent) /\
  contextsCreated (graph (worldOf o1)) = 1%nat /\
  renderers (worldOf o1) = [] /\
  renderers (worldOf o) = [] /\ graph (worldOf o) = graph (worldOf o1).
Proof.
  apply (no_canvas_no_render_loop
           [Act TogglePlayPause; Fire "ended"; Act TogglePlayPause]
           initialComponent (with_canvas None restWorld)); reflexivity.
Defined.

(** X8. On a platform without an audio context constructor no sequence of
    events ever starts playback: every play/pause throws, [isPlaying]
    stays false, the element stays as paused as it was and nothing is
    built. *)
Theorem no_audio_api_never_plays (es : list playerEvent) (c : Component) (w : World) :
  audioCtx c = None -> hasAudioContext (graph w) = false ->
  isPlaying c = false ->
  let o := runEvents es (Done c w) in
  isPlaying (stateOf o) = false /\
  paused (audio (worldOf o)) = paused (audio w) /\
  graph (worldOf o) = graph w /\ renderers (worldOf o) = renderers w /\
  run handlePlayPause (stateOf o) (worldOf o)
    = Threw TypeError (stateOf o) (worldOf o).
Proof.
  intros Hc Hapi Hp. cbv zeta.
  assert (H : audioCtx (stateOf (runEvents es (Done c w))) = None /\
              isPlaying (stateOf (runEvents es (Done c w))) = false /\
              paused (audio (worldOf (runEvents es (Done c w)))) = paused (audio w) /\
              graph (worldOf (runEvents es (Done c w))) = graph w /\
              renderers (worldOf (runEvents es (Done c w))) = renderers w).
  { induction es as [|e es IH] using rev_ind.
    - repeat split; auto.
    - rewrite runEvents_snoc. destruct IH as (I1 & I2 & I3 & I4 & I5).
      set (o := runEvents es (Done c w)) in *. unfold after.
      destruct e as [[|v|p|]|ev]; cbn [handle handler].
      + rewrite handlePlayPause_no_api by (rewrite ?I4; assumption).
        repeat split; assumption.
      + clear -I1 I2 I3 I4 I5. revert I1 I2 I3 I4 I5.
        generalize (stateOf o) (worldOf o). intros c0 w0 I1 I2 I3 I4 I5.
        step_monad. cbn [fst snd].
        destruct (isFinite v); cbn [negb]; [|repeat split; assumption].
        destruct (leb (ofZ 0) v && leb v (ofZ 1)); repeat split; assumption.
      + rewrite handleProgressChange_run.
        destruct (isFinite _); repeat split; assumption.
      + destruct (handleDownload_frame_any (stateOf o) (worldOf o))
          as (_ & H1 & H2 & H3 & _ & H4).
        cbv zeta in *. rewrite H1, H2, H3, H4. repeat split; assumption.
      + rewrite dispatchEvent_run. cbn [stateOf worldOf].
        destruct (hears ev OnEnded _), (hears ev OnTimeupdate _);
          repeat split; assumption. }
  destruct H as (I1 & I2 & I3 & I4 & I5).
  repeat split; try assumption.
  apply handlePlayPause_no_api; [exact I1 | now rewrite I4].
Qed.

Lemma no_audio_api_never_plays_witness :
  let w := freshWorld sourceStore 1000 false in
  let es := [Act TogglePlayPause; Act (SetVolume (volumeStep 5)); Act TogglePlayPause] in
  let o := runEvents es (Done initialComponent w) in
  isPlaying (stateOf o) = false /\
  paused (audio (worldOf o)) = paused (audio w) /\
  graph (worldOf o) = graph w /\ renderers (worldOf o) = renderers w /\
  run handlePlayPause (stateOf o) (worldOf o)
    = Threw TypeError (stateOf o) (worldOf o).
Proof.
  apply (no_audio_api_never_plays
           [Act TogglePlayPause; Act (SetVolume (volumeStep 5)); Act TogglePlayPause]
           initialComponent (freshWorld sourceStore 1000 false)); reflexivity.
Defined.

(** X9. A play/pause while the player counts as playing always
    pauses: it does not throw, [isPlaying] becomes false and the
    element is paused afterwards, with its source, volume and
    listeners as they were, whether or not the audio graph had been
    built before. *)
Theorem pause_reaches_element (c : Component) (w : World) :
  tapInvariant c w -> hasAudioContext (graph w) = true ->
  isPlaying c = true ->
  let o := run handlePlayPause c w in
  threw o = false /\
  isPlaying (stateOf o) = false /\
  paused (audio (worldOf o)) = true /\
  src (audio (worldOf o)) = src (audio w) /\
  el_volume (audio (worldOf o)) = el_volume (audio w) /\
  listeners (audio (worldOf o)) = listeners (audio w).
Proof.
  intros [_ Htap] Hapi Hpl. cbv zeta.
  destruct (audioCtx c) as [k|] eqn:Hc.
  - rewrite (handlePlayPause_tapped c w k Hc), Hpl.
    cbn [threw stateOf worldOf withIsPlaying isPlaying with_audio audio
         withPaused paused negb src el_volume listeners].
    auto 6.
  - destruct Htap as (Hn & Ha & Hs & _).
    destruct w as [st au cv iw g rs co doc]. destruct g as [api n an ms cn].
    destruct c as [ac an' so pl vo pr].
    cbn in Hc, Hn, Ha, Hs, Hapi, Hpl. subst.
    step_monad. cbn.
    destruct (visualize iw cv 0 (silentAnalyser 256)) as [[cv' r]|]; cbn; auto 6.
Qed.

Lemma pause_reaches_element_witness :
  let playing := run handlePlayPause initialComponent restWorld in
  let o := run handlePlayPause (stateOf playing) (worldOf playing) in
  threw o = false /\
  isPlaying (stateOf o) = false /\
  paused (audio (worldOf o)) = true /\
  src (audio (worldOf o)) = src (audio (worldOf playing)) /\
  el_volume (audio (worldOf o)) = el_volume (audio (worldOf playing)) /\
  listeners (audio (worldOf o)) = listeners (audio (worldOf playing)).
Proof.
  apply (pause_reaches_element
           (stateOf (run handlePlayPause initialComponent restWorld))
           (worldOf (run handlePlayPause initialComponent restWorld))).
  - split; [vm_compute; constructor|]. vm_compute. repeat split. lia.
  - reflexivity.
  - reflexivity.
Defined.

(** X10. Every download with a track in storage saves it once more under
    the fixed name; the body's children never change, however many
    downloads are made. *)
Theorem downloads_accumulate (n : nat) (c : Component) (w : World) (url : string) :
  localStorage w !! audioSrcKey = Some url -> truthy (Some url) = true ->
  wfDocument (document w) ->
  let o := fold_left after (repeat handleDownload n) (Done c w) in
  threw o = false /\ stateOf o = c /\
  children (document (worldOf o)) = children (document w) /\
  downloads (document (worldOf o))
    = downloads (document w) ++ repeat (url, downloadName) n /\
  nextId (document (worldOf o)) = (nextId (document w) + n)%nat.
Proof.
  intros Hurl Ht. revert w Hurl.
  induction n as [|n IH]; intros w Hurl Hwf.
  - cbn. rewrite app_nil_r, Nat.add_0_r. auto.
  - change (fold_left after (repeat handleDownload (S n)) (Done c w))
      with (fold_left after (repeat handleDownload n) (run handleDownload c w)).
    destruct (handleDownload_frame c w Hwf)
      as (H1 & H2 & _ & _ & _ & _ & H3 & H4 & H5 & H6 & H7).
    cbv zeta in *. rewrite Hurl, Ht in H6, H7. cbn [default from_option] in H7.
    unfold id in H7.
    destruct (run handleDownload c w) as [c1 w1|x c1 w1]; [|discriminate H1].
    cbn [stateOf worldOf] in *. subst c1.
    rewrite <- H3 in Hurl.
    destruct (IH w1 Hurl H5) as (J1 & J2 & J3 & J4 & J5).
    cbv zeta in *. rewrite J1, J2, J3, J4, J5, H4, H6, H7.
    rewrite <- app_assoc. cbn [repeat app].
    repeat split; try reflexivity. lia.
Qed.

Lemma downloads_accumulate_witness :
  let o := fold_left after (repeat handleDownload 3) (Done initialComponent restWorld) in
  threw o = false /\ stateOf o = initialComponent /\
  children (document (worldOf o)) = children (document restWorld) /\
  downloads (document (worldOf o))
    = downloads (document restWorld)
      ++ repeat ("blob:generated-track"%string, downloadName) 3 /\
  nextId (document (worldOf o)) = (nextId (document restWorld) + 3)%nat.
Proof.
  apply (downloads_accumulate 3 initialComponent restWorld "blob:generated-track").
  - vm_compute. reflexivity.
  - reflexivity.
  - constructor.
Defined.

(* ------------------------------------------------------------------ *)
(** ** Where the bars are painted *)
(* ------------------------------------------------------------------ *)

Lemma copyInto_bytes (data arr : list Z) :
  Forall (fun m => 0 <= m <= 255) arr ->
  Forall (fun m => 0 <= m <= 255) (copyInto data arr).
Proof.
  intros H. revert data. induction H as [|x arr Hx Harr IH]; intros [|d data];
    cbn [copyInto]; constructor; auto. apply toUint8_byte.
Qed.

Lemma newUint8Array_bytes (n : Z) : Forall (fun m => 0 <= m <= 255) (newUint8Array n).
Proof. unfold newUint8Array. apply Forall_replicate. lia. Qed.

Lemma draw_ready (iw : Z) (a : AnalyserNode) (st : Canvas * Renderer) :
  rendererReady iw st -> rendererReady iw (draw a st).
Proof.
  destruct st as [c r]. intros (Hh & Hw & Hb & Hl).
  destruct (draw_size a c r) as [Hw' Hh'].
  destruct (draw_buffer a c r) as [Harr Hlen].
  unfold rendererReady. rewrite Hw', Hh', Harr, Hlen.
  unfold getByteFrequencyData. rewrite copyInto_length.
  repeat split; auto. now apply copyInto_bytes.
Qed.

Lemma visualize_ready (iw : Z) (cv : Canvas) (aid : nat) (a : AnalyserNode)
    (st : Canvas * Renderer) :
  visualize iw (Some cv) aid a = Some st -> rendererReady iw st.
Proof.
  unfold visualize. intros [= <-]. apply draw_ready.
  unfold rendererReady. cbn [fst snd height width set_height set_width
                             dataArray bufferLength].
  repeat split.
  - apply newUint8Array_bytes.
  - apply newUint8Array_length.
Qed.

Lemma renderLoop_ready (iw : Z) (a : AnalyserNode) (frames : list (list Z)) :
  forall st, rendererReady iw st -> rendererReady iw (renderLoop a st frames).
Proof.
  induction frames as [|d frames IH]; intros st Hst; [exact Hst|].
  rewrite renderLoop_cons. apply IH. now apply draw_ready.
Qed.

Lemma length_rectangles_barOps (h : Z) (bw : number) (arr : list Z)
    (idx : list nat) :
  forall x, length (rectangles (barOps h bw arr x idx)) = length idx.
Proof.
  induction idx as [|j idx IH]; intros x; [reflexivity|].
  cbn [barOps]. change (rectangles (?o :: ?l)) with (rectOf o :: rectangles l) at 1
    || idtac.
  unfold rectangles in *. cbn. f_equal. apply IH.
Qed.

Lemma sameNumber_eq (x y : number) : sameNumber x y = true -> x = y.
Proof.
  destruct x as [a|a| |a m e], y as [b|b| |b n f]; cbn [sameNumber];
    intros H; try discriminate H; try reflexivity.
  - apply Bool.eqb_prop in H. now subst.
  - apply Bool.eqb_prop in H. now subst.
  - rewrite !andb_true_iff in H. destruct H as [[H1 H2] H3].
    apply Bool.eqb_prop in H1. apply Pos.eqb_eq in H2. apply Z.eqb_eq in H3.
    now subst.
Qed.

Lemma bar_geometry_table (m : Z) :
  0 <= m <= 255 ->
  fadd (fsub (ofZ 300) (heightOf m)) (heightOf m) = ofZ 300 /\
  leb (ofDecimal 1725 1) (fsub (ofZ 300) (heightOf m)) = true /\
  leb (fsub (ofZ 300) (heightOf m)) (ofZ 300) = true /\
  leb (ofZ 0) (heightOf m) = true /\
  leb (heightOf m) (ofDecimal 1275 1) = true.
Proof.
  intros Hm.
  pose (P := fun z =>
               sameNumber (fadd (fsub (ofZ 300) (heightOf z)) (heightOf z)) (ofZ 300)
               && leb (ofDecimal 1725 1) (fsub (ofZ 300) (heightOf z))
               && leb (fsub (ofZ 300) (heightOf z)) (ofZ 300)
               && leb (ofZ 0) (heightOf z)
               && leb (heightOf z) (ofDecimal 1275 1)).
  assert (H : P m = true).
  { apply (Z_range_forallb P 256); [vm_compute; reflexivity | lia]. }
  unfold P in H. rewrite !andb_true_iff in H.
  destruct H as ((((H1 & H2) & H3) & H4) & H5).
  repeat split; try assumption. now apply sameNumber_eq.
Qed.

(** X11. In every frame of a render loop started by [visualize], each bin
    gets exactly one rectangle; it has the height of its byte, stands
    on the bottom edge of the 300 high canvas (top plus height is
    exactly 300) and never reaches above 172.5: the bars use at most
    the lower 127.5 units of the canvas. *)
Theorem bars_within_canvas (iw : Z) (cv : Canvas) (aid : nat) (a : AnalyserNode)
    (st : Canvas * Renderer) (frames : list (list Z)) (d : list Z) (i : nat) :
  visualize iw (Some cv) aid a = Some st ->
  let before := renderLoop a st frames in
  let after := draw (sample a d) before in
  (i < Z.to_nat (bufferLength (snd before)))%nat ->
  height (fst after) = 300 /\
  length (rectangles (paintedSince (fst before) (fst after)))
    = Z.to_nat (bufferLength (snd before)) /\
  exists rc m,
    rectangles (paintedSince (fst before) (fst after)) !! i = Some rc /\
    dataArray (snd after) !! i = Some m /\ 0 <= m <= 255 /\
    rh rc = heightOf m /\
    fadd (ry rc) (rh rc) = ofZ 300 /\
    leb (ofDecimal 1725 1) (ry rc) = true /\ leb (ry rc) (ofZ 300) = true /\
    leb (ofZ 0) (rh rc) = true /\ leb (rh rc) (ofDecimal 1275 1) = true.
Proof.
  intros Hvis. cbv zeta. intros Hi.
  pose proof (renderLoop_ready iw a frames st (visualize_ready _ _ _ _ _ Hvis)) as Hb.
  pose proof (draw_ready iw (sample a d) _ Hb) as Ha.
  destruct (renderLoop a st frames) as [c r].
  unfold rendererReady in Hb, Ha. cbn [fst snd] in *.
  destruct Hb as (Hh & _ & _ & Hl). destruct Ha as (Hh' & _ & Hbytes & Hl').
  destruct (draw_buffer (sample a d) c r) as [Harr Hlen].
  rewrite Hlen in Hl'.
  split; [exact Hh'|]. rewrite paintedSince_draw. unfold tickOps.
  change (rectangles (?o :: ?l)) with (rectangles l).
  split.
  - now rewrite length_rectangles_barOps, length_seq.
  - assert (Hidx : seq 0 (Z.to_nat (bufferLength r)) !! i = Some i).
    { rewrite lookup_seq. split; [reflexivity | exact Hi]. }
    destruct (rectangles_barOps (height c) (barWidth (width c) (bufferLength r))
                (getByteFrequencyData (sample a d) (dataArray r)) _ (ofZ 0) i i Hidx)
      as [x Hx].
    assert (Hlt : (i < length (dataArray (snd (draw (sample a d) (c, r)))))%nat) by lia.
    destruct (lookup_lt_is_Some_2 _ _ Hlt) as [m Hm].
    pose proof (proj1 (Forall_lookup _ _) Hbytes i m Hm) as Hbyte. cbn beta in Hbyte.
    rewrite Harr in Hm.
    rewrite (barHeight_lookup _ _ _ Hm), Hh in Hx.
    destruct (bar_geometry_table m Hbyte) as (G1 & G2 & G3 & G4 & G5).
    rewrite Hh. eexists _, m. split; [exact Hx|]. cbn [rh ry].
    rewrite Harr. repeat split; try assumption; lia.
Qed.

Lemma bars_within_canvas_witness :
  let st := draw saturatedAnalyser
              (set_height (ofZ 300)
                 (set_width (fmul (ofZ 1000) (ofDecimal 9 1)) smallCanvas),
               {| r_analyser := 0; bufferLength := frequencyBinCount saturatedAnalyser;
                  dataArray := newUint8Array (frequencyBinCount saturatedAnalyser);
                  framesRequested := 0 |}) in
  let before := renderLoop saturatedAnalyser st [[3; 4]] in
  let after := draw (sample saturatedAnalyser [255; 0]) before in
  height (fst after) = 300 /\
  length (rectangles (paintedSince (fst before) (fst after)))
    = Z.to_nat (bufferLength (snd before)) /\
  exists rc m,
    rectangles (paintedSince (fst before) (fst after)) !! 0%nat = Some rc /\
    dataArray (snd after) !! 0%nat = Some m /\ 0 <= m <= 255 /\
    rh rc = heightOf m /\
    fadd (ry rc) (rh rc) = ofZ 300 /\
    leb (ofDecimal 1725 1) (ry rc) = true /\ leb (ry rc) (ofZ 300) = true /\
    leb (ofZ 0) (rh rc) = true /\ leb (rh rc) (ofDecimal 1275 1) = true.
Proof.
  apply (bars_within_canvas 1000 smallCanvas 0 saturatedAnalyser _ [[3; 4]] [255; 0] 0).
  - reflexivity.
  - vm_compute. lia.
Defined.

(* ------------------------------------------------------------------ *)
(** ** The width of the canvas *)
(* ------------------------------------------------------------------ *)

Lemma Pos_iter_xO (p d : positive) :
  Z.pos (Pos.iter xO p d) = 2 ^ Z.pos d * Z.pos p.
Proof.
  rewrite Pos2Nat.inj_iter. rewrite <- (positive_nat_Z d) at 2 || idtac.
  rewrite <- (positive_nat_Z d).
  generalize (Pos.to_nat d). intros n. induction n as [|n IH].
  - cbn. reflexivity.
  - rewrite Nat2Z.inj_succ, Z.pow_succ_r by lia. cbn [nat_rect] in *.
    rewrite Pos2Z.inj_xO, IH. ring.
Qed.

(** An integer below [2^53] is the double of that value. *)
Lemma ofZ_pos_exact (z : Z) :
  0 < z < 2 ^ 53 ->
  exists m e, ofZ z = S754_finite false m e /\ e <= 0 /\
              Z.pos m = z * 2 ^ (- e) /\ valid (S754_finite false m e) = true.
Proof.
  intros [Hz Hlt]. destruct z as [|p|p]; try lia.
  unfold ofZ, binary_normalize, binary_round.
  assert (Hd : 1 <= Z.pos (digits2_pos p) <= 53).
  { split; [lia|]. assert (Zdigits2 (Z.pos p) <= 53) by (apply Zdigits2_le; lia).
    exact H. }
  rewrite Z.add_0_r. unfold fexp at 1, emin, emax, prec.
  replace (Z.max (Z.pos (digits2_pos p) - 53) (3 - 1024 - 53))
    with (Z.pos (digits2_pos p) - 53) by lia.
  unfold shl_align.
  destruct (Z.pos (digits2_pos p) - 53 - 0) as [|q|q] eqn:E; try lia.
  - assert (Hb : bounded 53 1024 p 0 = true).
    { unfold bounded, canonical_mantissa, fexp, emin.
      apply andb_true_iff; split; [apply Z.eqb_eq | apply Z.leb_le]; lia. }
    exists p, 0. split.
    + pose proof (round_scaled_exact false p 0 0 ltac:(lia) Hb) as H.
      rewrite Z.pow_0_r, Z.mul_1_l, Z.sub_0_r in H. exact H.
    + repeat split; [lia | rewrite Z.pow_0_r; lia | exact Hb].
  - assert (Hm : Z.pos (Pos.iter xO p q) = 2 ^ Z.pos q * Z.pos p) by apply Pos_iter_xO.
    assert (Hdig : Z.pos (digits2_pos (Pos.iter xO p q)) = 53).
    { pose proof (digits2_mul_pow2 p (Z.pos q) ltac:(lia)) as H.
      rewrite <- Hm in H. cbn [Zdigits2] in H. lia. }
    assert (Hb : bounded 53 1024 (Pos.iter xO p q) (Z.pos (digits2_pos p) - 53) = true).
    { unfold bounded, canonical_mantissa, fexp, emin. rewrite Hdig.
      apply andb_true_iff; split; [apply Z.eqb_eq | apply Z.leb_le]; lia. }
    exists (Pos.iter xO p q), (Z.pos (digits2_pos p) - 53). split.
    + pose proof (round_scaled_exact false (Pos.iter xO p q)
                    (Z.pos (digits2_pos p) - 53) 0 ltac:(lia) Hb) as H.
      rewrite Z.pow_0_r, Z.mul_1_l, Z.sub_0_r in H. exact H.
    + repeat split; [lia | | exact Hb].
      rewrite Hm. replace (- (Z.pos (digits2_pos p) - 53)) with (Z.pos q) by lia.
      ring.
Qed.

(** Nine tenths of a viewport width, truncated, is a width between 0
    and the viewport width. *)
Lemma viewport_width (iw : Z) :
  0 <= iw < 2 ^ 32 ->
  0 <= truncZ (fmul (ofZ iw) (ofDecimal 9 1)) <= iw /\
  toUnsignedLong (fmul (ofZ iw) (ofDecimal 9 1))
    = truncZ (fmul (ofZ iw) (ofDecimal 9 1)).
Proof.
  intros [H0 Hlt].
  destruct (Z.eq_dec iw 0) as [->|Hne];
    [vm_compute; repeat split; discriminate|].
  destruct (ofZ_pos_exact iw) as (m & e & Hof & He & Hm & _).
  { split; [lia|]. eapply Z.lt_trans; [exact Hlt | reflexivity]. }
  rewrite Hof.
  change (ofDecimal 9 1) with (S754_finite false 8106479329266893 (-53)).
  unfold fmul. cbn [SFmul xorb].
  assert (Hr : atMost iw (Z.max (e + -53) (Z.max (32 - 53) (-1074)))
                 (binary_round_aux prec emax false
                    (Z.pos (m * 8106479329266893)) (e + -53) loc_Exact) = true).
  { apply (round_at_most iw 32);
      [lia | lia | exact Hlt | lia | lia | | intros _; reflexivity].
    rewrite Pos2Z.inj_mul, Hm.
    replace (- (e + -53)) with (- e + 53) by lia. rewrite Z.pow_add_r by lia.
    assert (0 < 2 ^ (- e)) by (apply Z.pow_pos_nonneg; lia).
    assert (Z.pos 8106479329266893 <= 2 ^ 53) by (vm_compute; discriminate).
    set (A := 2 ^ (- e)) in *. set (B := 2 ^ 53) in *.
    replace (iw * (A * B)) with (iw * A * B) by ring.
    apply Z.mul_le_mono_nonneg_l; [nia | assumption]. }
  assert (Ht : 0 <= truncZ (binary_round_aux prec emax false
                              (Z.pos (m * 8106479329266893)) (e + -53) loc_Exact)
               <= iw).
  { destruct (binary_round_aux prec emax false (Z.pos (m * 8106479329266893))
                (e + -53) loc_Exact) as [[]| | |[] m3 e3]; try discriminate Hr;
      cbn [truncZ]; try lia.
    cbn [atMost] in Hr. rewrite !andb_true_iff in Hr.
    destruct Hr as [[He3 _] Hle]. apply Z.leb_le in He3. apply Z.leb_le in Hle.
    destruct (0 <=? e3) eqn:E.
    - apply Z.leb_le in E. assert (e3 = 0) by lia. subst e3.
      change (2 ^ (- 0)) with 1 in Hle. change (2 ^ 0) with 1. lia.
    - assert (Hp : 0 < 2 ^ (- e3)) by (apply Z.pow_pos_nonneg; lia).
      split; [apply Z.div_pos; lia|].
      apply Z.div_le_upper_bound; [exact Hp|]. lia. }
  split; [exact Ht|].
  unfold toUnsignedLong. apply Z.mod_small. lia.
Qed.

(** X12. The canvas [visualize] sizes is 300 high and never wider
    than the viewport was at that moment: its width is nine tenths of
    the viewport width, cut to an integer, unless that exceeds
    2147483647, in which case the canvas takes its default width of
    300; and it keeps that size for as long as the loop runs. *)
Theorem canvas_fits_viewport (iw : Z) (cv : Canvas) (aid : nat) (a : AnalyserNode)
    (st : Canvas * Renderer) (frames : list (list Z)) :
  0 <= iw < 2 ^ 32 ->
  visualize iw (Some cv) aid a = Some st ->
  let n := truncZ (fmul (ofZ iw) (ofDecimal 9 1)) in
  0 <= n <= iw /\
  width (fst st) = (if n <=? 2147483647 then n else 300) /\
  0 <= width (fst (renderLoop a st frames)) <= iw /\
  height (fst (renderLoop a st frames)) = 300 /\
  width (fst (renderLoop a st frames)) = width (fst st).
Proof.
  intros Hiw Hvis. cbv zeta.
  destruct (visualize_ready _ _ _ _ _ Hvis) as (_ & Hw0 & _).
  destruct (renderLoop_ready iw a frames st (visualize_ready _ _ _ _ _ Hvis))
    as (Hh & Hw & _).
  destruct (viewport_width iw Hiw) as [Hn Hmod].
  rewrite Hw, Hh, Hw0, Hmod. unfold reflectUnsignedLong.
  refine (conj Hn (conj eq_refl (conj _ (conj eq_refl eq_refl)))).
  destruct (Z.leb_spec (truncZ (fmul (ofZ iw) (ofDecimal 9 1))) 2147483647); lia.
Qed.

Lemma canvas_fits_viewport_witness :
  let iw := 3000000000 in
  let st := draw saturatedAnalyser
              (set_height (ofZ 300)
                 (set_width (fmul (ofZ iw) (ofDecimal 9 1)) smallCanvas),
               {| r_analyser := 0; bufferLength := frequencyBinCount saturatedAnalyser;
                  dataArray := newUint8Array (frequencyBinCount saturatedAnalyser);
                  framesRequested := 0 |}) in
  let n := truncZ (fmul (ofZ iw) (ofDecimal 9 1)) in
  0 <= n <= iw /\
  width (fst st) = (if n <=? 2147483647 then n else 300) /\
  0 <= width (fst (renderLoop saturatedAnalyser st [[3; 4]])) <= iw /\
  height (fst (renderLoop saturatedAnalyser st [[3; 4]])) = 300 /\
  width (fst (renderLoop saturatedAnalyser st [[3; 4]])) = width (fst st).
Proof.
  apply (canvas_fits_viewport 3000000000 smallCanvas 0 saturatedAnalyser _ [[3; 4]]).
  - split; [lia | reflexivity].
  - reflexivity.
Defined.

(** At a viewport width of 3000000000 nine tenths are 2700000000, more
    than the width attribute keeps: the canvas is 300 wide. At 1000
    it is 900 wide. *)
Lemma canvas_width_examples :
  (exists st, visualize 3000000000 (Some smallCanvas) 0 saturatedAnalyser = Some st /\
              width (fst st) = 300 /\ height (fst st) = 300) /\
  (exists st, visualize 1000 (Some smallCanvas) 0 saturatedAnalyser = Some st /\
              width (fst st) = 900 /\ height (fst st) = 300).
Proof.
  split; eexists; (split; [reflexivity|]); split; vm_compute; reflexivity.
Qed.

(* ------------------------------------------------------------------ *)
(** ** What the player's handlers leave alone *)
(* ------------------------------------------------------------------ *)

Lemma handle_frame (e : playerEvent) (c : Component) (w : World) :
  let o := run (handle e) c w in
  localStorage (worldOf o) = localStorage w /\
  console (worldOf o) = console w /\
  innerWidth (worldOf o) = innerWidth w /\
  src (audio (worldOf o)) = src (audio w) /\
  listeners (audio (worldOf o)) = listeners (audio w) /\
  duration (audio (worldOf o)) = duration (audio w).
Proof.
  cbv zeta. destruct e as [[|v|p|]|ev]; cbn [handle handler].
  - destruct w as [st au cv iw g rs co doc]. destruct g as [api n an ms cn].
    destruct c as [ac an' so pl vo pr].
    step_monad. cbn.
    destruct ac; cbn; [destruct pl; cbn; repeat split; reflexivity|].
    destruct api; cbn; [|repeat split; reflexivity].
    destruct ms; cbn; [|repeat split; reflexivity].
    destruct (_ !! length an); cbn; [|repeat split; reflexivity].
    destruct (visualize _ _ _ _) as [[cv' r]|]; cbn;
      destruct pl; cbn; repeat split; reflexivity.
  - step_monad. cbn [fst snd].
    destruct (isFinite v); cbn [negb]; [|repeat split; reflexivity].
    destruct (leb (ofZ 0) v && leb v (ofZ 1)); repeat split; reflexivity.
  - rewrite handleProgressChange_run.
    destruct (isFinite _); repeat split; reflexivity.
  - step_monad. cbn [fst snd].
    destruct (truthy (localStorage w !! audioSrcKey)); cbn [fst snd];
      [|repeat split; reflexivity].
    cbn. destruct (existsb _ _); cbn; repeat split; reflexivity.
  - rewrite dispatchEvent_run.
    destruct (hears ev OnEnded _), (hears ev OnTimeupdate _); repeat split; reflexivity.
Qed.

Lemma handle_document (e : playerEvent) (c : Component) (w : World) :
  wfDocument (document w) ->
  let o := run (handle e) c w in
  wfDocument (document (worldOf o)) /\
  children (document (worldOf o)) = children (document w).
Proof.
  intros Hwf. cbv zeta. destruct e as [[|v|p|]|ev]; cbn [handle handler].
  - destruct w as [st au cv iw g rs co doc]. destruct g as [api n an ms cn].
    destruct c as [ac an' so pl vo pr]. cbn [document] in Hwf.
    step_monad. cbn.
    destruct ac; cbn; [destruct pl; cbn; split; auto|].
    destruct api; cbn; [|split; auto].
    destruct ms; cbn; [|split; auto].
    destruct (_ !! length an); cbn; [|split; auto].
    destruct (visualize _ _ _ _) as [[cv' r]|]; cbn;
      destruct pl; cbn; split; auto.
  - destruct (handleVolumeChange_frame v c w) as (_ & _ & _ & _ & H & _).
    cbv zeta in H. rewrite H. auto.
  - destruct (handleProgressChange_frame p c w) as (_ & _ & _ & _ & H & _).
    cbv zeta in H. rewrite H. auto.
  - destruct (handleDownload_frame c w Hwf)
      as (_ & _ & _ & _ & _ & _ & _ & H1 & H2 & _).
    cbv zeta in *. auto.
  - destruct (dispatchEvent_frame ev c w) as (_ & _ & H).
    cbv zeta in H. rewrite H. auto.
Qed.

(** X13. Whatever happens to a mounted player, it never writes to
    [localStorage], never logs to the console and never loads another
    source: the element plays to the end what the mount effect gave
    it. *)
Theorem player_keeps_store_and_source (es : list playerEvent) (o : outcome) :
  localStorage (worldOf (runEvents es o)) = localStorage (worldOf o) /\
  console (worldOf (runEvents es o)) = console (worldOf o) /\
  src (audio (worldOf (runEvents es o))) = src (audio (worldOf o)) /\
  listeners (audio (worldOf (runEvents es o))) = listeners (audio (worldOf o)).
Proof.
  induction es as [|e es IH] using rev_ind; [cbn; auto|].
  rewrite runEvents_snoc. unfold after.
  destruct (handle_frame e (stateOf (runEvents es o)) (worldOf (runEvents es o)))
    as (H1 & H2 & _ & H3 & H4 & _).
  cbv zeta in *. destruct IH as (I1 & I2 & I3 & I4).
  rewrite H1, H2, H3, H4. auto.
Qed.

(* ------------------------------------------------------------------ *)
(** ** The page: generating a track and showing the player *)
(* ------------------------------------------------------------------ *)

Lemma render_settled (vp : Z) (api : bool) (a : App) :
  isShow (page a) = negb (isNull (player a)) -> render vp api a = a.
Proof.
  unfold render. destruct a as [p s n [pl|]]; cbn; intros ->; reflexivity.
Qed.

Lemma truthy_createObjectURL (data : string) :
  truthy (Some (createObjectURL data)) = true.
Proof. reflexivity. Qed.

Lemma mountPlayer_loaded (vp : Z) (api : bool) (s : Site) (url : string) :
  store s !! audioSrcKey = Some url -> truthy (Some url) = true ->
  mountPlayer vp api s
  = (initialComponent,
     with_audio
       (withListener "ended" OnEnded
          (withListener "timeupdate" OnTimeupdate
             (withControls false
                (withElVolume (volume initialComponent) (loadSrc url newAudio)))))
       (freshWorld (store s) vp api)).
Proof.
  intros Hurl Ht. unfold mountPlayer.
  rewrite (mountEffect_run initialComponent (freshWorld (store s) vp api) url
             Hurl Ht eq_refl eq_refl).
  reflexivity.
Qed.

Lemma mountPlayer_invariant (vp : Z) (api : bool) (s : Site) :
  truthy (store s !! audioSrcKey) = true ->
  let '(c, w) := mountPlayer vp api s in
  console w = [] /\ src (audio w) <> EmptyString /\ wfDocument (document w).
Proof.
  intros Ht. destruct (truthy_Some _ Ht) as (url & Hurl & Hne).
  rewrite Hurl in Ht. rewrite (mountPlayer_loaded vp api s url Hurl Ht).
  cbn. repeat split; [exact Hne | constructor].
Qed.

Lemma openPage_invariant (vp : Z) (api : bool) (st : gmap string string) :
  appInvariant (openPage vp api st).
Proof.
  unfold openPage, render, initialPage. cbn [page isShow player].
  destruct (truthy (st !! audioSrcKey)) eqn:Ht.
  - unfold appInvariant.
    cbn [with_player page site awaiting player isLoading isShow isNull negb store].
    pose proof (mountPlayer_invariant vp api
                  {| store := st; alerts := []; requests := []; errorsLogged := 0 |}
                  Ht) as H.
    destruct (mountPlayer _ _ _) as [c w].
    repeat split; try reflexivity; try discriminate; apply H.
  - unfold appInvariant. cbn. rewrite Ht. auto.
Qed.

Lemma appStep_invariant (vp : Z) (api : bool) (a : App) (e : appEvent) :
  appInvariant a -> appInvariant (appStep vp api a e).
Proof.
  intros (Haw & Hshow & Hst & Hpl). unfold appStep.
  destruct e as [m| |r|e].
  - rewrite render_settled by exact Hshow.
    repeat split; assumption.
  - destruct (isLoading (page a)) eqn:Hl.
    + rewrite render_settled by exact Hshow.
      repeat split; try assumption. now rewrite Hl.
    + unfold handleGenerate_request.
      destruct (truthy (Some (selectedOption (page a)))); cbn [negb].
      * rewrite render_settled by exact Hshow.
        unfold appInvariant.
        cbn [page site awaiting player isLoading isShow setError setIsLoading
             store post removeItem].
        rewrite Haw. repeat split; try assumption.
        intros _. unfold audioSrcKey. rewrite lookup_delete_eq. reflexivity.
      * rewrite render_settled by exact Hshow.
        unfold appInvariant. cbn [page site awaiting player store alert].
        rewrite Hl. repeat split; assumption.
  - destruct (awaiting a) as [|n] eqn:Hn.
    + rewrite render_settled by exact Hshow.
      repeat split; try assumption. now rewrite Hn.
    + destruct (isLoading (page a)) eqn:Hl; [|discriminate Haw].
      injection Haw as ->.
      destruct r as [|data]; unfold handleGenerate_resume.
      * rewrite render_settled by exact Hshow.
        unfold appInvariant.
        cbn [page site awaiting player isLoading isShow setError setIsLoading
             store alert consoleError].
        repeat split; assumption.
      * unfold render.
        cbn [page site awaiting player isLoading isShow setIsShow setIsLoading].
        destruct (player a) as [[c w]|] eqn:Hp.
        -- unfold appInvariant.
           cbn [page site awaiting player isLoading isShow setIsShow setIsLoading
                isNull negb].
           repeat split; try apply Hpl. discriminate.
        -- unfold appInvariant.
           cbn [with_player page site awaiting player isLoading isShow setIsShow
                setIsLoading isNull negb].
           assert (Ht : truthy (store (setItem audioSrcKey (createObjectURL data)
                                         (site a)) !! audioSrcKey) = true).
           { cbn [store setItem]. rewrite lookup_insert_eq. reflexivity. }
           pose proof (mountPlayer_invariant vp api _ Ht) as H.
           destruct (mountPlayer _ _ _) as [c w].
           repeat split; try reflexivity; try discriminate; apply H.
  - destruct (player a) as [[c w]|] eqn:Hp.
    + unfold render. cbn [with_player page player]. rewrite Hshow.
      cbn [isNull negb].
      unfold appInvariant. cbn [with_player page site awaiting player isNull negb].
      destruct Hpl as (Hc & Hs & Hwf).
      destruct (handle_frame e c (with_localStorage (store (site a)) w))
        as (_ & H2 & _ & H3 & _).
      destruct (handle_document e c (with_localStorage (store (site a)) w) Hwf)
        as (H4 & _).
      cbv zeta in *. rewrite H2, H3.
      repeat split; try assumption.
    + rewrite render_settled by (rewrite Hp; exact Hshow).
      unfold appInvariant. rewrite Hp. repeat split; assumption.
Qed.

Lemma appRun_snoc (vp : Z) (api : bool) (es : list appEvent) (e : appEvent)
    (a : App) :
  appRun vp api (es ++ [e]) a = appStep vp api (appRun vp api es a) e.
Proof. unfold appRun. now rewrite fold_left_app. Qed.

Lemma appRun_invariant (vp : Z) (api : bool) (es : list appEvent) (a : App) :
  appInvariant a -> appInvariant (appRun vp api es a).
Proof.
  intros Ha. induction es as [|e es IH] using rev_ind; [exact Ha|].
  rewrite appRun_snoc. now apply appStep_invariant.
Qed.

(** X14. From the moment the page opens, whatever the stored value and
    whatever the user and the network do: at most one request waits
    for its reply, and one waits exactly while [isLoading] holds. *)
Theorem one_request_in_flight (vp : Z) (api : bool) (st : gmap string string)
    (es : list appEvent) :
  let a := appRun vp api es (openPage vp api st) in
  (awaiting a <= 1)%nat /\
  (isLoading (page a) = true <-> awaiting a = 1%nat) /\
  (length (requests (site a)) <= length (List.filter
     (fun e => match e with ClickGenerate => true | _ => false end) es))%nat.
Proof.
  cbv zeta.
  assert (Hinv := appRun_invariant vp api es _ (openPage_invariant vp api st)).
  destruct Hinv as (Haw & _).
  split; [destruct (isLoading _); lia|].
  split; [destruct (isLoading _); split; intros; try lia; try discriminate; auto|].
  clear Haw. generalize (openPage_invariant vp api st).
  assert (H0 : (length (requests (site (openPage vp api st))) <= 0)%nat).
  { unfold openPage, render. cbn [page initialPage isShow player].
    destruct (truthy _); cbn; lia. }
  revert H0. generalize (openPage vp api st). intros a H0 Ha.
  assert (Hgen : forall k, (length (requests (site a)) <= k)%nat ->
     (length (requests (site (appRun vp api es a)))
      <= k + length (List.filter (fun e => match e with ClickGenerate => true
                                              | _ => false end) es))%nat);
    [|apply (Hgen 0%nat H0)].
  clear H0. induction es as [|e es IH] using rev_ind; intros k Hk.
  - cbn. lia.
  - rewrite appRun_snoc, List.filter_app, length_app.
    specialize (IH k Hk).
    pose proof (appRun_invariant vp api es a Ha) as (_ & Hshow & _).
    set (b := appRun vp api es a) in *.
    assert (Hreq : forall x, requests (site (render vp api x)) = requests (site x)).
    { intros x. unfold render. destruct (isShow (page x)); [destruct (player x)|];
        reflexivity. }
    unfold appStep. rewrite Hreq.
    destruct e as [m| |r|e].
    + cbn. lia.
    + cbn [List.filter length]. destruct (isLoading (page b)); [cbn; lia|].
      unfold handleGenerate_request.
      destruct (truthy (Some (selectedOption (page b)))); cbn [negb].
      * cbn [site requests post removeItem]. rewrite length_app. cbn. lia.
      * cbn. lia.
    + destruct (awaiting b); [cbn; lia|].
      destruct r; cbn; lia.
    + destruct (player b) as [[c w]|]; cbn; lia.
Qed.

(** X15. A player that this page puts on screen always has a track loaded
    and has never logged the missing-source warning, and it is on
    screen exactly while [isShow] holds. *)
Theorem page_player_has_track (vp : Z) (api : bool) (st : gmap string string)
    (es : list appEvent) :
  let a := appRun vp api es (openPage vp api st) in
  match player a with
  | Some (c, w) =>
      isShow (page a) = true /\ console w = [] /\ src (audio w) <> EmptyString
  | None =>
      isShow (page a) = false /\ truthy (store (site a) !! audioSrcKey) = false
  end.
Proof.
  cbv zeta.
  assert (Hinv := appRun_invariant vp api es _ (openPage_invariant vp api st)).
  destruct Hinv as (_ & Hshow & Hst & Hpl).
  destruct (player _) as [[c w]|].
  - split; [exact Hshow|]. split; apply Hpl.
  - split; [exact Hshow|]. apply Hst. exact Hshow.
Qed.

(** X16. With no mood selected a click on Generate shows one alert and does
    nothing else: no request, no change of the store or of the cells. *)
Theorem generate_needs_mood (vp : Z) (api : bool) (a : App) :
  appInvariant a -> isLoading (page a) = false ->
  selectedOption (page a) = EmptyString ->
  let a' := appStep vp api a ClickGenerate in
  page a' = page a /\ player a' = player a /\ awaiting a' = awaiting a /\
  store (site a') = store (site a) /\ requests (site a') = requests (site a) /\
  errorsLogged (site a') = errorsLogged (site a) /\
  alerts (site a') = alerts (site a) ++ [selectMoodFirst].
Proof.
  intros (_ & Hshow & _) Hl Hsel. cbv zeta. unfold appStep. rewrite Hl.
  unfold handleGenerate_request. rewrite Hsel. cbn [truthy negb].
  rewrite render_settled by exact Hshow. cbn. repeat split; reflexivity.
Qed.

Lemma generate_needs_mood_witness :
  let a := openPage 1000 true sourceStore in
  let a' := appStep 1000 true a ClickGenerate in
  page a' = page a /\ player a' = player a /\ awaiting a' = awaiting a /\
  store (site a') = store (site a) /\ requests (site a') = requests (site a) /\
  errorsLogged (site a') = errorsLogged (site a) /\
  alerts (site a') = alerts (site a) ++ [selectMoodFirst].
Proof.
  apply (generate_needs_mood 1000 true (openPage 1000 true sourceStore)).
  - apply openPage_invariant.
  - reflexivity.
  - reflexivity.
Defined.

Lemma truthy_nonempty (s : string) :
  s <> EmptyString -> truthy (Some s) = true.
Proof. destruct s; [contradiction | reflexivity]. Qed.

Lemma click_with_mood (vp : Z) (api : bool) (a : App) :
  isShow (page a) = negb (isNull (player a)) -> isLoading (page a) = false ->
  selectedOption (page a) <> EmptyString ->
  appStep vp api a ClickGenerate
  = {| page := setError EmptyString (setIsLoading true (page a));
       site := post {| path := "/1235/generate-song";
                       mood := selectedOption (page a); song_number := 5 |}
                 (removeItem audioSrcKey (site a));
       awaiting := S (awaiting a);
       player := player a |}.
Proof.
  intros Hshow Hl Hsel. unfold appStep. rewrite Hl.
  unfold handleGenerate_request. rewrite (truthy_nonempty _ Hsel). cbn [negb].
  apply render_settled. exact Hshow.
Qed.

Lemma reply_rejected (vp : Z) (api : bool) (a : App) (n : nat) :
  isShow (page a) = negb (isNull (player a)) -> awaiting a = S n ->
  appStep vp api a (Reply Rejected)
  = {| page := setError generationFailed (setIsLoading false (page a));
       site := alert generationFailed (consoleError (site a));
       awaiting := n;
       player := player a |}.
Proof.
  intros Hshow Hn. unfold appStep. rewrite Hn. unfold handleGenerate_resume.
  apply render_settled. exact Hshow.
Qed.

Lemma reply_resolved (vp : Z) (api : bool) (a : App) (n : nat) (data : string) :
  awaiting a = S n ->
  appStep vp api a (Reply (Resolved data))
  = {| page := setIsShow true (setIsLoading false (page a));
       site := setItem audioSrcKey (createObjectURL data) (site a);
       awaiting := n;
       player :=
         match player a with
         | Some pl => Some pl
         | None =>
             Some (mountPlayer vp api
                     (setItem audioSrcKey (createObjectURL data) (site a)))
         end |}.
Proof.
  intros Hn. unfold appStep. rewrite Hn. unfold handleGenerate_resume, render.
  cbn [page isShow setIsShow player]. destruct (player a); reflexivity.
Qed.

(** X17. The first track: with a mood selected and no player on screen, a
    click and a successful reply send exactly one request for that
    mood, store the blob URL, and mount a player whose element has
    that URL as its source and both listeners registered. *)
Theorem first_track_reaches_player (vp : Z) (api : bool) (a : App) (data : string) :
  appInvariant a -> isLoading (page a) = false -> isShow (page a) = false ->
  selectedOption (page a) <> EmptyString ->
  let a' := appRun vp api [ClickGenerate; Reply (Resolved data)] a in
  isShow (page a') = true /\ isLoading (page a') = false /\
  awaiting a' = 0%nat /\
  store (site a') !! audioSrcKey = Some (createObjectURL data) /\
  requests (site a')
    = requests (site a)
      ++ [{| path := "/1235/generate-song"; mood := selectedOption (page a);
             song_number := 5 |}] /\
  alerts (site a') = alerts (site a) /\
  exists w, player a' = Some (initialComponent, w) /\
            src (audio w) = createObjectURL data /\
            listeners (audio w) = mountedListeners /\
            console w = [] /\ localStorage w = store (site a').
Proof.
  intros (Haw & Hshow & _) Hl Hs Hsel. cbv zeta.
  change (appRun vp api [ClickGenerate; Reply (Resolved data)] a)
    with (appStep vp api (appStep vp api a ClickGenerate) (Reply (Resolved data))).
  rewrite (click_with_mood vp api a Hshow Hl Hsel).
  erewrite reply_resolved by reflexivity.
  rewrite Hl in Haw. rewrite Hs in Hshow.
  destruct (player a) as [?|]; [discriminate Hshow|].
  cbn [page site awaiting player isShow isLoading setIsShow setIsLoading setError].
  rewrite (mountPlayer_loaded vp api _ (createObjectURL data));
    [| cbn [store setItem]; apply lookup_insert_eq | reflexivity].
  cbn [store setItem post removeItem requests alerts].
  rewrite lookup_insert_eq.
  repeat split; try assumption.
  eexists. split; [reflexivity|]. cbn. repeat split; reflexivity.
Qed.

Lemma first_track_reaches_player_witness :
  let a := appStep 1000 true (openPage 1000 true emptyStore) (SelectMood "Dark") in
  let a' := appRun 1000 true [ClickGenerate; Reply (Resolved "track-1")] a in
  isShow (page a') = true /\ isLoading (page a') = false /\
  awaiting a' = 0%nat /\
  store (site a') !! audioSrcKey = Some (createObjectURL "track-1") /\
  requests (site a')
    = requests (site a)
      ++ [{| path := "/1235/generate-song"; mood := selectedOption (page a);
             song_number := 5 |}] /\
  alerts (site a') = alerts (site a) /\
  exists w, player a' = Some (initialComponent, w) /\
            src (audio w) = createObjectURL "track-1" /\
            listeners (audio w) = mountedListeners /\
            console w = [] /\ localStorage w = store (site a').
Proof.
  apply (first_track_reaches_player 1000 true
           (appStep 1000 true (openPage 1000 true emptyStore) (SelectMood "Dark"))
           "track-1").
  - apply appStep_invariant, openPage_invariant.
  - reflexivity.
  - reflexivity.
  - discriminate.
Defined.

(** X18. A failed generation: the stored track is gone, the error is shown
    and alerted once, nothing waits any more; a player that was on
    screen stays there untouched, but after a reload no player is
    shown. *)
Theorem failed_generation_forgets_track (vp : Z) (api : bool) (a : App) :
  appInvariant a -> isLoading (page a) = false ->
  selectedOption (page a) <> EmptyString ->
  let a' := appRun vp api [ClickGenerate; Reply Rejected] a in
  store (site a') !! audioSrcKey = None /\
  error (page a') = generationFailed /\
  alerts (site a') = alerts (site a) ++ [generationFailed] /\
  errorsLogged (site a') = S (errorsLogged (site a)) /\
  isLoading (page a') = false /\ awaiting a' = 0%nat /\
  isShow (page a') = isShow (page a) /\ player a' = player a /\
  player (openPage vp api (store (site a'))) = None.
Proof.
  intros (Haw & Hshow & _) Hl Hsel. cbv zeta.
  change (appRun vp api [ClickGenerate; Reply Rejected] a)
    with (appStep vp api (appStep vp api a ClickGenerate) (Reply Rejected)).
  rewrite (click_with_mood vp api a Hshow Hl Hsel).
  erewrite reply_rejected; [|exact Hshow|reflexivity].
  rewrite Hl in Haw.
  cbn [page site awaiting player isShow isLoading error setError setIsLoading
       store alerts errorsLogged alert consoleError post removeItem].
  assert (Hdel : delete audioSrcKey (store (site a)) !! audioSrcKey = None)
    by apply lookup_delete_eq.
  repeat split; try assumption.
  unfold openPage, render. cbn [page initialPage isShow]. rewrite Hdel.
  reflexivity.
Qed.

Lemma failed_generation_forgets_track_witness :
  let a := appStep 1000 true (openPage 1000 true sourceStore) (SelectMood "Dark") in
  let a' := appRun 1000 true [ClickGenerate; Reply Rejected] a in
  store (site a') !! audioSrcKey = None /\
  error (page a') = generationFailed /\
  alerts (site a') = alerts (site a) ++ [generationFailed] /\
  errorsLogged (site a') = S (errorsLogged (site a)) /\
  isLoading (page a') = false /\ awaiting a' = 0%nat /\
  isShow (page a') = isShow (page a) /\ player a' = player a /\
  player (openPage 1000 true (store (site a'))) = None.
Proof.
  apply (failed_generation_forgets_track 1000 true
           (appStep 1000 true (openPage 1000 true sourceStore) (SelectMood "Dark"))).
  - apply appStep_invariant, openPage_invariant.
  - reflexivity.
  - discriminate.
Defined.

Lemma appStep_player (vp : Z) (api : bool) (a : App) (e : appEvent)
    (c : Component) (w : World) :
  appInvariant a -> player a = Some (c, w) ->
  exists c' w', player (appStep vp api a e) = Some (c', w') /\
                src (audio w') = src (audio w) /\
                listeners (audio w') = listeners (audio w).
Proof.
  intros (Haw & Hshow & _) Hp. unfold appStep. destruct e as [m| |r|e].
  - rewrite render_settled by exact Hshow. cbn [player]. eauto.
  - destruct (isLoading (page a)).
    + rewrite render_settled by exact Hshow. eauto.
    + unfold handleGenerate_request.
      destruct (truthy _); cbn [negb]; rewrite render_settled by exact Hshow;
        cbn [player]; eauto.
  - destruct (awaiting a).
    + rewrite render_settled by exact Hshow. eauto.
    + destruct r; unfold handleGenerate_resume.
      * rewrite render_settled by exact Hshow. cbn [player]. eauto.
      * unfold render. cbn [page isShow setIsShow player]. rewrite Hp.
        cbn [player]. eauto.
  - rewrite Hp. unfold render. cbn [with_player page player].
    rewrite Hshow, Hp. cbn [isNull negb with_player player].
    destruct (handle_frame e c (with_localStorage (store (site a)) w))
      as (_ & _ & _ & H3 & H4 & _).
    cbv zeta in *. eauto.
Qed.

(** X19. Once a player is on screen, nothing the page does changes what its
    element plays: selecting moods, generating again with any outcome
    and using the player all leave the source it was mounted with. *)
Theorem mounted_player_keeps_its_track (vp : Z) (api : bool) (es : list appEvent)
    (a : App) (c : Component) (w : World) :
  appInvariant a -> player a = Some (c, w) ->
  exists c' w', player (appRun vp api es a) = Some (c', w') /\
                src (audio w') = src (audio w) /\
                listeners (audio w') = listeners (audio w).
Proof.
  intros Ha Hp. induction es as [|e es IH] using rev_ind.
  - cbn. eauto.
  - rewrite appRun_snoc. destruct IH as (c1 & w1 & H1 & H2 & H3).
    destruct (appStep_player vp api (appRun vp api es a) e c1 w1
                (appRun_invariant vp api es a Ha) H1) as (c2 & w2 & J1 & J2 & J3).
    exists c2, w2. rewrite J2, J3. auto.
Qed.

Lemma mounted_player_keeps_its_track_witness :
  exists c' w',
    player (appRun 1000 true
              [SelectMood "Dark"; ClickGenerate; Reply (Resolved "track-2");
               Player (Act TogglePlayPause)]
              (openPage 1000 true sourceStore)) = Some (c', w') /\
    src (audio w') = src (audio (snd (mountPlayer 1000 true
                       {| store := sourceStore; alerts := []; requests := [];
                          errorsLogged := 0 |}))) /\
    listeners (audio w') = listeners (audio (snd (mountPlayer 1000 true
                       {| store := sourceStore; alerts := []; requests := [];
                          errorsLogged := 0 |}))).
Proof.
  apply (mounted_player_keeps_its_track 1000 true
           [SelectMood "Dark"; ClickGenerate; Reply (Resolved "track-2");
            Player (Act TogglePlayPause)]
           (openPage 1000 true sourceStore)
           (fst (mountPlayer 1000 true
                   {| store := sourceStore; alerts := []; requests := [];
                      errorsLogged := 0 |}))).
  - apply openPage_invariant.
  - reflexivity.
Defined.

Lemma handleDownload_nothing (c : Component) (w : World) :
  truthy (localStorage w !! audioSrcKey) = false ->
  run handleDownload c w = Done c w.
Proof.
  intros Ht. step_monad. cbn [fst snd]. rewrite Ht. destruct c, w; reflexivity.
Qed.

(** X20. While a generation is under way the stored track is gone, so the
    Download button of a player that is on screen saves nothing. *)
Theorem no_download_while_generating (vp : Z) (api : bool) (a : App)
    (c : Component) (w : World) :
  appInvariant a -> isLoading (page a) = false ->
  selectedOption (page a) <> EmptyString -> player a = Some (c, w) ->
  let a' := appRun vp api [ClickGenerate; Player (Act Download)] a in
  isLoading (page a') = true /\ awaiting a' = 1%nat /\
  exists w', player a' = Some (c, w') /\
             document w' = document w /\ audio w' = audio w /\
             localStorage w' !! audioSrcKey = None.
Proof.
  intros (Haw & Hshow & _) Hl Hsel Hp. cbv zeta.
  change (appRun vp api [ClickGenerate; Player (Act Download)] a)
    with (appStep vp api (appStep vp api a ClickGenerate) (Player (Act Download))).
  rewrite (click_with_mood vp api a Hshow Hl Hsel).
  rewrite Hl in Haw. rewrite Haw, Hp.
  unfold appStep. cbn [player site store post removeItem handle handler].
  rewrite handleDownload_nothing
    by (cbn [with_localStorage localStorage]; unfold audioSrcKey;
        rewrite lookup_delete_eq; reflexivity).
  cbn [stateOf worldOf]. unfold render.
  cbn [with_player page player isShow setError setIsLoading].
  rewrite Hshow, Hp. cbn [isNull negb with_player page player isLoading setError
                          setIsLoading awaiting].
  repeat split. eexists. split; [reflexivity|].
  cbn [with_localStorage document audio localStorage].
  repeat split. apply lookup_delete_eq.
Qed.

Lemma no_download_while_generating_witness :
  let a := appStep 1000 true (openPage 1000 true sourceStore) (SelectMood "Dark") in
  let a' := appRun 1000 true [ClickGenerate; Player (Act Download)] a in
  isLoading (page a') = true /\ awaiting a' = 1%nat /\
  exists w', player a' = Some (initialComponent, w') /\
             document w' = emptyDocument /\
             audio w' = audio (snd (mountPlayer 1000 true
                          {| store := sourceStore; alerts := []; requests := [];
                             errorsLogged := 0 |})) /\
             localStorage w' !! audioSrcKey = None.
Proof.
  apply (no_download_while_generating 1000 true
           (appStep 1000 true (openPage 1000 true sourceStore) (SelectMood "Dark"))
           initialComponent
           (snd (mountPlayer 1000 true
                   {| store := sourceStore; alerts := []; requests := [];
                      errorsLogged := 0 |}))).
  - apply appStep_invariant, openPage_invariant.
  - reflexivity.
  - discriminate.
  - reflexivity.
Defined.

(** X21. A second successful generation while a player is on screen: the
    element keeps the track it was mounted with, yet the Download
    button now saves the new one, the one in the store. *)
Theorem download_follows_store_not_player (vp : Z) (api : bool) (a : App)
    (c : Component) (w : World) (data : string) :
  appInvariant a -> isLoading (page a) = false ->
  selectedOption (page a) <> EmptyString -> player a = Some (c, w) ->
  let a' := appRun vp api
              [ClickGenerate; Reply (Resolved data); Player (Act Download)] a in
  store (site a') !! audioSrcKey = Some (createObjectURL data) /\
  exists w', player a' = Some (c, w') /\
             audio w' = audio w /\
             children (document w') = children (document w) /\
             downloads (document w')
               = downloads (document w) ++ [(createObjectURL data, downloadName)].
Proof.
  intros (Haw & Hshow & _ & Hpl) Hl Hsel Hp. cbv zeta.
  change (appRun vp api
            [ClickGenerate; Reply (Resolved data); Player (Act Download)] a)
    with (appStep vp api
            (appStep vp api (appStep vp api a ClickGenerate)
               (Reply (Resolved data))) (Player (Act Download))).
  rewrite (click_with_mood vp api a Hshow Hl Hsel).
  erewrite reply_resolved by reflexivity.
  rewrite Hp in *. destruct Hpl as (_ & _ & Hwf).
  cbn [page site awaiting player isShow isLoading setIsShow setIsLoading setError
       post removeItem].
  unfold appStep. cbn [player site store setItem handle handler].
  set (st := <[audioSrcKey:=createObjectURL data]> _).
  assert (Hst : st !! audioSrcKey = Some (createObjectURL data))
    by apply lookup_insert_eq.
  destruct (handleDownload_frame c (with_localStorage st w) Hwf)
    as (_ & H2 & _ & _ & _ & H6 & _ & H8 & _ & _ & H11).
  cbv zeta in *. cbn [with_localStorage localStorage document audio] in *.
  rewrite Hst, truthy_createObjectURL in H11. cbn [default from_option] in H11.
  unfold id in H11.
  unfold render. cbn [with_player page player isShow setIsShow].
  cbn [with_player player site store].
  split; [exact Hst|].
  eexists. split; [rewrite H2; reflexivity|].
  repeat split; assumption.
Qed.

Lemma download_follows_store_not_player_witness :
  let a := appStep 1000 true (openPage 1000 true sourceStore) (SelectMood "Dark") in
  let w := snd (mountPlayer 1000 true
                  {| store := sourceStore; alerts := []; requests := [];
                     errorsLogged := 0 |}) in
  let a' := appRun 1000 true
              [ClickGenerate; Reply (Resolved "track-2"); Player (Act Download)] a in
  store (site a') !! audioSrcKey = Some (createObjectURL "track-2") /\
  exists w', player a' = Some (initialComponent, w') /\
             audio w' = audio w /\
             children (document w') = children (document w) /\
             downloads (document w')
               = downloads (document w)
                 ++ [(createObjectURL "track-2", downloadName)].
Proof.
  apply (download_follows_store_not_player 1000 true
           (appStep 1000 true (openPage 1000 true sourceStore) (SelectMood "Dark"))
           initialComponent
           (snd (mountPlayer 1000 true
                   {| store := sourceStore; alerts := []; requests := [];
                      errorsLogged := 0 |}))
           "track-2").
  - apply appStep_invariant, openPage_invariant.
  - reflexivity.
  - discriminate.
  - reflexivity.
Defined.

(* ------------------------------------------------------------------ *)
(** ** The composer's sections *)
(* ------------------------------------------------------------------ *)

Lemma composer_rehearsal_ready : Composer.ready Composer.rehearsal.
Proof.
  split; [vm_compute; reflexivity|].
  assert (H : Composer.objectsOf Composer.rehearsal Composer.instruments = seq 0 10)
    by (vm_compute; reflexivity).
  rewrite H. apply NoDup_seq.
Qed.

Lemma length_omap_le {A B} (f : A -> option B) (l : list A) :
  (length (omap f l) <= length l)%nat.
Proof.
  induction l as [|x l IH]; cbn; [lia|]. destruct (f x); cbn; lia.
Qed.

Lemma omap_full {A B} (f : A -> option B) (l : list A) :
  length (omap f l) = length l -> Forall2 (fun x y => f x = Some y) l (omap f l).
Proof.
  induction l as [|x l IH]; cbn; intros H; [constructor|].
  destruct (f x) as [y|] eqn:E; cbn in *.
  - constructor; [exact E | apply IH; lia].
  - pose proof (length_omap_le f l). lia.
Qed.

(** What [ready] gives: every instrument holds an object, and two
    instruments that hold the same object are the same instrument. *)
Lemma composer_ready_present (s : Composer.Py) (n : string) :
  Composer.ready s -> In n Composer.instruments ->
  exists o, Composer.active_instruments s !! n = Some o.
Proof.
  intros [Hlen _] Hin.
  pose proof (omap_full (fun n => Composer.active_instruments s !! n)
                Composer.instruments Hlen) as HF.
  apply list_elem_of_In in Hin. apply list_elem_of_lookup in Hin as [i Hi].
  destruct (Forall2_lookup_l _ _ _ _ _ HF Hi) as (o & _ & Ho). eauto.
Qed.

Lemma composer_ready_distinct (s : Composer.Py) (n1 n2 : string) (o : nat) :
  Composer.ready s -> In n1 Composer.instruments -> In n2 Composer.instruments ->
  Composer.active_instruments s !! n1 = Some o ->
  Composer.active_instruments s !! n2 = Some o -> n1 = n2.
Proof.
  intros [Hlen Hnd] H1 H2 E1 E2.
  pose proof (omap_full (fun n => Composer.active_instruments s !! n)
                Composer.instruments Hlen) as HF.
  apply list_elem_of_In in H1, H2.
  apply list_elem_of_lookup in H1 as [i Hi], H2 as [j Hj].
  destruct (Forall2_lookup_l _ _ _ _ _ HF Hi) as (o1 & Ho1 & E1').
  destruct (Forall2_lookup_l _ _ _ _ _ HF Hj) as (o2 & Ho2 & E2').
  cbv beta in *. rewrite E1 in E1'. rewrite E2 in E2'.
  injection E1' as <-. injection E2' as <-.
  unfold Composer.objectsOf in Hnd.
  pose proof (NoDup_lookup _ _ _ _ Hnd Ho1 Ho2) as ->.
  rewrite Hi in Hj. now injection Hj.
Qed.

Lemma composer_field_assign (s : Composer.Py) (o o' : nat) (v : bool)
    (name : string) :
  Composer.active_instruments s !! name = Some o' ->
  Composer.field (Composer.assign o v s) name "pattern"
  = if decide (o' = o) then Some (Composer.PyBool v)
    else Composer.field s name "pattern".
Proof.
  intros H. unfold Composer.field, Composer.assign.
  cbn [Composer.active_instruments Composer.heap]. rewrite H.
  destruct (decide (o' = o)) as [->|Hne].
  - rewrite lookup_insert_eq. cbn [default from_option].
    apply lookup_insert_eq.
  - rewrite lookup_insert_ne by congruence. reflexivity.
Qed.

Lemma composer_setAll_frame (l : list (string * bool)) (s : Composer.Py) :
  Composer.active_instruments (snd (Composer.setAll l s))
    = Composer.active_instruments s /\
  Composer.coin (snd (Composer.setAll l s)) = Composer.coin s /\
  Composer.tossed (snd (Composer.setAll l s)) = Composer.tossed s.
Proof.
  revert s. induction l as [|[n v] l IH]; intros s; [cbn; auto|].
  cbn [Composer.setAll]. unfold Composer.andThen, Composer.set_pattern.
  destruct (Composer.active_instruments s !! n) as [o|]; [|cbn; auto].
  destruct (IH (Composer.assign o v s)) as (H1 & H2 & H3).
  rewrite H1, H2, H3. cbn. auto.
Qed.

Lemma composer_setAll_field (l : list (string * bool)) :
  forall (s : Composer.Py) (name : string) (o : nat),
  Composer.active_instruments s !! name = Some o ->
  (forall n, In n (map fst l) ->
             Composer.active_instruments s !! n = Some o -> n = name) ->
  (forall n, In n (map fst l) ->
             exists o', Composer.active_instruments s !! n = Some o') ->
  fst (Composer.setAll l s) = inr tt /\
  Composer.field (snd (Composer.setAll l s)) name "pattern"
  = match Composer.lastAssigned l name with
    | Some b => Some (Composer.PyBool b)
    | None => Composer.field s name "pattern"
    end.
Proof.
  induction l as [|[n v] l IH]; intros s name o Ho Hinj Hall; [cbn; auto|].
  cbn [Composer.setAll Composer.lastAssigned].
  unfold Composer.andThen, Composer.set_pattern.
  destruct (Hall n (or_introl eq_refl)) as [on Hon]. rewrite Hon.
  destruct (IH (Composer.assign on v s) name o Ho
              (fun m Hm => Hinj m (or_intror Hm))
              (fun m Hm => Hall m (or_intror Hm))) as [Hok Hf].
  split; [exact Hok|]. rewrite Hf.
  destruct (Composer.lastAssigned l name) as [b|]; [reflexivity|].
  rewrite (composer_field_assign s on o v name Ho).
  destruct (decide (o = on)) as [->|Hne].
  - rewrite (Hinj n (or_introl eq_refl) Hon), String.eqb_refl. reflexivity.
  - destruct (String.eqb_spec n name) as [->|_]; [congruence | reflexivity].
Qed.

(** A ready state runs a section to its end: the result is the state
    with the section's flags assigned in order and its tosses made. *)
Lemma composer_activate_ready (section_name : string) (s : Composer.Py) :
  In section_name Composer.sections -> Composer.ready s ->
  fst (Composer.activate section_name s) = inr tt /\
  Composer.tossed (snd (Composer.activate section_name s))
    = (Composer.tossed s + Composer.tosses section_name)%nat /\
  Composer.coin (snd (Composer.activate section_name s)) = Composer.coin s /\
  Composer.active_instruments (snd (Composer.activate section_name s))
    = Composer.active_instruments s /\
  Composer.heap (snd (Composer.activate section_name s))
    = Composer.heap
        (snd (Composer.setAll
                (Composer.lineUp section_name
                   (Composer.coin s (Composer.tossed s))
                   (Composer.coin s (S (Composer.tossed s)))) s)).
Proof.
  intros Hsec Hr.
  assert (Hp : forall n, In n Composer.instruments ->
                 exists o, Composer.active_instruments s !! n = Some o)
    by (intros n Hn; now apply composer_ready_present).
  destruct (Hp "chords"%string) as [o0 H0]; [cbn; tauto|].
  destruct (Hp "secondary_melody"%string) as [o1 H1]; [cbn; tauto|].
  destruct (Hp "bass"%string) as [o2 H2]; [cbn; tauto|].
  destruct (Hp "funky_bass"%string) as [o3 H3]; [cbn; tauto|].
  destruct (Hp "simple_drums"%string) as [o4 H4]; [cbn; tauto|].
  destruct (Hp "complex_drums"%string) as [o5 H5]; [cbn; tauto|].
  destruct (Hp "melody"%string) as [o6 H6]; [cbn; tauto|].
  destruct (Hp "catchy_melody"%string) as [o7 H7]; [cbn; tauto|].
  destruct (Hp "bg_melody"%string) as [o8 H8]; [cbn; tauto|].
  destruct (Hp "bg_melody_low"%string) as [o9 H9]; [cbn; tauto|].
  assert (Ha : forall o v t, Composer.active_instruments (Composer.assign o v t)
                            = Composer.active_instruments t) by reflexivity.
  assert (Ht : forall t, Composer.active_instruments (Composer.toss t)
                         = Composer.active_instruments t) by reflexivity.
  cbn in Hsec.
  destruct Hsec as [<-|[<-|[<-|[<-|[]]]]];
    cbn [Composer.activate Composer.lineUp Composer.tosses Composer.instruments
         String.eqb Ascii.eqb Bool.eqb zip zip_with Composer.setAll];
    unfold Composer.andThen, Composer.set_pattern, Composer.random_choice,
      Composer.pure;
    repeat (rewrite ?Ha, ?Ht;
            first [rewrite H0 | rewrite H1 | rewrite H2 | rewrite H3 | rewrite H4
                  | rewrite H5 | rewrite H6 | rewrite H7 | rewrite H8 | rewrite H9];
            cbv beta iota);
    cbn [fst snd];
    repeat split; try reflexivity; try (cbn; lia).
Qed.

Lemma composer_lineUp_names (section_name : string) (c d : bool) (n : string) :
  In n (map fst (Composer.lineUp section_name c d)) -> In n Composer.instruments.
Proof.
  unfold Composer.lineUp.
  destruct (String.eqb section_name "intro");
    [|destruct (String.eqb section_name "breakdown");
      [|destruct (String.eqb section_name "build_up");
        [|destruct (String.eqb section_name "drop")]]];
    cbn; tauto.
Qed.

(** After a section, an instrument plays exactly if the section's last
    assignment to it says so. *)
Lemma composer_plays_after (section_name : string) (s : Composer.Py)
    (name : string) :
  In section_name Composer.sections -> Composer.ready s ->
  In name Composer.instruments ->
  Composer.plays (snd (Composer.activate section_name s)) name
  = default false
      (Composer.lastAssigned
         (Composer.lineUp section_name (Composer.coin s (Composer.tossed s))
            (Composer.coin s (S (Composer.tossed s)))) name).
Proof.
  intros Hsec Hr Hname.
  destruct (composer_activate_ready section_name s Hsec Hr)
    as (_ & _ & _ & Hn & Hh).
  destruct (composer_ready_present s name Hr Hname) as [o Ho].
  set (l := Composer.lineUp _ _ _) in *.
  destruct (composer_setAll_field l s name o Ho) as [_ Hf].
  { intros n Hin Hno. apply (composer_ready_distinct s n name o Hr); auto.
    eapply composer_lineUp_names, Hin. }
  { intros n Hin. apply composer_ready_present; [exact Hr|].
    eapply composer_lineUp_names, Hin. }
  destruct (composer_setAll_frame l s) as (Hn' & _).
  assert (Hfield : Composer.field (snd (Composer.activate section_name s)) name
                     "pattern"
                   = Composer.field (snd (Composer.setAll l s)) name "pattern").
  { unfold Composer.field. rewrite Hn, Hn', Hh. reflexivity. }
  unfold Composer.plays. rewrite Hfield, Hf.
  assert (Hsome : exists b, Composer.lastAssigned l name = Some b).
  { subst l. cbn in Hsec, Hname.
    destruct Hsec as [<-|[<-|[<-|[<-|[]]]]];
      repeat (destruct Hname as [<-|Hname]; [cbn; eauto|]); destruct Hname. }
  destruct Hsome as [b ->]. destruct b; reflexivity.
Qed.

(** X22. Whatever the section and however the coin falls: the section runs
    to its end, the chords play, the funky bass and the catchy melody
    do not, at most one drum kit plays, exactly one of the two
    background melodies plays, and the bass or the secondary melody
    plays. *)
Theorem section_line_up (section_name : string) (s : Composer.Py) :
  In section_name Composer.sections -> Composer.ready s ->
  let r := Composer.activate section_name s in
  fst r = inr tt /\
  Composer.plays (snd r) "chords" = true /\
  Composer.plays (snd r) "funky_bass" = false /\
  Composer.plays (snd r) "catchy_melody" = false /\
  Composer.plays (snd r) "simple_drums"
    && Composer.plays (snd r) "complex_drums" = false /\
  Composer.plays (snd r) "bg_melody"
    = negb (Composer.plays (snd r) "bg_melody_low") /\
  Composer.plays (snd r) "bass" || Composer.plays (snd r) "secondary_melody"
    = true /\
  Composer.tossed (snd r)
    = (Composer.tossed s + Composer.tosses section_name)%nat.
Proof.
  intros Hsec Hr. cbv zeta.
  destruct (composer_activate_ready section_name s Hsec Hr) as (Hok & Ht & _).
  split; [exact Hok|].
  rewrite !(composer_plays_after section_name s _ Hsec Hr) by (cbn; tauto).
  split; [|split; [|split; [|split; [|split; [|split; [|exact Ht]]]]]];
    cbn in Hsec; destruct Hsec as [<-|[<-|[<-|[<-|[]]]]];
    destruct (Composer.coin s (Composer.tossed s)),
             (Composer.coin s (S (Composer.tossed s)));
    reflexivity.
Qed.

Lemma section_line_up_witness :
  let r := Composer.activate "intro" Composer.rehearsal in
  fst r = inr tt /\
  Composer.plays (snd r) "chords" = true /\
  Composer.plays (snd r) "funky_bass" = false /\
  Composer.plays (snd r) "catchy_melody" = false /\
  Composer.plays (snd r) "simple_drums"
    && Composer.plays (snd r) "complex_drums" = false /\
  Composer.plays (snd r) "bg_melody"
    = negb (Composer.plays (snd r) "bg_melody_low") /\
  Composer.plays (snd r) "bass" || Composer.plays (snd r) "secondary_melody"
    = true /\
  Composer.tossed (snd r)
    = (Composer.tossed Composer.rehearsal + Composer.tosses "intro")%nat.
Proof.
  apply (section_line_up "intro" Composer.rehearsal).
  - cbn. tauto.
  - apply composer_rehearsal_ready.
Defined.

(** X23. What plays after a section depends on the section and on its
    tosses only, not on what played before: two ready states whose
    next two tosses agree have the same line-up afterwards. *)
Theorem section_forgets_previous_flags (section_name : string)
    (s1 s2 : Composer.Py) (name : string) :
  In section_name Composer.sections -> Composer.ready s1 -> Composer.ready s2 ->
  In name Composer.instruments ->
  Composer.coin s1 (Composer.tossed s1) = Composer.coin s2 (Composer.tossed s2) ->
  Composer.coin s1 (S (Composer.tossed s1))
    = Composer.coin s2 (S (Composer.tossed s2)) ->
  Composer.plays (snd (Composer.activate section_name s1)) name
  = Composer.plays (snd (Composer.activate section_name s2)) name.
Proof.
  intros Hsec H1 H2 Hname Hc Hd.
  rewrite (composer_plays_after section_name s1 name Hsec H1 Hname).
  rewrite (composer_plays_after section_name s2 name Hsec H2 Hname).
  rewrite Hc, Hd. reflexivity.
Qed.

Lemma section_forgets_previous_flags_witness :
  Composer.plays
    (snd (Composer.activate "drop"
            (snd (Composer.activate "breakdown" Composer.rehearsal)))) "melody"
  = Composer.plays (snd (Composer.activate "drop" Composer.rehearsal)) "melody".
Proof.
  apply (section_forgets_previous_flags "drop"
           (snd (Composer.activate "breakdown" Composer.rehearsal))
           Composer.rehearsal "melody").
  - cbn. tauto.
  - split; [vm_compute; reflexivity|].
    assert (H : Composer.objectsOf
                  (snd (Composer.activate "breakdown" Composer.rehearsal))
                  Composer.instruments = seq 0 10) by (vm_compute; reflexivity).
    rewrite H. apply NoDup_seq.
  - apply composer_rehearsal_ready.
  - cbn. tauto.
  - reflexivity.
  - reflexivity.
Defined.

(** X24. If the chords are missing, every section stops at its first
    assignment with a [KeyError] for them and has changed no flag;
    the intro has tossed the coin once by then. *)
Theorem missing_chords_stop_section (section_name : string) (s : Composer.Py) :
  In section_name Composer.sections ->
  Composer.active_instruments s !! "chords"%string = None ->
  Composer.activate section_name s
  = (inl (Composer.KeyError "chords"),
     if String.eqb section_name "intro" then Composer.toss s else s).
Proof.
  intros Hsec Hc. cbn in Hsec.
  destruct Hsec as [<-|[<-|[<-|[<-|[]]]]];
    cbn [Composer.activate String.eqb Ascii.eqb Bool.eqb];
    unfold Composer.andThen, Composer.set_pattern, Composer.random_choice;
    cbn [Composer.active_instruments Composer.toss]; rewrite Hc; reflexivity.
Qed.

Lemma missing_chords_stop_section_witness :
  Composer.activate "intro"
    {| Composer.active_instruments := ∅; Composer.heap := ∅;
       Composer.coin := Nat.even; Composer.tossed := 0 |}
  = (inl (Composer.KeyError "chords"),
     if String.eqb "intro" "intro"
     then Composer.toss {| Composer.active_instruments := ∅; Composer.heap := ∅;
                           Composer.coin := Nat.even; Composer.tossed := 0 |}
     else {| Composer.active_instruments := ∅; Composer.heap := ∅;
             Composer.coin := Nat.even; Composer.tossed := 0 |}).
Proof.
  apply (missing_chords_stop_section "intro").
  - cbn. tauto.
  - reflexivity.
Defined.

Lemma onlyFlags_refl (s : Composer.Py) : Composer.onlyFlags s s.
Proof. unfold Composer.onlyFlags. repeat split; auto. Qed.

Lemma onlyFlags_trans (s1 s2 s3 : Composer.Py) :
  Composer.onlyFlags s1 s2 -> Composer.onlyFlags s2 s3 -> Composer.onlyFlags s1 s3.
Proof.
  intros (A1 & A2 & A3 & A4 & A5) (B1 & B2 & B3 & B4 & B5).
  unfold Composer.onlyFlags. repeat split.
  - congruence.
  - congruence.
  - lia.
  - intros o key Hk. rewrite B4, A4; auto.
  - intros o Ho. rewrite B5, A5; auto. intros n. rewrite A1. apply Ho.
Qed.

Lemma onlyFlags_andThen {A B} (m : Composer.P A) (k : A -> Composer.P B) :
  (forall s, Composer.onlyFlags s (snd (m s))) ->
  (forall a s, Composer.onlyFlags s (snd (k a s))) ->
  forall s, Composer.onlyFlags s (snd (Composer.andThen m k s)).
Proof.
  intros Hm Hk s. unfold Composer.andThen. specialize (Hm s).
  destruct (m s) as [[e|a] s']; cbn [snd] in *; [exact Hm|].
  eapply onlyFlags_trans; [exact Hm | apply Hk].
Qed.

Lemma onlyFlags_set_pattern (n : string) (v : bool) (s : Composer.Py) :
  Composer.onlyFlags s (snd (Composer.set_pattern n v s)).
Proof.
  unfold Composer.set_pattern.
  destruct (Composer.active_instruments s !! n) as [o|] eqn:E;
    [|apply onlyFlags_refl].
  unfold Composer.onlyFlags. cbn. repeat split; auto.
  - intros o' key Hk. destruct (decide (o' = o)) as [->|Hne].
    + rewrite lookup_insert_eq. cbn. rewrite lookup_insert_ne by congruence.
      reflexivity.
    + rewrite lookup_insert_ne by congruence. reflexivity.
  - intros o' Ho. rewrite lookup_insert_ne; [reflexivity|].
    intros ->. exact (Ho n E).
Qed.

Lemma onlyFlags_random_choice (s : Composer.Py) :
  Composer.onlyFlags s (snd (Composer.random_choice s)).
Proof. unfold Composer.onlyFlags. cbn. repeat split; auto. Qed.

(** X25. Whatever the section name and the state, and whether or not the
    section runs to its end: it writes ['pattern'] entries only, in
    objects that some name holds; every other entry and every other
    object is left as it was, and no name is rebound. *)
Theorem section_writes_only_flags (section_name : string) (s : Composer.Py) :
  Composer.onlyFlags s (snd (Composer.activate section_name s)).
Proof.
  revert s. unfold Composer.activate.
  destruct (String.eqb section_name "intro");
    [|destruct (String.eqb section_name "breakdown");
      [|destruct (String.eqb section_name "build_up");
        [|destruct (String.eqb section_name "drop")]]];
    repeat first
      [ apply onlyFlags_andThen; [|intros ?]
      | intros s; apply onlyFlags_set_pattern
      | intros s; apply onlyFlags_random_choice
      | intros s; apply onlyFlags_refl ].
Qed.

(* ------------------------------------------------------------------ *)
(** ** The earlier player: one pipeline per chosen file *)
(* ------------------------------------------------------------------ *)

Lemma existsb_eqb_seq (n : nat) : existsb (Nat.eqb n) (seq 0 n) = false.
Proof.
  apply not_true_is_false. intros H. apply existsb_exists in H as (x & Hx & E).
  apply Nat.eqb_eq in E. subst x. apply in_seq in Hx. lia.
Qed.

Lemma fileplayer_pipelines_first (vp : Z) :
  FilePlayer.pipelines 0 (FilePlayer.firstRender vp true).
Proof.
  unfold FilePlayer.pipelines, FilePlayer.firstRender. cbn.
  repeat split; eauto; discriminate.
Qed.

Lemma fileplayer_choose_none (o : FilePlayer.outcome) (n : nat) :
  FilePlayer.pipelines n o -> FilePlayer.chooseFile o None = o.
Proof.
  intros ((c & b & ->) & _). unfold FilePlayer.chooseFile, FilePlayer.effect.
  cbn [FilePlayer.handleFileChange FilePlayer.cellsOf FilePlayer.browserOf].
  unfold FilePlayer.cells_eqb. rewrite !bool_decide_eq_true_2 by reflexivity.
  reflexivity.
Qed.

Lemma fileplayer_choose_some (o : FilePlayer.outcome) (n : nat) (f : string) :
  FilePlayer.pipelines n o ->
  FilePlayer.pipelines (S n) (FilePlayer.chooseFile o (Some f)) /\
  FilePlayer.audios (FilePlayer.browserOf (FilePlayer.chooseFile o (Some f)))
  = FilePlayer.audios (FilePlayer.browserOf o)
    ++ [withControls true (loadSrc (createObjectURL f) newAudio)].
Proof.
  intros ((c & b & ->) & Hapi & Hcv & Hau & Hbody & Htap & Hctx & Han & Hms
          & Hcn & Hrs & Hcells).
  cbn [FilePlayer.cellsOf FilePlayer.browserOf] in *.
  unfold FilePlayer.chooseFile, FilePlayer.handleFileChange.
  cbn [FilePlayer.cellsOf FilePlayer.browserOf FilePlayer.graph
       FilePlayer.audios FilePlayer.tapped].
  rewrite Hapi. cbn [negb]. change (validFftSize 256) with true. cbn [negb].
  rewrite Hau, Htap, existsb_eqb_seq, Hctx, Han, Hms, length_seq.
  unfold FilePlayer.effect.
  assert (Hne : FilePlayer.cells_eqb c
                  {| FilePlayer.audioCtx := Some n; FilePlayer.analyser := Some n;
                     FilePlayer.source := Some n |} = false).
  { unfold FilePlayer.cells_eqb. cbn.
    destruct n as [|k]; destruct Hcells as [-> _]; cbn.
    - reflexivity.
    - rewrite bool_decide_eq_false_2; [reflexivity|]. intros [= E]. lia. }
  rewrite Hne. cbn [FilePlayer.audioCtx FilePlayer.analyser FilePlayer.source
                    isNull negb andb].
  unfold FilePlayer.visualize.
  cbn [FilePlayer.canvas FilePlayer.with_graph FilePlayer.analyser
       FilePlayer.graph analysers].
  destruct (FilePlayer.canvas b) as [cv|] eqn:Ecv; [|contradiction].
  assert (Hlk : <[n := silentAnalyser 256]>
                  (analysers (FilePlayer.graph b) ++ [silentAnalyser 2048]) !! n
                = Some (silentAnalyser 256)).
  { apply list_lookup_insert_eq. rewrite length_app. cbn. lia. }
  rewrite Hlk. unfold visualize.
  cbn [FilePlayer.innerWidth FilePlayer.audios FilePlayer.body FilePlayer.tapped
       FilePlayer.renderers FilePlayer.audioRef FilePlayer.graph].
  destruct (draw _ _) as [cv' r].
  split; [|reflexivity].
  unfold FilePlayer.pipelines.
  cbn [FilePlayer.cellsOf FilePlayer.browserOf FilePlayer.graph FilePlayer.canvas
       FilePlayer.audios FilePlayer.body FilePlayer.tapped FilePlayer.renderers
       FilePlayer.audioRef FilePlayer.with_graph hasAudioContext contextsCreated
       analysers mediaSources connections].
  rewrite ?length_app, ?length_insert, ?length_app, ?Hau, ?Hbody, ?Han, ?Hcn, ?Hrs.
  rewrite !seq_S. cbn [length Nat.add].
  repeat split; eauto; try discriminate; lia.
Qed.

(** X26. Every file the user picks leaves a whole pipeline behind and none
    is ever taken down: after any choices there are as many audio
    elements in the page, audio contexts, analysers, source nodes and
    render loops on the one canvas as files were picked. *)
Theorem every_file_adds_a_pipeline (vp : Z) (files : list (option string)) :
  let o := fold_left FilePlayer.chooseFile files (FilePlayer.firstRender vp true) in
  let b := FilePlayer.browserOf o in
  let n := FilePlayer.chosen files in
  (exists c, o = FilePlayer.Done c b) /\
  length (FilePlayer.audios b) = n /\
  FilePlayer.body b = seq 0 n /\
  contextsCreated (FilePlayer.graph b) = n /\
  length (analysers (FilePlayer.graph b)) = n /\
  length (mediaSources (FilePlayer.graph b)) = n /\
  length (FilePlayer.renderers b) = n /\
  Forall (fun a => controls a = true) (FilePlayer.audios b).
Proof.
  cbv zeta.
  assert (H : FilePlayer.pipelines (FilePlayer.chosen files)
                (fold_left FilePlayer.chooseFile files (FilePlayer.firstRender vp true))
              /\ Forall (fun a => controls a = true)
                   (FilePlayer.audios (FilePlayer.browserOf
                      (fold_left FilePlayer.chooseFile files
                         (FilePlayer.firstRender vp true))))).
  { induction files as [|f files IH] using rev_ind.
    - split; [apply fileplayer_pipelines_first | constructor].
    - rewrite fold_left_app. cbn [fold_left]. destruct IH as [IH HF].
      unfold FilePlayer.chosen in *. rewrite omap_app, length_app.
      destruct f as [f|]; cbn [omap length].
      + destruct (fileplayer_choose_some _ _ f IH) as [H1 H2].
        rewrite Nat.add_1_r. split; [exact H1|]. rewrite H2.
        apply Forall_app. split; [exact HF|]. constructor; [reflexivity|constructor].
      + rewrite (fileplayer_choose_none _ _ IH), Nat.add_0_r. auto. }
  destruct H as [((c & b & E) & _ & _ & Hau & Hbody & _ & Hctx & Han & Hms & _
                  & Hrs & _) HF].
  split; [exists c; rewrite E; reflexivity|].
  rewrite Hms, length_seq. repeat split; assumption.
Qed.

(** X27. In a browser without the Web Audio constructor every pick ends in
    a TypeError, yet each one has already put its audio element, with
    the native controls, into the page; no context, no render loop
    and no change of the cells ever follows. *)
Theorem file_player_without_audio_api (vp : Z) (files : list string) :
  let o := fold_left FilePlayer.chooseFile (map Some files)
             (FilePlayer.firstRender vp false) in
  let b := FilePlayer.browserOf o in
  FilePlayer.cellsOf o = FilePlayer.initialCells /\
  FilePlayer.audios b
    = map (fun f => withControls true (loadSrc (createObjectURL f) newAudio)) files /\
  FilePlayer.body b = seq 0 (length files) /\
  contextsCreated (FilePlayer.graph b) = 0%nat /\
  FilePlayer.renderers b = [] /\
  (files <> [] -> o = FilePlayer.Threw TypeError FilePlayer.initialCells b).
Proof.
  cbv zeta. induction files as [|f files IH] using rev_ind.
  - cbn. repeat split; try reflexivity. intros H. now destruct H.
  - rewrite map_app, fold_left_app. cbn [map fold_left].
    destruct IH as (Hc & Ha & Hb & Hn & Hr & _).
    set (o := fold_left _ _ _) in *.
    assert (Hapi : hasAudioContext (FilePlayer.graph (FilePlayer.browserOf o)) = false).
    { subst o. clear. induction files as [|f files IH] using rev_ind; [reflexivity|].
      rewrite map_app, fold_left_app. cbn [map fold_left].
      set (o := fold_left _ _ _) in *.
      unfold FilePlayer.chooseFile, FilePlayer.handleFileChange.
      cbn [FilePlayer.graph]. rewrite IH. cbn [negb FilePlayer.browserOf FilePlayer.graph].
      exact IH. }
    unfold FilePlayer.chooseFile, FilePlayer.handleFileChange.
    cbn [FilePlayer.graph]. rewrite Hapi. cbn [negb].
    cbn [FilePlayer.cellsOf FilePlayer.browserOf FilePlayer.audios FilePlayer.body
         FilePlayer.graph FilePlayer.renderers].
    rewrite Hc, Ha, Hb, Hn, Hr, map_app, length_app, length_map.
    cbn [map length]. rewrite Nat.add_1_r, seq_S.
    repeat split; reflexivity.
Qed.

(* ------------------------------------------------------------------ *)
(** ** The page that lists the user's tracks *)
(* ------------------------------------------------------------------ *)

(** X28. Whatever is stored: with no [user] entry the page throws a
    TypeError while rendering; with one, whatever its text, it shows
    the caption of the empty case and not a single track. *)
Theorem my_music_never_lists_a_track (st : gmap string string) (next : nat) :
  MyMusic.MyMusicPage st next
  = match st !! "user"%string with
    | None => inl TypeError
    | Some _ => inr {| MyMusic.caption := "No Songs"; MyMusic.rows := [] |}
    end.
Proof.
  unfold MyMusic.MyMusicPage. destruct (st !! "user"%string) as [s|]; [|reflexivity].
  cbn [MyMusic.getProperty String.eqb Ascii.eqb Bool.eqb MyMusic.truthyV
       MyMusic.equalsNewArray MyMusic.mapRows].
  assert (H : Nat.eqb next (S next) = false) by (apply Nat.eqb_neq; lia).
  rewrite H. reflexivity.
Qed.

(* ------------------------------------------------------------------ *)
(** ** The earlier page *)
(* ------------------------------------------------------------------ *)

Lemma mountPlayer_unloaded (vp : Z) (api : bool) (s : Site) :
  truthy (store s !! audioSrcKey) = false ->
  mountPlayer vp api s
  = (initialComponent,
     with_console [missingSourceWarning] (freshWorld (store s) vp api)).
Proof.
  intros Ht. unfold mountPlayer. step_monad. cbn [fst snd freshWorld localStorage].
  rewrite Ht. reflexivity.
Qed.

Lemma earlier_appStep_player (a : EarlierPage.App) (e : appEvent) :
  src (audio (snd (EarlierPage.player (EarlierPage.appStep a e))))
    = src (audio (snd (EarlierPage.player a))) /\
  console (snd (EarlierPage.player (EarlierPage.appStep a e)))
    = console (snd (EarlierPage.player a)).
Proof.
  unfold EarlierPage.appStep. destruct e as [m| |r|e].
  - auto.
  - destruct (EarlierPage.isLoading _); [auto|].
    destruct (EarlierPage.handleGenerate_request _ _) as [[p s] waits]. auto.
  - destruct (EarlierPage.awaiting a); [auto|].
    destruct (EarlierPage.handleGenerate_resume _ _ _) as [p s]. auto.
  - destruct (EarlierPage.player a) as [c w]. cbn [EarlierPage.player snd].
    destruct (handle_frame e c (with_localStorage (store (EarlierPage.site a)) w))
      as (_ & H2 & _ & H3 & _).
    cbv zeta in *. auto.
Qed.

(** X29. The earlier page opened with no track in storage: its player logs
    the warning once at mount and then never gets a source, whatever
    is selected, generated, answered or done with the player, even
    once a generated track is stored and shown by the native audio
    element. *)
Theorem earlier_page_player_stays_empty (vp : Z) (api : bool)
    (st : gmap string string) (es : list appEvent) :
  truthy (st !! audioSrcKey) = false ->
  let a := EarlierPage.appRun es (EarlierPage.openPage vp api st) in
  src (audio (snd (EarlierPage.player a))) = EmptyString /\
  console (snd (EarlierPage.player a)) = [missingSourceWarning].
Proof.
  intros Ht. cbv zeta. induction es as [|e es IH] using rev_ind.
  - unfold EarlierPage.appRun, EarlierPage.openPage. cbn [fold_left EarlierPage.player].
    rewrite mountPlayer_unloaded by exact Ht. split; reflexivity.
  - unfold EarlierPage.appRun in *. rewrite fold_left_app. cbn [fold_left].
    destruct (earlier_appStep_player
                (fold_left EarlierPage.appStep es (EarlierPage.openPage vp api st)) e)
      as [H1 H2].
    rewrite H1, H2. exact IH.
Qed.

Lemma earlier_page_player_stays_empty_witness :
  let a := EarlierPage.appRun
             [SelectMood "Dark"; ClickGenerate; Reply (Resolved "track-1");
              Player (Act TogglePlayPause)]
             (EarlierPage.openPage 1000 true emptyStore) in
  src (audio (snd (EarlierPage.player a))) = EmptyString /\
  console (snd (EarlierPage.player a)) = [missingSourceWarning].
Proof.
  apply (earlier_page_player_stays_empty 1000 true emptyStore
           [SelectMood "Dark"; ClickGenerate; Reply (Resolved "track-1");
            Player (Act TogglePlayPause)]).
  reflexivity.
Defined.

Lemma earlier_click (a : EarlierPage.App) :
  EarlierPage.isLoading (EarlierPage.page a) = false ->
  EarlierPage.selectedOption (EarlierPage.page a) <> EmptyString ->
  EarlierPage.appStep a ClickGenerate
  = {| EarlierPage.page :=
         EarlierPage.setAudioSrc None
           (EarlierPage.setError EmptyString
              (EarlierPage.setIsLoading true (EarlierPage.page a)));
       EarlierPage.site :=
         post {| path := "/1235/generate-song";
                 mood := EarlierPage.selectedOption (EarlierPage.page a);
                 song_number := 5 |} (EarlierPage.site a);
       EarlierPage.awaiting := S (EarlierPage.awaiting a);
       EarlierPage.player := EarlierPage.player a |}.
Proof.
  intros Hl Hsel. unfold EarlierPage.appStep. rewrite Hl.
  unfold EarlierPage.handleGenerate_request.
  apply String.eqb_neq in Hsel. rewrite Hsel. reflexivity.
Qed.

(** X30. On the earlier page a generation hides the native audio element
    from the click on; a successful reply stores the new blob URL and
    shows it in the native element; a failed one leaves the store
    exactly as it was, so the old track is gone from the screen but
    comes back when the page is opened again. *)
Theorem earlier_page_generation (a : EarlierPage.App) (r : reply) :
  EarlierPage.isLoading (EarlierPage.page a) = false ->
  EarlierPage.selectedOption (EarlierPage.page a) <> EmptyString ->
  let a1 := EarlierPage.appStep a ClickGenerate in
  let a2 := EarlierPage.appStep a1 (Reply r) in
  EarlierPage.nativeAudio a1 = None /\
  store (EarlierPage.site a1) = store (EarlierPage.site a) /\
  EarlierPage.isLoading (EarlierPage.page a1) = true /\
  EarlierPage.isLoading (EarlierPage.page a2) = false /\
  EarlierPage.player a2 = EarlierPage.player a /\
  match r with
  | Resolved data =>
      EarlierPage.nativeAudio a2 = Some (createObjectURL data) /\
      store (EarlierPage.site a2) !! audioSrcKey = Some (createObjectURL data) /\
      alerts (EarlierPage.site a2) = alerts (EarlierPage.site a)
  | Rejected =>
      EarlierPage.nativeAudio a2 = None /\
      store (EarlierPage.site a2) = store (EarlierPage.site a) /\
      EarlierPage.error (EarlierPage.page a2) = generationFailed /\
      alerts (EarlierPage.site a2) = alerts (EarlierPage.site a) ++ [generationFailed] /\
      EarlierPage.audioSrc
        (EarlierPage.initialPage (store (EarlierPage.site a2)))
      = EarlierPage.audioSrc
          (EarlierPage.initialPage (store (EarlierPage.site a)))
  end.
Proof.
  intros Hl Hsel. cbv zeta.
  rewrite (earlier_click a Hl Hsel).
  unfold EarlierPage.appStep, EarlierPage.nativeAudio.
  cbn [EarlierPage.page EarlierPage.site EarlierPage.awaiting EarlierPage.player
       EarlierPage.audioSrc EarlierPage.isLoading EarlierPage.setAudioSrc
       EarlierPage.setError EarlierPage.setIsLoading truthy store post].
  repeat (split; [reflexivity|]).
  destruct r as [|data]; unfold EarlierPage.handleGenerate_resume;
    cbn [EarlierPage.page EarlierPage.site EarlierPage.awaiting EarlierPage.player
         EarlierPage.audioSrc EarlierPage.isLoading EarlierPage.error
         EarlierPage.setAudioSrc EarlierPage.setError EarlierPage.setIsLoading
         store alerts post setItem alert consoleError].
  - repeat split; reflexivity.
  - rewrite truthy_createObjectURL, lookup_insert_eq. repeat split; reflexivity.
Qed.

Lemma earlier_page_generation_witness :
  let a := EarlierPage.appStep (EarlierPage.openPage 1000 true sourceStore)
             (SelectMood "Dark") in
  let a1 := EarlierPage.appStep a ClickGenerate in
  let a2 := EarlierPage.appStep a1 (Reply Rejected) in
  EarlierPage.nativeAudio a1 = None /\
  store (EarlierPage.site a1) = store (EarlierPage.site a) /\
  EarlierPage.isLoading (EarlierPage.page a1) = true /\
  EarlierPage.isLoading (EarlierPage.page a2) = false /\
  EarlierPage.player a2 = EarlierPage.player a /\
  EarlierPage.nativeAudio a2 = None /\
  store (EarlierPage.site a2) = store (EarlierPage.site a) /\
  EarlierPage.error (EarlierPage.page a2) = generationFailed /\
  alerts (EarlierPage.site a2) = alerts (EarlierPage.site a) ++ [generationFailed] /\
  EarlierPage.audioSrc
    (EarlierPage.initialPage (store (EarlierPage.site a2)))
  = EarlierPage.audioSrc
      (EarlierPage.initialPage (store (EarlierPage.site a))).
Proof.
  apply (earlier_page_generation
           (EarlierPage.appStep (EarlierPage.openPage 1000 true sourceStore)
              (SelectMood "Dark"))
           Rejected).
  - reflexivity.
  - discriminate.
Defined.
